(** * ClayRS: the recommendation orchestration and the evaluation set-up

    A shallow embedding of
      - [clayrs/recsys/recsys.py]: [ContentBasedRS] and [GraphBasedRS],
      - [clayrs/evaluation/eval_model.py]: the constructor of [EvalModel],
      - [orange_cb_recsys/evaluation/eval_pipeline_modules/metric_evaluator.py]:
        [MetricEvaluator.eval_metrics],
    with the algorithm interface of
      [orange_cb_recsys/recsys/content_based_algorithm/content_based_algorithm.py].

    Python objects that are mutated and shared (algorithm instances, splits)
    live in a store and are named by their index; the orchestration methods are
    computations over that store which either return or raise. *)

From Stdlib Require Import ZArith QArith.
From stdpp Require Import base option list strings gmap pretty.

(** ** Python values that reach the orchestration as user identifiers *)

Module Py.

(** A user identifier handed over in [user_id_list]: a [str] or an [int]. *)
Inductive pyval :=
  | PStr (s : string)
  | PInt (z : Z).

#[global] Instance pyval_eq_dec : EqDecision pyval.
Proof. solve_decision. Defined.

#[global] Instance pyval_countable : Countable pyval.
Proof.
  refine (inj_countable'
            (λ v, match v with PStr s => inl s | PInt z => inr z end)
            (λ x, match x with inl s => PStr s | inr z => PInt z end) _).
  by intros [].
Defined.

(** [str(v)]: a string is itself, an integer is written in decimal. *)
Definition str (v : pyval) : string :=
  match v with
  | PStr s => s
  | PInt z => pretty z
  end.

(** The identifier a caller would pass after converting it by hand. *)
Definition as_str (v : pyval) : pyval := PStr (str v).

(** [repr] of an optional integer ([None] or the number). *)
Definition repr_opt_int (n : option Z) : string :=
  match n with
  | None => "None"
  | Some z => pretty z
  end.

(** [for x in set(l)]: the loop sees every distinct element of [l] once, in
    an order that the language does not fix. [us] is such an iteration. *)
Definition set_iteration {X} (l us : list X) : Prop :=
  NoDup us ∧ ∀ x, x ∈ us ↔ x ∈ l.

(** An iteration order for every set built from a list. *)
Definition set_order {X} (order : list X → list X) : Prop :=
  ∀ l, set_iteration l (order l).

(** One iteration order of [set(l)]: by first occurrence in [l]. *)
Fixpoint pyset_from {X} `{EqDecision X} (seen l : list X) : list X :=
  match l with
  | [] => []
  | x :: l' =>
      if bool_decide (x ∈ seen) then pyset_from seen l'
      else x :: pyset_from (x :: seen) l'
  end.

Definition pyset {X} `{EqDecision X} (l : list X) : list X := pyset_from [] l.

End Py.
Export Py.

(** ** Interaction records and the ratings store *)

Module Ratings.

(** Finite floating-point scores are rationals and compare as such. *)
#[global] Instance Q_eq_dec : EqDecision Q.
Proof. solve_decision. Defined.

Record Interaction := {
  user_id : string;
  item_id : string;
  score : Q;
}.

#[global] Instance Interaction_eq_dec : EqDecision Interaction.
Proof. solve_decision. Defined.

(** Modelled from the spec: the [Ratings] class of
    [clayrs.content_analyzer.ratings_manager.ratings] is not part of the
    sources at hand. The spec describes it as an ordered collection of
    interaction records with string identifiers, user-indexed lookup and
    column projection. *)
Notation Ratings := (list Interaction) (only parsing).

Definition user_id_column (r : Ratings) : list string := user_id <$> r.

Definition item_id_column (r : Ratings) : list string := item_id <$> r.

Definition get_user_interactions (r : Ratings) (u : string) : list Interaction :=
  filter (λ i, user_id i = u) r.

(** Modelled from the spec: [Rank.from_list] and [Prediction.from_list]
    (same missing module) build the result container from the flat list of
    per-user partial results; a user's records keep the order in which they
    were emitted. *)
Definition from_list (records : list Interaction) : Ratings := records.

(** The sub-sequence of a result container that belongs to one user. *)
Definition user_records (r : Ratings) (u : string) : list Interaction :=
  get_user_interactions r u.

End Ratings.
Export Ratings.

(** ** Computations that mutate a state and may raise *)

Module Exec.

(** The exceptions of the code. [DanglingReference] is not one of them: it
    is what reading a reference to no object gives, which a recommender built
    over a live algorithm object never does. *)
Inductive exn :=
  | NotFittedAlg (msg : string)
  | UserSkipAlgFit (msg : string)
  | NotPredictionAlg
  | NotRankingAlg
  | ValueError (msg : string)
  | OtherError (msg : string)
  | DanglingReference.

#[global] Instance exn_eq_dec : EqDecision exn.
Proof. solve_decision. Defined.

Inductive result (R : Type) :=
  | Ok (r : R)
  | Raise (e : exn).
Arguments Ok {R} r.
Arguments Raise {R} e.

(** A method body: from the state before to an outcome and the state after.
    A raise keeps the mutations made so far. *)
Definition M (S R : Type) : Type := S → result R * S.

Definition ret {S R} (r : R) : M S R := λ s, (Ok r, s).

Definition bind {S R R'} (m : M S R) (k : R → M S R') : M S R' :=
  λ s, match m s with
       | (Ok r, s') => k r s'
       | (Raise e, s') => (Raise e, s')
       end.

Definition raise {S R} (e : exn) : M S R := λ s, (Raise e, s).

Definition gets {S R} (f : S → R) : M S R := λ s, (Ok (f s), s).

Definition modify {S} (f : S → S) : M S unit := λ s, (Ok tt, f s).

(** [try: body except ...: handler]; the handler re-raises what it does not
    catch. *)
Definition try_except {S R} (body : M S R) (handler : exn → M S R) : M S R :=
  λ s, match body s with
       | (Ok r, s') => (Ok r, s')
       | (Raise e, s') => handler e s'
       end.

Declare Scope exec_scope.
Delimit Scope exec_scope with exec.
Notation "'let*' x ':=' m 'in' k" := (bind m (λ x, k))
  (at level 10, x name, m at level 100, k at level 200) : exec_scope.
Notation "m ';;' k" := (bind m (λ _, k))
  (at level 100, k at level 200, right associativity) : exec_scope.

(** [acc = []; for x in xs: acc = body(acc, x)] *)
Fixpoint for_loop {S X B} (body : B → X → M S B) (xs : list X) (acc : B) : M S B :=
  match xs with
  | [] => ret acc
  | x :: xs' => bind (body acc x) (for_loop body xs')
  end.

Inductive log_record :=
  | LogInfo (msg : string)
  | LogWarning (msg : string).

#[global] Instance log_record_eq_dec : EqDecision log_record.
Proof. solve_decision. Defined.

End Exec.
Export Exec.

(** ** The content-based algorithm interface

    [ContentBasedAlgorithm] is abstract: [process_rated], [fit], [predict] and
    [rank] are what a concrete algorithm supplies. *)

Module Algorithm.

Record ContentBasedAlgorithm := {
  (** the attributes of an algorithm object *)
  instance : Type;
  (** what [_load_available_contents] hands back *)
  contents : Type;
  _load_available_contents : instance → string → gset string → contents;
  (** [process_rated] and [fit] mutate the object they are called on and
      may raise; they may draw on a source of randomness, given here as a
      number. The pair is the object afterwards and what was raised. *)
  process_rated : instance → list Interaction → contents → nat → instance * option exn;
  fit : instance → nat → instance * option exn;
  (** [predict] and [rank] return the scored records of the user whose
      ratings they are given; [None] stands for the [raise NotPredictionAlg]
      and [raise NotRankingAlg] that the abstract class prescribes for an
      algorithm without that capability. *)
  predict : instance → list Interaction → contents → option (gset string) →
            option (list Interaction);
  rank : instance → list Interaction → contents → option Z → option (gset string) →
         option (list Interaction);
}.

(** [process_rated] followed by [fit] on one object, as the orchestration
    runs them inside its [try] block. *)
Definition fit_outcome (C : ContentBasedAlgorithm) (a : instance C)
    (user_train : list Interaction) (loaded : contents C) (e : nat) :
    instance C * option exn :=
  match process_rated C a user_train loaded e with
  | (a1, Some ex) => (a1, Some ex)
  | (a1, None) => fit C a1 (S e)
  end.

Inductive fit_kind := Fitted | Skipped | Failed.

#[global] Instance fit_kind_eq_dec : EqDecision fit_kind.
Proof. solve_decision. Defined.

Definition kind_of (raised : option exn) : fit_kind :=
  match raised with
  | None => Fitted
  | Some (UserSkipAlgFit _) => Skipped
  | Some _ => Failed
  end.



End Algorithm.
Export Algorithm.

(** ** Methodology *)

Module Methodology.

Record Methodology := {
  filter_single : string → Ratings → Ratings → list string;
  methodology_repr : string;
}.

Definition repr_opt (m : option Methodology) : string :=
  match m with
  | None => "None"
  | Some m => methodology_repr m
  end.

(** Modelled from the spec: [TestRatingsMethodology], the default of every
    orchestration method, lives in [clayrs.recsys.methodology], which is not
    part of the sources at hand. Its candidates are the items that the user
    rated in the test store. *)
Definition TestRatingsMethodology : Methodology :=
  {| filter_single := λ user_id _ test_set,
       item_id <$> get_user_interactions test_set user_id;
     methodology_repr := "TestRatingsMethodology()" |}.

End Methodology.
Export Methodology.

(** ** ContentBasedRS

    The methods are followed statement by statement. Left out are the
    descriptions set on the progress bar and the [del] and [gc.collect()]
    after each loop, which change nothing that is read back. *)

Module ContentBasedRS.

Notation loc := nat (only parsing).

(** Calls that the orchestration makes on algorithm objects, in order; the
    user being processed is noted with each call. *)
Inductive call :=
  | CallDeepcopy (src dst : loc)
  | CallProcessRated (user : string) (target : loc)
  | CallFit (user : string) (target : loc).

#[global] Instance call_eq_dec : EqDecision call.
Proof. solve_decision. Defined.

Record t := {
  algorithm : loc;
  train_set : Ratings;
  items_directory : string;
  users_directory : option string;
  _user_fit_dic : gmap string (option loc);
  _yaml_report : option (list (string * string));
}.

(** [ContentBasedRS(algorithm, train_set, items_directory, users_directory)] *)
Definition __init__ (algorithm : loc) (train_set : Ratings) (items_directory : string)
    (users_directory : option string) : t :=
  {| algorithm := algorithm; train_set := train_set;
     items_directory := items_directory; users_directory := users_directory;
     _user_fit_dic := ∅; _yaml_report := None |}.

Section Orchestration.
Context (C : ContentBasedAlgorithm).

(** The orchestration object, the store of algorithm objects, the source
    of randomness, and what was called and logged so far. *)
Record state := {
  self : t;
  heap : list (instance C);
  entropy : nat;
  calls : list call;
  log : list log_record;
}.

Definition set_self (f : t → t) (st : state) : state :=
  {| self := f (self st); heap := heap st; entropy := entropy st;
     calls := calls st; log := log st |}.

Definition set_heap (f : list (instance C) → list (instance C)) (st : state) : state :=
  {| self := self st; heap := f (heap st); entropy := entropy st;
     calls := calls st; log := log st |}.

Definition tick (st : state) : state :=
  {| self := self st; heap := heap st; entropy := S (entropy st);
     calls := calls st; log := log st |}.

Definition add_call (c : call) (st : state) : state :=
  {| self := self st; heap := heap st; entropy := entropy st;
     calls := calls st ++ [c]; log := log st |}.

Definition add_log (r : log_record) (st : state) : state :=
  {| self := self st; heap := heap st; entropy := entropy st;
     calls := calls st; log := log st ++ [r] |}.

Definition warning (msg : string) : M state unit := modify (add_log (LogWarning msg)).
Definition info (msg : string) : M state unit := modify (add_log (LogInfo msg)).

(** [self._user_fit_dic[user_id] = v] *)
Definition set_user_fit (user_id : string) (v : option loc) : M state unit :=
  modify (set_self (λ rs,
    {| algorithm := algorithm rs; train_set := train_set rs;
       items_directory := items_directory rs; users_directory := users_directory rs;
       _user_fit_dic := <[user_id := v]> (_user_fit_dic rs);
       _yaml_report := _yaml_report rs |})).

(** [self._yaml_report = {...}] *)
Definition set_yaml_report (r : list (string * string)) : M state unit :=
  modify (set_self (λ rs,
    {| algorithm := algorithm rs; train_set := train_set rs;
       items_directory := items_directory rs; users_directory := users_directory rs;
       _user_fit_dic := _user_fit_dic rs;
       _yaml_report := Some r |})).

(** [self._user_fit_dic.get(user_id)]: [None] for a missing key and for a
    key that holds [None] alike. *)
Definition dict_get (d : gmap string (option loc)) (user_id : string) : option loc :=
  match d !! user_id with
  | Some v => v
  | None => None
  end.

(** Reading the object behind a reference. *)
Definition deref (l : loc) : M state (instance C) :=
  λ st, match heap st !! l with
        | Some a => (Ok a, st)
        | None => (Raise DanglingReference, st)
        end.

(** [deepcopy(src)]: a new object with the same attributes. *)
Definition deepcopy (src : loc) : M state loc :=
  (let* a := deref src in
   let* dst := gets (λ st, length (heap st)) in
   modify (set_heap (λ h, h ++ [a])) ;;
   modify (add_call (CallDeepcopy src dst)) ;;
   ret dst)%exec.

(** A mutating call: the object is updated in place, then the call returns
    or raises. *)
Definition mutating_call (target : loc)
    (method : instance C → nat → instance C * option exn) : M state unit :=
  (let* a := deref target in
   let* e := gets entropy in
   modify tick ;;
   let '(a', raised) := method a e in
   modify (set_heap (λ h, <[target := a']> h)) ;;
   match raised with
   | None => ret tt
   | Some ex => raise ex
   end)%exec.

Definition call_process_rated (user : string) (target : loc)
    (user_train : list Interaction) (loaded : contents C) : M state unit :=
  (modify (add_call (CallProcessRated user target)) ;;
   mutating_call target (λ a e, process_rated C a user_train loaded e))%exec.

Definition call_fit (user : string) (target : loc) : M state unit :=
  (modify (add_call (CallFit user target)) ;;
   mutating_call target (fit C))%exec.

Definition call_predict (target : loc) (user_train : list Interaction)
    (loaded : contents C) (filter_list : option (gset string)) :
    M state (list Interaction) :=
  (let* a := deref target in
   match predict C a user_train loaded filter_list with
   | Some records => ret records
   | None => raise NotPredictionAlg
   end)%exec.

Definition call_rank (target : loc) (user_train : list Interaction)
    (loaded : contents C) (n_recs : option Z) (filter_list : option (gset string)) :
    M state (list Interaction) :=
  (let* a := deref target in
   match rank C a user_train loaded n_recs filter_list with
   | Some records => ret records
   | None => raise NotRankingAlg
   end)%exec.

(** [self.algorithm._load_available_contents(self.items_directory, items)] *)
Definition load_contents (items : gset string) : M state (contents C) :=
  (let* base := gets (λ st, algorithm (self st)) in
   let* a := deref base in
   let* dir := gets (λ st, items_directory (self st)) in
   ret (_load_available_contents C a dir items))%exec.

(** [filter_list = None; if methodology is not None: filter_list = set(...)] *)
Definition candidate_set (methodology : option Methodology) (user_id : string)
    (train_set test_set : Ratings) : option (gset string) :=
  match methodology with
  | None => None
  | Some m => Some (list_to_set (filter_single m user_id train_set test_set))
  end.

Definition candidate_filter (methodology : option Methodology) (user_id : string)
    (test_set : Ratings) : M state (option (gset string)) :=
  gets (λ st, candidate_set methodology user_id (train_set (self st)) test_set).

(** [all_users]: the users of the test set, or those of [user_id_list] when
    it is given; the loops run over [set(all_users)]. *)
Definition all_users (test_set : Ratings) (user_id_list : option (list pyval)) : list pyval :=
  match user_id_list with
  | Some l => l
  | None => PStr <$> user_id_column test_set
  end.

Definition not_fitted_msg : string :=
  "Algorithm not fit! You must call the fit() method first, or fit_rank().".

(** *** [fit] *)

Definition fit_user (loaded : contents C) (_ : unit) (user_id : string) : M state unit :=
  (let* user_train := gets (λ st, get_user_interactions (train_set (self st)) user_id) in
   try_except
     (let* base := gets (λ st, algorithm (self st)) in
      let* user_alg := deepcopy base in
      call_process_rated user_id user_alg user_train loaded ;;
      call_fit user_id user_alg ;;
      set_user_fit user_id (Some user_alg))
     (λ e, match e with
           | UserSkipAlgFit msg =>
               warning (msg +:+ "
No algorithm will be fitted for the user " +:+ user_id) ;;
               set_user_fit user_id None
           | _ => raise e
           end))%exec.

Definition fit (order : list string → list string) : M state unit :=
  (let* items_to_load := gets (λ st, list_to_set (item_id_column (train_set (self st)))) in
   let* loaded := load_contents items_to_load in
   let* users := gets (λ st, order (user_id_column (train_set (self st)))) in
   for_loop (fit_user loaded) users tt)%exec.

(** *** [rank] *)

Definition rank_user (test_set : Ratings) (n_recs : option Z)
    (methodology : option Methodology) (loaded : contents C)
    (rank : list Interaction) (user_id : pyval) : M state (list Interaction) :=
  (let user_id := str user_id in
   let* user_train := gets (λ st, get_user_interactions (train_set (self st)) user_id) in
   let* filter_list := candidate_filter methodology user_id test_set in
   let* user_fitted_alg := gets (λ st, dict_get (_user_fit_dic (self st)) user_id) in
   let* user_rank :=
     match user_fitted_alg with
     | Some alg => call_rank alg user_train loaded n_recs filter_list
     | None =>
         warning ("No algorithm fitted for user " +:+ user_id +:+ "! It will be skipped") ;;
         ret []
     end in
   ret (rank ++ user_rank))%exec.

Definition rank (order : list pyval → list pyval) (test_set : Ratings)
    (n_recs : option Z) (user_id_list : option (list pyval))
    (methodology : option Methodology) : M state Ratings :=
  (let* n := gets (λ st, size (_user_fit_dic (self st))) in
   if decide (n = 0) then raise (NotFittedAlg not_fitted_msg)
   else
     let* loaded := load_contents ∅ in
     info "Don't worry if it looks stuck at first" ;;
     info "First iterations will stabilize the estimated remaining time" ;;
     let* rank := for_loop (rank_user test_set n_recs methodology loaded)
                    (order (all_users test_set user_id_list)) [] in
     set_yaml_report [("mode", "rank"); ("n_recs", repr_opt_int n_recs);
                      ("methodology", repr_opt methodology)] ;;
     ret (from_list rank))%exec.

(** *** [predict] *)

Definition predict_user (test_set : Ratings)
    (methodology : option Methodology) (loaded : contents C)
    (pred : list Interaction) (user_id : pyval) : M state (list Interaction) :=
  (let user_id := str user_id in
   let* user_train := gets (λ st, get_user_interactions (train_set (self st)) user_id) in
   let* filter_list := candidate_filter methodology user_id test_set in
   let* user_fitted_alg := gets (λ st, dict_get (_user_fit_dic (self st)) user_id) in
   let* user_pred :=
     match user_fitted_alg with
     | Some alg => call_predict alg user_train loaded filter_list
     | None =>
         warning ("No algorithm fitted for user " +:+ user_id +:+ "! It will be skipped") ;;
         ret []
     end in
   ret (pred ++ user_pred))%exec.

Definition predict (order : list pyval → list pyval) (test_set : Ratings)
    (user_id_list : option (list pyval))
    (methodology : option Methodology) : M state Ratings :=
  (let* n := gets (λ st, size (_user_fit_dic (self st))) in
   if decide (n = 0) then raise (NotFittedAlg not_fitted_msg)
   else
     let* loaded := load_contents ∅ in
     info "Don't worry if it looks stuck at first" ;;
     info "First iterations will stabilize the estimated remaining time" ;;
     let* pred := for_loop (predict_user test_set methodology loaded)
                    (order (all_users test_set user_id_list)) [] in
     set_yaml_report [("mode", "score_prediction");
                      ("methodology", repr_opt methodology)] ;;
     ret (from_list pred))%exec.

(** *** [fit_predict] and [fit_rank] *)

(** The [try] block shared by both: choose the object to fit, fit it, and
    hand it on; [None] is the [continue] of the [except] clause. *)
Definition fit_in_loop (save_fit : bool) (loaded : contents C) (user_id : string)
    (user_train : list Interaction) : M state (option loc) :=
  (try_except
     (let* alg :=
        if save_fit then
          let* base := gets (λ st, algorithm (self st)) in
          let* user_alg := deepcopy base in
          set_user_fit user_id (Some user_alg) ;;
          ret user_alg
        else gets (λ st, algorithm (self st)) in
      call_process_rated user_id alg user_train loaded ;;
      call_fit user_id alg ;;
      ret (Some alg))
     (λ e, match e with
           | UserSkipAlgFit msg =>
               warning (msg +:+ "
The algorithm can't be fitted for the user " +:+ user_id) ;;
               (if save_fit then set_user_fit user_id None else ret tt) ;;
               ret None
           | _ => raise e
           end))%exec.

Definition fit_predict_user (test_set : Ratings)
    (methodology : option Methodology) (save_fit : bool) (loaded : contents C)
    (pred : list Interaction) (user_id : pyval) : M state (list Interaction) :=
  (let user_id := str user_id in
   let* user_train := gets (λ st, get_user_interactions (train_set (self st)) user_id) in
   let* fitted := fit_in_loop save_fit loaded user_id user_train in
   match fitted with
   | None => ret pred
   | Some alg =>
       let* filter_list := candidate_filter methodology user_id test_set in
       let* user_pred := call_predict alg user_train loaded filter_list in
       ret (pred ++ user_pred)
   end)%exec.

Definition fit_predict (order : list pyval → list pyval) (test_set : Ratings)
    (user_id_list : option (list pyval))
    (methodology : option Methodology) (save_fit : bool) : M state Ratings :=
  (let* loaded := load_contents ∅ in
   info "Don't worry if it looks stuck at first" ;;
   info "First iterations will stabilize the estimated remaining time" ;;
   let* pred := for_loop (fit_predict_user test_set methodology save_fit loaded)
                  (order (all_users test_set user_id_list)) [] in
   set_yaml_report [("mode", "score_prediction");
                    ("methodology", repr_opt methodology)] ;;
   ret (from_list pred))%exec.

Definition fit_rank_user (test_set : Ratings) (n_recs : option Z)
    (methodology : option Methodology) (save_fit : bool) (loaded : contents C)
    (rank : list Interaction) (user_id : pyval) : M state (list Interaction) :=
  (let user_id := str user_id in
   let* user_train := gets (λ st, get_user_interactions (train_set (self st)) user_id) in
   let* fitted := fit_in_loop save_fit loaded user_id user_train in
   match fitted with
   | None => ret rank
   | Some alg =>
       let* filter_list := candidate_filter methodology user_id test_set in
       let* user_rank := call_rank alg user_train loaded n_recs filter_list in
       ret (rank ++ user_rank)
   end)%exec.

Definition fit_rank (order : list pyval → list pyval) (test_set : Ratings)
    (n_recs : option Z) (user_id_list : option (list pyval))
    (methodology : option Methodology) (save_fit : bool) : M state Ratings :=
  (let* loaded := load_contents ∅ in
   info "Don't worry if it looks stuck at first" ;;
   info "First iterations will stabilize the estimated remaining time" ;;
   let* rank := for_loop (fit_rank_user test_set n_recs methodology save_fit loaded)
                  (order (all_users test_set user_id_list)) [] in
   set_yaml_report [("mode", "rank"); ("n_recs", repr_opt_int n_recs);
                    ("methodology", repr_opt methodology)] ;;
   ret (from_list rank))%exec.

End Orchestration.

Arguments self {C} _.
Arguments heap {C} _.
Arguments entropy {C} _.
Arguments calls {C} _.
Arguments log {C} _.

End ContentBasedRS.

(** ** The graph-based algorithm interface *)

Module GraphAlgorithm.

(** [result_as_iter_dict=True]: the candidates of every user at once. *)
Notation filter_dict := (gmap string (list string)) (only parsing).

(** Modelled from the spec: the graph, the graph-based algorithm and
    [Methodology.filter_all] are not part of the sources at hand. The spec
    gives the algorithm one batched [predict] and one batched [rank] over the
    shared graph, and [filter_all] as a function of the two stores. *)
Record GraphBasedAlgorithm := {
  graph : Type;
  to_ratings : graph → Ratings;
  graph_repr : graph → string;
  filter_all : Methodology → Ratings → Ratings → filter_dict;
  predict : gset pyval → graph → option filter_dict → result (list Interaction);
  rank : gset pyval → graph → option Z → option filter_dict → result (list Interaction);
}.

End GraphAlgorithm.

(** ** GraphBasedRS *)

Module GraphBasedRS.

Import GraphAlgorithm.

(** How a set of identifiers is printed inside a message. *)
Definition repr_id (v : pyval) : string :=
  match v with
  | PStr s => "'" +:+ s +:+ "'"
  | PInt z => pretty z
  end.

Fixpoint join (sep : string) (l : list string) : string :=
  match l with
  | [] => ""
  | [x] => x
  | x :: l' => x +:+ sep +:+ join sep l'
  end.

Definition repr_set (s : gset pyval) : string :=
  match elements s with
  | [] => "set()"
  | l => "{" +:+ join ", " (repr_id <$> l) +:+ "}"
  end.

Definition none_ranked_msg : string :=
  "No items could be ranked for any users! Remember that items to rank must be present in the graph.
Try changing methodology!".

Definition dropped_msg (dropped : gset pyval) : string :=
  "No items could be ranked for users " +:+ repr_set dropped +:+ "
No nodes to rank for them found in the graph. Try changing methodology! ".

Section Orchestration.
Context (G : GraphBasedAlgorithm).

Record t := {
  self_graph : graph G;
  _yaml_report : option (list (string * string));
}.

Record state := {
  self : t;
  log : list log_record;
}.

Definition warning (msg : string) : M state unit :=
  modify (λ st, {| self := self st; log := log st ++ [LogWarning msg] |}).

Definition set_yaml_report (r : list (string * string)) : M state unit :=
  modify (λ st, {| self := {| self_graph := self_graph (self st); _yaml_report := Some r |};
                   log := log st |}).

(** A call into the algorithm: it returns or raises, the graph is only read. *)
Definition call {R} (r : result R) : M state R := λ st, (r, st).

Definition all_users (test_set : Ratings) (user_id_list : option (list pyval)) : gset pyval :=
  match user_id_list with
  | Some l => list_to_set l
  | None => list_to_set (PStr <$> user_id_column test_set)
  end.

Definition batched_filter (methodology : option Methodology) (test_set : Ratings) :
    M state (option filter_dict) :=
  gets (λ st, match methodology with
              | None => None
              | Some m => Some (filter_all G m (to_ratings G (self_graph (self st))) test_set)
              end).

(** The users that the records of a result container cover. *)
Definition covered (r : Ratings) : gset pyval := list_to_set (PStr <$> user_id_column r).

Definition predict (test_set : Ratings) (user_id_list : option (list pyval))
    (methodology : option Methodology) : M state Ratings :=
  (let all_users := all_users test_set user_id_list in
   let* filter_dict := batched_filter methodology test_set in
   let* g := gets (λ st, self_graph (self st)) in
   let* total_predict_list := call (GraphAlgorithm.predict G all_users g filter_dict) in
   let total_predict := from_list total_predict_list in
   set_yaml_report [("graph", graph_repr G g); ("mode", "score_prediction");
                    ("methodology", repr_opt methodology)] ;;
   ret total_predict)%exec.

Definition rank (test_set : Ratings) (n_recs : option Z)
    (user_id_list : option (list pyval))
    (methodology : option Methodology) : M state Ratings :=
  (let all_users := all_users test_set user_id_list in
   let* filter_dict := batched_filter methodology test_set in
   let* g := gets (λ st, self_graph (self st)) in
   let* total_rank_list := call (GraphAlgorithm.rank G all_users g n_recs filter_dict) in
   let total_rank := from_list total_rank_list in
   (if decide (length total_rank = 0) then warning none_ranked_msg
    else if decide (size (list_to_set (user_id_column total_rank) : gset string)
                    ≠ size all_users)
         then warning (dropped_msg (all_users ∖ covered total_rank))
         else ret tt) ;;
   set_yaml_report [("graph", graph_repr G g); ("mode", "rank");
                    ("n_recs", repr_opt_int n_recs);
                    ("methodology", repr_opt methodology)] ;;
   ret total_rank)%exec.

End Orchestration.

Arguments self {G} _.
Arguments log {G} _.
Arguments self_graph {G} _.

End GraphBasedRS.

(** ** EvalModel *)

Module EvalModel.

Section Construction.
Context {Metric : Type}.

Record t := {
  _pred_list : list Ratings;
  _truth_list : list Ratings;
  _metric_list : list Metric;
  _yaml_report_result : option (list (string * string));
}.

Definition __init__ (pred_list truth_list : list Ratings) (metric_list : list Metric) :
    result t :=
  if decide (length pred_list = 0 ∧ length truth_list = 0) then
    Raise (ValueError "List containing predictions and list containing ground truths are empty!")
  else if decide (length pred_list ≠ length truth_list) then
    Raise (ValueError
      "List containing predictions and list containing ground truths must have the same length!")
  else
    Ok {| _pred_list := pred_list; _truth_list := truth_list;
          _metric_list := metric_list; _yaml_report_result := None |}.

Definition pred_list (m : t) : list Ratings := _pred_list m.
Definition truth_list (m : t) : list Ratings := _truth_list m.
Definition metric_list (m : t) : list Metric := _metric_list m.

End Construction.

Arguments t : clear implicits.

End EvalModel.

(** ** MetricEvaluator of orange_cb_recsys *)

Module MetricEvaluator.

(** A row of a prediction or truth frame. *)
Record row := {
  from_id : string;
  to_id : string;
  row_score : Q;
}.

#[global] Instance row_eq_dec : EqDecision row.
Proof. solve_decision. Defined.

Notation frame := (list row) (only parsing).

(** A [Split] object: two frames, of which [truth] gets reassigned. *)
Record Split := {
  pred : frame;
  truth : frame;
}.

#[global] Instance Split_eq_dec : EqDecision Split.
Proof. solve_decision. Defined.

Notation loc := nat (only parsing).

(** The frames of metric results and the pandas operations that assemble
    them are taken as given. *)
Record ResultFrames := {
  table : Type;
  table_empty : table → bool;
  concat_tables : Z → list table → result table;
  groupby_from_id_mean : table → table;
  loc_sys : table → result table;
  drop_sys : table → result table;
  dropna_columns : table → table;
}.

(** [pd.concat(objs, axis)] refuses an empty list of objects. *)
Definition pd_concat (P : ResultFrames) (axis : Z) (objs : list (table P)) :
    result (table P) :=
  match objs with
  | [] => Raise (ValueError "No objects to concatenate")
  | _ => concat_tables P axis objs
  end.

Section Evaluation.
Context (P : ResultFrames).

Record Metric := {
  perform : Split → result (table P);
  _get_pred_truth_list : list loc;
}.

Record state := {
  _split_list : option (list loc);
  store : list Split;
  log : list log_record;
}.

Definition set_store (f : list Split → list Split) (st : state) : state :=
  {| _split_list := _split_list st; store := f (store st); log := log st |}.

Definition info (msg : string) : M state unit :=
  modify (λ st, {| _split_list := _split_list st; store := store st;
                   log := log st ++ [LogInfo msg] |}).

Definition deref (l : loc) : M state Split :=
  λ st, match store st !! l with
        | Some sp => (Ok sp, st)
        | None => (Raise DanglingReference, st)
        end.

Definition call {R} (r : result R) : M state R := λ st, (r, st).

(** [frame.query('from_id in @from_id_valid')] *)
Definition query_from_id_in (from_id_valid : list string) (f : frame) : frame :=
  filter (λ r, from_id r ∈ from_id_valid) f.

(** [split.truth = v] *)
Definition set_truth (split : loc) (v : frame) : M state unit :=
  modify (set_store (λ s,
    match s !! split with
    | Some sp => <[split := {| pred := pred sp; truth := v |}]> s
    | None => s
    end)).

Definition is_empty (f : frame) : bool :=
  match f with [] => true | _ => false end.

(** The body of [for split in split_list]. *)
Definition eval_split (metric : Metric) (metric_result_list : list (table P))
    (split : loc) : M state (list (table P)) :=
  (let* sp := deref split in
   if negb (is_empty (pred sp)) && negb (is_empty (truth sp)) then
     let from_id_valid := from_id <$> pred sp in
     set_truth split (query_from_id_in from_id_valid (truth sp)) ;;
     let* sp' := deref split in
     let* metric_result := call (perform metric sp') in
     ret (metric_result_list ++ [metric_result])
   else ret metric_result_list)%exec.

Definition split_list_of (st : state) (metric : Metric) : list loc :=
  match _split_list st with
  | None => _get_pred_truth_list metric
  | Some l => l
  end.

(** The body of [for metric in metric_list]. *)
Definition eval_metric (frames_to_concat : list (table P)) (metric : Metric) :
    M state (list (table P)) :=
  (let* split_list := gets (λ st, split_list_of st metric) in
   let* metric_result_list := for_loop (eval_split metric) split_list [] in
   let* total_results_metric := call (pd_concat P 0 metric_result_list) in
   if negb (table_empty P total_results_metric) then
     ret (frames_to_concat ++ [groupby_from_id_mean P total_results_metric])
   else ret frames_to_concat)%exec.

Definition eval_metrics (metric_list : list Metric) : M state (table P * table P) :=
  (info "Performing metrics chosen" ;;
   let* frames_to_concat := for_loop eval_metric metric_list [] in
   let* final_result := call (pd_concat P 1 frames_to_concat) in
   let* system_results := call (loc_sys P final_result) in
   let* each_user_result := call (drop_sys P final_result) in
   let each_user_result := dropna_columns P each_user_result in
   ret (system_results, each_user_result))%exec.

(** The splits that a run over [metric_list] evaluates. *)
Definition evaluated (st : state) (metric_list : list Metric) : list loc :=
  metric_list ≫= split_list_of st.

End Evaluation.

Arguments split_list_of {P} _ _.
Arguments evaluated {P} _ _.

End MetricEvaluator.

(** ** A small concrete instance of every interface

    A recommender that scores an item by a fixed feature of the item and
    refuses to fit a user without a positive rating; a graph algorithm that
    ranks the users it finds in the graph; a metric that counts rows. *)

Module Toy.

Record toy_instance := {
  threshold : Q;
  rated : list Interaction;
  fitted : bool;
  seed : nat;
}.

Definition catalogue : list (string * Q) :=
  [("i1", 5%Q); ("i2", 1%Q); ("i3", 2%Q); ("i4", 4%Q); ("i5", 3%Q)].

Definition toy_process_rated (a : toy_instance) (user_train : list Interaction)
    (loaded : list (string * Q)) (e : nat) : toy_instance * option exn :=
  ({| threshold := threshold a; rated := user_train; fitted := false; seed := seed a |},
   match user_train with
   | [] => Some (UserSkipAlgFit "The user has no ratings")
   | _ => None
   end).

Definition toy_fit (a : toy_instance) (e : nat) : toy_instance * option exn :=
  if existsb (λ i, negb (Qle_bool (score i) (threshold a))) (rated a) then
    ({| threshold := threshold a; rated := rated a; fitted := true; seed := e |}, None)
  else (a, Some (UserSkipAlgFit "There are no positive items for the user")).

Definition user_of (user_train : list Interaction) : string :=
  match user_train with
  | i :: _ => user_id i
  | [] => ""
  end.

Definition toy_predict (a : toy_instance) (user_train : list Interaction)
    (loaded : list (string * Q)) (filter_list : option (gset string)) :
    option (list Interaction) :=
  let eligible (item : string) : bool :=
    match filter_list with
    | Some f => bool_decide (item ∈ f)
    | None => bool_decide (item ∉ item_id <$> user_train)
    end in
  Some ((λ c, {| user_id := user_of user_train; item_id := c.1; score := c.2 |})
          <$> filter (λ c, eligible c.1 = true) loaded).

(** Insertion into a list that is in descending order of score; a record
    goes after those of equal score and so keeps its place among them. *)
Fixpoint insert_desc (x : Interaction) (l : list Interaction) : list Interaction :=
  match l with
  | [] => [x]
  | y :: l' =>
      if Qle_bool (score x) (score y) then y :: insert_desc x l'
      else x :: y :: l'
  end.

Definition sort_desc (l : list Interaction) : list Interaction :=
  foldl (λ acc x, insert_desc x acc) [] l.

Definition toy_rank (a : toy_instance) (user_train : list Interaction)
    (loaded : list (string * Q)) (n_recs : option Z) (filter_list : option (gset string)) :
    option (list Interaction) :=
  match toy_predict a user_train loaded filter_list with
  | Some l =>
      let ranked := sort_desc l in
      Some (match n_recs with
            | Some n => take (Z.to_nat n) ranked
            | None => ranked
            end)
  | None => None
  end.

Definition alg : ContentBasedAlgorithm :=
  {| Algorithm.instance := toy_instance;
     Algorithm.contents := list (string * Q);
     Algorithm._load_available_contents := λ _ _ _, catalogue;
     Algorithm.process_rated := toy_process_rated;
     Algorithm.fit := toy_fit;
     Algorithm.predict := toy_predict;
     Algorithm.rank := toy_rank |}.

Definition rating (u i : string) (s : Q) : Interaction :=
  {| user_id := u; item_id := i; score := s |}.

Definition train : Ratings :=
  [rating "1" "i1" 5; rating "1" "i2" 1; rating "2" "i1" 4; rating "3" "i2" 1].

Definition test : Ratings :=
  [rating "1" "i3" 3; rating "1" "i4" 5; rating "2" "i2" 2; rating "2" "i5" 4;
   rating "3" "i1" 4].

Definition base : toy_instance :=
  {| threshold := 2; rated := []; fitted := false; seed := 0 |}.

(** A freshly constructed recommender whose algorithm is object 0. *)
Definition fresh : ContentBasedRS.state alg :=
  ContentBasedRS.Build_state alg
    (ContentBasedRS.__init__ 0 train "items_dir" None) [base] 0 [] [].

(** The same recommender after [fit()]. *)
Definition after_fit : ContentBasedRS.state alg :=
  (ContentBasedRS.fit alg pyset fresh).2.

(** *** Graph-based *)

Definition graph_alg : GraphAlgorithm.GraphBasedAlgorithm :=
  {| GraphAlgorithm.graph := Ratings;
     GraphAlgorithm.to_ratings := λ g, g;
     GraphAlgorithm.graph_repr := λ _, "FullDiGraph";
     GraphAlgorithm.filter_all := λ m train_set test_set,
       list_to_map ((λ u, (u, filter_single m u train_set test_set))
                      <$> user_id_column test_set);
     GraphAlgorithm.predict := λ users g _,
       Ok (filter (λ i, PStr (user_id i) ∈ users) g);
     GraphAlgorithm.rank := λ users g n_recs _,
       Ok (sort_desc (filter (λ i, PStr (user_id i) ∈ users) g)) |}.

Definition graph_state (g : Ratings) : GraphBasedRS.state graph_alg :=
  GraphBasedRS.Build_state graph_alg (GraphBasedRS.Build_t graph_alg g None) [].

(** *** Evaluation *)

Import MetricEvaluator.

Definition frames : ResultFrames :=
  {| table := list (string * Q);
     table_empty := λ t, match t with [] => true | _ => false end;
     concat_tables := λ _ ts, Ok (concat ts);
     groupby_from_id_mean := λ t, t;
     loc_sys := λ t, match filter (λ r, r.1 = "sys") t with
                     | [] => Raise (OtherError "KeyError")
                     | l => Ok l
                     end;
     drop_sys := λ t, match filter (λ r, r.1 = "sys") t with
                      | [] => Raise (OtherError "KeyError")
                      | _ => Ok (filter (λ r, r.1 ≠ "sys") t)
                      end;
     dropna_columns := λ t, t |}.

(** Counts the truth rows of every user and of the whole split. *)
Definition count_metric : Metric frames :=
  Build_Metric frames
    (λ sp, Ok (("sys", inject_Z (Z.of_nat (length (truth sp))))
                 :: ((λ r, (from_id r, 1%Q)) <$> truth sp)))
    [].

Definition frow (u i : string) (s : Q) : row :=
  {| from_id := u; to_id := i; row_score := s |}.

Definition splits : MetricEvaluator.state :=
  {| _split_list := Some [0; 1; 0];
     store := [ {| pred := [frow "1" "i3" 4; frow "2" "i5" 3];
                   truth := [frow "1" "i3" 3; frow "3" "i1" 4; frow "2" "i5" 4] |};
                {| pred := []; truth := [frow "1" "i4" 5] |} ];
     MetricEvaluator.log := [] |}.

End Toy.

(** ** An algorithm that can fail

    The toy algorithm, except that [process_rated] raises an error that is
    not [UserSkipAlgFit] on a rating of an item it has no content for. *)

Module Faulty.

Import Toy.

Definition faulty_process_rated (a : toy_instance) (user_train : list Interaction)
    (loaded : list (string * Q)) (e : nat) : toy_instance * option exn :=
  if forallb (λ i, bool_decide (item_id i ∈ loaded.*1)) user_train
  then toy_process_rated a user_train loaded e
  else (a, Some (OtherError "KeyError")).

Definition alg : ContentBasedAlgorithm :=
  {| Algorithm.instance := toy_instance;
     Algorithm.contents := list (string * Q);
     Algorithm._load_available_contents := λ _ _ _, catalogue;
     Algorithm.process_rated := faulty_process_rated;
     Algorithm.fit := toy_fit;
     Algorithm.predict := toy_predict;
     Algorithm.rank := toy_rank |}.

(** User 2 rated an item that is not in the catalogue. *)
Definition train : Ratings :=
  [rating "1" "i1" 5; rating "2" "i9" 4].

Definition fresh : ContentBasedRS.state alg :=
  ContentBasedRS.Build_state alg
    (ContentBasedRS.__init__ 0 train "items_dir" None) [base] 0 [] [].

End Faulty.

(** ** The [Split] container of clayrs

    [clayrs/evaluation/eval_pipeline_modules/metric_evaluator.py], class
    [Split]: two slots, each reachable under three names. The slots hold
    whatever is assigned to them. *)

Module SplitObject.

Section Split.
Context {V : Type}.

(** The instance dictionary that [__init__] fills. *)
Record Split := {
  first : V;
  second : V;
  _valid_first_name : list string;
  _valid_second_name : list string;
}.

Definition __init__ (first_set second_set : V) : Split :=
  {| first := first_set; second := second_set;
     _valid_first_name := ["train"; "pred"; "first"];
     _valid_second_name := ["test"; "truth"; "second"] |}.

(** [__getattr__(name)], which Python calls for a name that the instance
    dictionary and the class do not have; without a [return] the result is
    [None]. *)
Definition __getattr__ (self : Split) (name : string) : option V :=
  if decide (name ∈ _valid_first_name self) then Some (first self)
  else if decide (name ∈ _valid_second_name self) then Some (second self)
  else None.

(** [__setattr__(name, value)], which Python calls for every assignment
    [self.name = value]. *)
Definition __setattr__ (self : Split) (name : string) (value : V) : Split :=
  if decide (name ∈ _valid_first_name self) then
    {| first := value; second := second self;
       _valid_first_name := _valid_first_name self;
       _valid_second_name := _valid_second_name self |}
  else if decide (name ∈ _valid_second_name self) then
    {| first := first self; second := value;
       _valid_first_name := _valid_first_name self;
       _valid_second_name := _valid_second_name self |}
  else self.

End Split.

Arguments Split : clear implicits.

End SplitObject.

(** ** The content-based algorithm base class of orange_cb_recsys

    [orange_cb_recsys/recsys/content_based_algorithm/content_based_algorithm.py]:
    [_bracket_representation] and [extract_features_item]. *)

Module OrangeContentBased.

(** The value of a field in [item_field]: one representation given as a
    string, or a list of them. *)
Inductive representations :=
  | Str (s : string)
  | Reps (l : list string).

#[global] Instance representations_eq_dec : EqDecision representations.
Proof. solve_decision. Defined.

(** A Python dict, which keeps its keys in insertion order. *)
Notation dict := (list (string * representations)) (only parsing).

Fixpoint dict_getitem (d : dict) (k : string) : option representations :=
  match d with
  | [] => None
  | (k', v) :: d' => if decide (k' = k) then Some v else dict_getitem d' k
  end.

(** [d[k] = v]: an existing key keeps its place. *)
Fixpoint dict_setitem (d : dict) (k : string) (v : representations) : dict :=
  match d with
  | [] => [(k, v)]
  | (k', v') :: d' =>
      if decide (k' = k) then (k, v) :: d' else (k', v') :: dict_setitem d' k v
  end.

Definition getitem {S} (d : dict) (k : string) : M S representations :=
  match dict_getitem d k with
  | Some v => ret v
  | None => raise (OtherError "KeyError")
  end.

(** [_bracket_representation(item_field)]: the dict of the caller is
    updated in place and handed back. *)
Definition _bracket_representation : M dict dict :=
  (let* fields := gets (λ item_field : dict, item_field.*1) in
   for_loop (λ (_ : unit) field,
     let* item_field := gets id in
     let* v := getitem item_field field in
     match v with
     | Str s => modify (λ item_field : dict, dict_setitem item_field field (Reps [s]))
     | Reps _ => ret tt
     end) fields tt ;;
   gets id)%exec.

(** What [for representation in field_representations] runs over: the
    elements of a list, the characters of a string. *)
Definition iterate (v : representations) : list string :=
  match v with
  | Reps l => l
  | Str s => (λ c, String c EmptyString) <$> String.list_ascii_of_string s
  end.

Section Extract.
(** The [Content] class is not among the sources:
    [item.get_field(field).get_representation(representation).value] is
    taken as one operation that returns a value or raises. *)
Context {Content V : Type}.
Context (get_value : Content → string → string → result V).

Definition extract_features_item (item_field : dict) (item : option Content) :
    result (list V) :=
  ((match item with
    | Some item =>
        for_loop (λ (_ : unit) field,
          let* field_representations := getitem item_field field in
          for_loop (λ (_ : unit) representation,
            let* value := (λ bag, (get_value item field representation, bag)) in
            modify (λ item_bag_list : list V, item_bag_list ++ [value]))
            (iterate field_representations) tt) (item_field.*1) tt
    | None => ret tt
    end ;;
    gets id)%exec []).1.

End Extract.

End OrangeContentBased.

(** ** The AMAR networks of clayrs: the constructors

    [clayrs/recsys/network_based_algorithm/amar/amar_network.py]. Tensors,
    devices and the conversion
    [torch.nn.Parameter(t.float().to(device), requires_grad=...)] are taken
    as given. *)

Module Amar.

Section Networks.
Context {tensor parameter device weights : Type}.
Context (to_parameter : tensor → device → bool → parameter).

Record SingleSourceAmarNetwork := {
  single_device : device;
  single_grad_features : bool;
  single_custom_weights : option weights;
  single_items_features : parameter;
  single_users_features : parameter;
}.

Record DoubleSourceAmarNetwork := {
  double_device : device;
  double_grad_features : bool;
  double_custom_weights : option weights;
  double_items_features : list tensor;
  double_users_features : list tensor;
  first_users_features : parameter;
  first_items_features : parameter;
  second_users_features : parameter;
  second_items_features : parameter;
}.

(** [l[i]] *)
Definition index (l : list tensor) (i : nat) : result tensor :=
  match l !! i with
  | Some t => Ok t
  | None => Raise (OtherError "IndexError")
  end.

Definition single_users_msg (n : nat) : string :=
  "This class only supports a single source of features
The following number of users features were found: " +:+ pretty n.

Definition single_items_msg (n : nat) : string :=
  "This class only supports a single source of features
The following number of items features were found: " +:+ pretty n.

Definition double_users_msg (n : nat) : string :=
  "This class only supports two sources of features
The following number of users features were found: " +:+ pretty n.

Definition double_items_msg (n : nat) : string :=
  "This class only supports two sources of features
The following number of items features were found: " +:+ pretty n.

Definition SingleSource__init__ (items_features users_features : list tensor)
    (dev : device) (grad_features : bool) (custom_weights : option weights) :
    result SingleSourceAmarNetwork :=
  if decide (length users_features ≠ 1) then
    Raise (ValueError (single_users_msg (length users_features)))
  else if decide (length items_features ≠ 1) then
    Raise (ValueError (single_items_msg (length items_features)))
  else
    match index users_features 0, index items_features 0 with
    | Ok u, Ok i =>
        Ok {| single_device := dev; single_grad_features := grad_features;
              single_custom_weights := custom_weights;
              single_users_features := to_parameter u dev grad_features;
              single_items_features := to_parameter i dev grad_features |}
    | Raise e, _ => Raise e
    | _, Raise e => Raise e
    end.

Definition DoubleSource__init__ (items_features users_features : list tensor)
    (dev : device) (grad_features : bool) (custom_weights : option weights) :
    result DoubleSourceAmarNetwork :=
  if decide (length users_features ≠ 2) then
    Raise (ValueError (double_users_msg (length users_features)))
  else if decide (length items_features ≠ 2) then
    Raise (ValueError (double_items_msg (length items_features)))
  else
    match index users_features 0, index items_features 0,
          index users_features 1, index items_features 1 with
    | Ok u0, Ok i0, Ok u1, Ok i1 =>
        Ok {| double_device := dev; double_grad_features := grad_features;
              double_custom_weights := custom_weights;
              double_items_features := items_features;
              double_users_features := users_features;
              first_users_features := to_parameter u0 dev grad_features;
              first_items_features := to_parameter i0 dev grad_features;
              second_users_features := to_parameter u1 dev grad_features;
              second_items_features := to_parameter i1 dev grad_features |}
    | Raise e, _, _, _ => Raise e
    | _, Raise e, _, _ => Raise e
    | _, _, Raise e, _ => Raise e
    | _, _, _, Raise e => Raise e
    end.

End Networks.

End Amar.

(** ** Vocabulary of the statements *)

Module Vocabulary.

Import ContentBasedRS.

Section ContentBased.
Context {C : ContentBasedAlgorithm}.

(** The registry of a state. *)
Definition registry (st : state C) : gmap string (option loc) :=
  _user_fit_dic (self st).

(** The user has a fitted model: a key whose value is not [None]. *)
Definition has_model (st : state C) (v : pyval) : Prop :=
  is_Some (dict_get (registry st) (str v)).

#[global] Instance has_model_dec st v : Decision (has_model st v).
Proof. unfold has_model. apply _. Defined.

(** The warning of [predict] and [rank] for a user without a model. *)
Definition skip_warning (v : pyval) : log_record :=
  LogWarning ("No algorithm fitted for user " +:+ str v +:+ "! It will be skipped").


(** What the content loader of the state hands to [predict] and [rank]. *)
Definition loaded_for (st : state C) (a : instance C) : contents C :=
  _load_available_contents C a (items_directory (self st)) ∅.


(** The per-user calls of [rank] and [predict], as functions of the fitted
    object and the string form of the identifier. *)
Definition rank_call (st : state C) (test_set : Ratings) (n_recs : option Z)
    (methodology : option Methodology) (loaded : contents C) :
    instance C → string → option (list Interaction) :=
  λ a u, Algorithm.rank C a (get_user_interactions (train_set (self st)) u) loaded n_recs
           (candidate_set methodology u (train_set (self st)) test_set).

Definition predict_call (st : state C) (test_set : Ratings)
    (methodology : option Methodology) (loaded : contents C) :
    instance C → string → option (list Interaction) :=
  λ a u, Algorithm.predict C a (get_user_interactions (train_set (self st)) u) loaded
           (candidate_set methodology u (train_set (self st)) test_set).

(** What one identifier adds to the result and to the log: a warning and
    no record without a model, else what the call on its model returns;
    [missing] is raised by an algorithm that lacks the capability. *)
Definition user_part (st : state C) (missing : exn)
    (call : instance C → string → option (list Interaction)) (v : pyval) :
    result (list Interaction) * list log_record :=
  match dict_get (registry st) (str v) with
  | Some alg =>
      match heap st !! alg with
      | Some a =>
          match call a (str v) with
          | Some records => (Ok records, [])
          | None => (Raise missing, [])
          end
      | None => (Raise DanglingReference, [])
      end
  | None => (Ok [], [skip_warning v])
  end.

(** The loops of [rank] and [predict] as a function: the records gathered
    and the warnings logged on the way, up to the first raise. *)
Fixpoint gather (part : pyval → result (list Interaction) * list log_record)
    (us : list pyval) (acc : list Interaction) :
    result (list Interaction) * list log_record :=
  match us with
  | [] => (Ok acc, [])
  | v :: us' =>
      match part v with
      | (Ok records, w) =>
          let '(r, w') := gather part us' (acc ++ records) in (r, w ++ w')
      | (Raise e, w) => (Raise e, w)
      end
  end.

Definition with_log (st : state C) (w : list log_record) : state C :=
  {| self := self st; heap := heap st; entropy := entropy st;
     calls := calls st; log := log st ++ w |}.

Definition with_report (st : state C) (r : list (string * string)) : state C :=
  {| self := {| algorithm := algorithm (self st); train_set := train_set (self st);
                items_directory := items_directory (self st);
                users_directory := users_directory (self st);
                _user_fit_dic := _user_fit_dic (self st);
                _yaml_report := Some r |};
     heap := heap st; entropy := entropy st; calls := calls st; log := log st |}.

Definition loop_infos : list log_record :=
  [LogInfo "Don't worry if it looks stuck at first";
   LogInfo "First iterations will stabilize the estimated remaining time"].

(** *** Fitting *)

(** [process_rated] returned, so [fit] is called as well. *)
Definition process_ok (a : instance C) (user_train : list Interaction)
    (loaded : contents C) (e : nat) : bool :=
  match (process_rated C a user_train loaded e).2 with
  | None => true
  | Some _ => false
  end.

(** The ratings of a user in the train set of the recommender. *)
Definition train_of (st : state C) (u : string) : list Interaction :=
  get_user_interactions (train_set (self st)) u.

(** The state after [process_rated] and [fit] ran on object [target], which
    held [a]: the object is updated in place, the calls are recorded, the
    randomness is used up. *)
Definition fit_calls_state (st : state C) (u : string) (target : loc)
    (a : instance C) (loaded : contents C) : state C :=
  let e := entropy st in
  let ok := process_ok a (train_of st u) loaded e in
  {| self := self st;
     heap := <[target := (fit_outcome C a (train_of st u) loaded e).1]> (heap st);
     entropy := if ok then S (S e) else S e;
     calls := calls st ++ CallProcessRated u target
                :: (if ok then [CallFit u target] else []);
     log := log st |}.

(** The state after [deepcopy(src)], where [src] holds [a]. *)
Definition copied (st : state C) (src : loc) (a : instance C) : state C :=
  {| self := self st; heap := heap st ++ [a]; entropy := entropy st;
     calls := calls st ++ [CallDeepcopy src (length (heap st))]; log := log st |}.

(** The state after [self._user_fit_dic[u] = v]. *)
Definition with_entry (st : state C) (u : string) (v : option loc) : state C :=
  {| self := {| algorithm := algorithm (self st); train_set := train_set (self st);
                items_directory := items_directory (self st);
                users_directory := users_directory (self st);
                _user_fit_dic := <[u := v]> (_user_fit_dic (self st));
                _yaml_report := _yaml_report (self st) |};
     heap := heap st; entropy := entropy st; calls := calls st; log := log st |}.

Definition fit_skip_warning (msg u : string) : log_record :=
  LogWarning (msg +:+ "
No algorithm will be fitted for the user " +:+ u).

Definition loop_skip_warning (msg u : string) : log_record :=
  LogWarning (msg +:+ "
The algorithm can't be fitted for the user " +:+ u).

(** What [fit] loads before its loop, given the base object [b]. *)
Definition loaded_for_fit (st : state C) (b : instance C) : contents C :=
  _load_available_contents C b (items_directory (self st))
    (list_to_set (item_id_column (train_set (self st)))).

(** The attempt to fit user [u] on a copy of [b] with randomness [e]: the
    copy afterwards and what was raised. *)
Definition attempt (st : state C) (b : instance C) (loaded : contents C)
    (u : string) (e : nat) : instance C * option exn :=
  fit_outcome C b (train_of st u) loaded e.

(** From [st] to [st'] the recommender is the same but for its registry
    and report, objects were only added, and the records of calls and
    the log only grew. *)
Definition extends (st st' : state C) : Prop :=
  algorithm (self st') = algorithm (self st) ∧
  train_set (self st') = train_set (self st) ∧
  items_directory (self st') = items_directory (self st) ∧
  (∃ added, heap st' = heap st ++ added) ∧
  entropy st ≤ entropy st' ∧
  (∃ cs, calls st' = calls st ++ cs) ∧
  (∃ w, log st' = log st ++ w).

(** The registry entry of train user [u] after a run of [fit] that started
    in [st] with base object [b] and ended in [st'], as decided by the
    attempt with randomness [e]. *)
Definition entry_of_attempt (st st' : state C) (b : instance C) (loaded : contents C)
    (u : string) (e : nat) : Prop :=
  match kind_of (attempt st b loaded u e).2 with
  | Skipped => registry st' !! u = Some None
  | _ => ∃ l, registry st' !! u = Some (Some l) ∧ length (heap st) ≤ l ∧
              heap st' !! l = Some (attempt st b loaded u e).1
  end.

(** The calls made from [st] to [st'] keep the fit paths of the users
    apart: [process_rated] and [fit] are only called on objects that did not
    exist in [st] and were made by a [deepcopy] of the base algorithm, and no
    object is used for two users. *)
Definition is_fit_call (u : string) (l : loc) (c : call) : Prop :=
  c = CallProcessRated u l ∨ c = CallFit u l.

Definition fit_paths_isolated (st st' : state C) : Prop :=
  ∃ cs, calls st' = calls st ++ cs ∧
    (∀ u l c, c ∈ cs → is_fit_call u l c →
       length (heap st) ≤ l ∧ CallDeepcopy (algorithm (self st)) l ∈ cs) ∧
    (∀ u1 u2 l c1 c2, c1 ∈ cs → c2 ∈ cs →
       is_fit_call u1 l c1 → is_fit_call u2 l c2 → u1 = u2).

(** The calls made from [st] to [st'] all go to the base algorithm itself:
    [process_rated] and [fit] are called on it for every user, and no copy is
    made. *)
Definition fit_paths_shared (st st' : state C) : Prop :=
  length (heap st') = length (heap st) ∧
  ∃ cs, calls st' = calls st ++ cs ∧
    ∀ c, c ∈ cs → ∃ u, is_fit_call u (algorithm (self st)) c.

(** One step of a loop that fits a user on a copy made for it. *)
Definition copy_step (st st1 : state C) (u : string) : Prop :=
  algorithm (self st1) = algorithm (self st) ∧
  (∃ a, heap st1 = heap st ++ [a]) ∧
  ∃ cs, calls st1 = calls st ++ CallDeepcopy (algorithm (self st)) (length (heap st)) :: cs ∧
        ∀ c, c ∈ cs → is_fit_call u (length (heap st)) c.

(** [fit_paths_isolated], with the bounds that carry it through a loop. *)
Definition isolated_run (st st' : state C) : Prop :=
  algorithm (self st') = algorithm (self st) ∧
  (∃ added, heap st' = heap st ++ added) ∧
  ∃ cs, calls st' = calls st ++ cs ∧
    (∀ u l c, c ∈ cs → is_fit_call u l c →
       length (heap st) ≤ l < length (heap st') ∧
       CallDeepcopy (algorithm (self st)) l ∈ cs) ∧
    (∀ u1 u2 l c1 c2, c1 ∈ cs → c2 ∈ cs →
       is_fit_call u1 l c1 → is_fit_call u2 l c2 → u1 = u2).

(** One step of a loop that fits every user on the base algorithm. *)
Definition shared_step (st st1 : state C) : Prop :=
  algorithm (self st1) = algorithm (self st) ∧
  length (heap st1) = length (heap st) ∧
  ∃ cs, calls st1 = calls st ++ cs ∧
        ∀ c, c ∈ cs → ∃ u, is_fit_call u (algorithm (self st)) c.

End ContentBased.

(** *** Evaluation *)

Import MetricEvaluator.

(** What [eval_metrics] makes of a split it evaluates: with predictions and
    truth both present, the truth keeps the rows of users with predictions. *)
Definition filtered (sp : Split) : Split :=
  if negb (is_empty (pred sp)) && negb (is_empty (truth sp)) then
    {| pred := pred sp; truth := query_from_id_in (from_id <$> pred sp) (truth sp) |}
  else sp.

(** The store [s'] is the store [s] with the splits of [ls] evaluated. *)
Definition touched (s s' : list Split) (ls : list nat) : Prop :=
  ∀ l, s' !! l = if decide (l ∈ ls) then filtered <$> s !! l else s !! l.

End Vocabulary.

(** ** Further vocabulary *)

Module MoreVocabulary.

Import ContentBasedRS Vocabulary.

Section ContentBased.
Context {C : ContentBasedAlgorithm}.

(** The records that the call [user_fitted_alg.predict(...)] made for
    identifier [v] returns are records of that user. *)
Definition predict_call_tags_user (st : state C) (test_set : Ratings)
    (methodology : option Methodology) (v : pyval) : Prop :=
  ∀ base alg a records,
    heap st !! algorithm (self st) = Some base →
    dict_get (registry st) (str v) = Some alg →
    heap st !! alg = Some a →
    Algorithm.predict C a (get_user_interactions (train_set (self st)) (str v))
      (loaded_for st base)
      (candidate_set methodology (str v) (train_set (self st)) test_set) = Some records →
    ∀ i, i ∈ records → user_id i = str v.

(** What [predict] obtains for identifier [v]: nothing without a model, else
    the records its model returns. *)
Definition predicted_for (st : state C) (test_set : Ratings)
    (methodology : option Methodology) (base : instance C) (v : pyval) :
    result (list Interaction) :=
  (user_part st NotPredictionAlg
     (predict_call st test_set methodology (loaded_for st base)) v).1.

(** Everything of a state that is not the log and not the report. *)
Definition same_but_log_and_report (st st' : state C) : Prop :=
  algorithm (self st') = algorithm (self st) ∧
  train_set (self st') = train_set (self st) ∧
  items_directory (self st') = items_directory (self st) ∧
  users_directory (self st') = users_directory (self st) ∧
  registry st' = registry st ∧
  heap st' = heap st ∧
  entropy st' = entropy st ∧
  calls st' = calls st ∧
  ∃ w, log st' = log st ++ w.

(** What a run without [save_fit] keeps: the recommender's registry, the
    number of objects, and every object but the base algorithm. *)
Definition unsaved_run (st st' : state C) : Prop :=
  algorithm (self st') = algorithm (self st) ∧
  registry st' = registry st ∧
  length (heap st') = length (heap st) ∧
  ∀ l, l ≠ algorithm (self st) → heap st' !! l = heap st !! l.

(** From [st] to [st'] no key left the registry, and the keys outside [us]
    hold what they held. *)
Definition writes_only (us : list string) (st st' : state C) : Prop :=
  dom (registry st) ⊆ dom (registry st') ∧
  ∀ u, u ∉ us → registry st' !! u = registry st !! u.

(** After the run from [st] to [st'] user [u] has an entry, which is [None]
    or an object made during the run. *)
Definition registered_new (st st' : state C) (u : string) : Prop :=
  ∃ o, registry st' !! u = Some o ∧
       ∀ l, o = Some l → length (heap st) ≤ l < length (heap st').

(** The recommender of the state has a live base algorithm object. *)
Definition live (st : state C) : Prop := is_Some (heap st !! algorithm (self st)).

End ContentBased.

(** *** Evaluation *)

Import MetricEvaluator.

(** The store [s'] is the store [s] in which some of the splits of [ls]
    were evaluated, and nothing else happened. *)
Definition touched_some (s s' : list Split) (ls : list nat) : Prop :=
  ∀ l, s' !! l = s !! l ∨ (l ∈ ls ∧ s' !! l = filtered <$> s !! l).

(** A split that [eval_metrics] passes over: it lacks predictions or truth. *)
Definition nothing_to_evaluate (st : state) (l : nat) : Prop :=
  ∃ sp, store st !! l = Some sp ∧ (pred sp = [] ∨ truth sp = []).

(** *** The [Split] container *)

Section SplitWrites.
Context {V : Type}.
Import SplitObject.

(** The names of the two slots. *)
Definition first_names : list string := ["train"; "pred"; "first"].
Definition second_names : list string := ["test"; "truth"; "second"].

(** A sequence of assignments [sp.name = value]. *)
Definition assign (sp : Split V) (ops : list (string * V)) : Split V :=
  foldl (λ sp op, __setattr__ sp op.1 op.2) sp ops.

(** The value of the last assignment under one of [names], [d] if there
    is none. *)
Definition last_write (names : list string) (ops : list (string * V)) (d : V) : V :=
  foldl (λ acc op, if decide (op.1 ∈ names) then op.2 else acc) d ops.

End SplitWrites.

(** *** [item_field] *)

Import OrangeContentBased.

(** The representations that a value of [item_field] stands for. *)
Definition ids (v : representations) : list string :=
  match v with
  | Str s => [s]
  | Reps l => l
  end.

(** The dict with every value in brackets: same keys, same order. *)
Definition bracket_all (d : list (string * representations)) :
    list (string * representations) :=
  (λ kv, (kv.1, Reps (ids kv.2))) <$> d.

End MoreVocabulary.

Import Vocabulary.

(** * Properties *)

(** ** Set iteration *)

Section SetIteration.
Context {X : Type} `{EqDecision X}.

Lemma pyset_from_elem (seen l : list X) (x : X) :
  x ∈ pyset_from seen l ↔ x ∈ l ∧ x ∉ seen.
Proof.
  revert seen. induction l as [|y l IH]; intros seen; simpl.
  - set_solver.
  - case_bool_decide as Hy.
    + rewrite IH. set_solver.
    + rewrite elem_of_cons, IH. 
      destruct (decide (x = y)) as [->|Hne]; set_solver.
Qed.

Lemma pyset_from_NoDup (seen l : list X) : NoDup (pyset_from seen l).
Proof.
  revert seen. induction l as [|y l IH]; intros seen; simpl.
  - constructor.
  - case_bool_decide; [apply IH|].
    constructor; [|apply IH].
    rewrite pyset_from_elem. set_solver.
Qed.

Lemma pyset_set_order : set_order (pyset (X:=X)).
Proof.
  intros l. split; [apply pyset_from_NoDup|].
  intros x. unfold pyset. rewrite pyset_from_elem. set_solver.
Qed.

End SetIteration.


Lemma str_as_str (v : pyval) : str (as_str v) = str v.
Proof. done. Qed.

Lemma Forall2_impl_elem {A B} (P Q : A → B → Prop) (l : list A) (k : list B) :
  Forall2 P l k → (∀ x y, x ∈ l → P x y → Q x y) → Forall2 Q l k.
Proof.
  induction 1 as [|x y l k Hxy _ IH]; intros Himpl; constructor.
  - apply Himpl; [left|done].
  - apply IH. intros x' y' Hx'. apply Himpl. by right.
Qed.

(** ** Loops *)

Lemma bind_assoc {S R1 R2 R3} (m : M S R1) (k : R1 → M S R2) (k' : R2 → M S R3) (s : S) :
  bind m (λ x, bind (k x) k') s = bind (bind m k) k' s.
Proof. unfold bind. by destruct (m s) as [[r|e] s']. Qed.

Section Loops.
Context {S X B : Type}.

Lemma for_loop_app (body : B → X → M S B) (xs ys : list X) (acc : B) (s : S) :
  for_loop body (xs ++ ys) acc s =
  match for_loop body xs acc s with
  | (Ok acc', s') => for_loop body ys acc' s'
  | (Raise e, s') => (Raise e, s')
  end.
Proof.
  revert acc s. induction xs as [|x xs IH]; intros acc s; simpl; [done|].
  unfold bind. destruct (body acc x s) as [[acc'|e] s']; [apply IH|done].
Qed.


End Loops.

(** ** States *)

Section StateFacts.
Context {C : ContentBasedAlgorithm}.
Import ContentBasedRS.

Lemma with_log_nil (st : state C) : with_log st [] = st.
Proof. destruct st. unfold with_log; simpl. by rewrite app_nil_r. Qed.

Lemma with_log_app (st : state C) w1 w2 :
  with_log (with_log st w1) w2 = with_log st (w1 ++ w2).
Proof. unfold with_log; simpl. by rewrite app_assoc. Qed.

End StateFacts.



(** ** ContentBasedRS: [rank] and [predict] *)

Section ContentBasedFacts.
Context (C : ContentBasedAlgorithm).
Import ContentBasedRS.

Implicit Types (st : state C) (v : pyval) (acc : list Interaction).

(** *** One step of the loops of [rank] and [predict] *)

Lemma rank_user_eq test n m loaded acc v st :
  rank_user C test n m loaded acc v st =
  match dict_get (registry st) (str v) with
  | Some alg =>
      match heap st !! alg with
      | Some a =>
          match Algorithm.rank C a (get_user_interactions (train_set (self st)) (str v))
                  loaded n (candidate_set m (str v) (train_set (self st)) test) with
          | Some records => (Ok (acc ++ records), st)
          | None => (Raise NotRankingAlg, st)
          end
      | None => (Raise DanglingReference, st)
      end
  | None => (Ok acc, add_log C (skip_warning v) st)
  end.
Proof.
  unfold rank_user, candidate_filter, call_rank, deref, warning, registry,
    bind, gets, modify, ret, raise; simpl.
  destruct (dict_get _ _) as [alg|]; [|by rewrite app_nil_r].
  destruct (heap st !! alg) as [a|]; [|done].
  by destruct (Algorithm.rank _ _ _ _ _ _).
Qed.

Lemma predict_user_eq test m loaded acc v st :
  predict_user C test m loaded acc v st =
  match dict_get (registry st) (str v) with
  | Some alg =>
      match heap st !! alg with
      | Some a =>
          match Algorithm.predict C a (get_user_interactions (train_set (self st)) (str v))
                  loaded (candidate_set m (str v) (train_set (self st)) test) with
          | Some records => (Ok (acc ++ records), st)
          | None => (Raise NotPredictionAlg, st)
          end
      | None => (Raise DanglingReference, st)
      end
  | None => (Ok acc, add_log C (skip_warning v) st)
  end.
Proof.
  unfold predict_user, candidate_filter, call_predict, deref, warning, registry,
    bind, gets, modify, ret, raise; simpl.
  destruct (dict_get _ _) as [alg|]; [|by rewrite app_nil_r].
  destruct (heap st !! alg) as [a|]; [|done].
  by destruct (Algorithm.predict _ _ _ _ _).
Qed.

(** The loop of [rank] gathers the parts of the users in turn and changes
    nothing but the log. *)
Lemma rank_loop_eq test n m loaded us acc st :
  for_loop (rank_user C test n m loaded) us acc st =
  let '(r, w) := gather (user_part st NotRankingAlg (rank_call st test n m loaded)) us acc in
  (r, with_log st w).
Proof.
  revert acc st. induction us as [|v us IH]; intros acc st; simpl.
  - by rewrite with_log_nil.
  - unfold bind. rewrite rank_user_eq. unfold user_part at 1, rank_call at 1.
    destruct (dict_get _ _) as [alg|].
    + destruct (heap st !! alg) as [a|]; [|by rewrite with_log_nil].
      destruct (Algorithm.rank _ _ _ _ _ _) as [records|]; [|by rewrite with_log_nil].
      rewrite IH. by destruct (gather _ _ _).
    + rewrite IH. change (add_log C (skip_warning v) st) with (with_log st [skip_warning v]).
      rewrite app_nil_r.
      change (user_part (with_log st [skip_warning v]) NotRankingAlg
                (rank_call (with_log st [skip_warning v]) test n m loaded))
        with (user_part st NotRankingAlg (rank_call st test n m loaded)).
      destruct (gather _ _ _). by rewrite with_log_app.
Qed.

Lemma predict_loop_eq test m loaded us acc st :
  for_loop (predict_user C test m loaded) us acc st =
  let '(r, w) := gather (user_part st NotPredictionAlg (predict_call st test m loaded)) us acc in
  (r, with_log st w).
Proof.
  revert acc st. induction us as [|v us IH]; intros acc st; simpl.
  - by rewrite with_log_nil.
  - unfold bind. rewrite predict_user_eq. unfold user_part at 1, predict_call at 1.
    destruct (dict_get _ _) as [alg|].
    + destruct (heap st !! alg) as [a|]; [|by rewrite with_log_nil].
      destruct (Algorithm.predict _ _ _ _ _) as [records|]; [|by rewrite with_log_nil].
      rewrite IH. by destruct (gather _ _ _).
    + rewrite IH. change (add_log C (skip_warning v) st) with (with_log st [skip_warning v]).
      rewrite app_nil_r.
      change (user_part (with_log st [skip_warning v]) NotPredictionAlg
                (predict_call (with_log st [skip_warning v]) test m loaded))
        with (user_part st NotPredictionAlg (predict_call st test m loaded)).
      destruct (gather _ _ _). by rewrite with_log_app.
Qed.

(** [rank] and [predict] as a whole. *)
Lemma rank_eq order test n uil m st :
  rank C order test n uil m st =
  if decide (registry st = ∅) then (Raise (NotFittedAlg not_fitted_msg), st)
  else match heap st !! algorithm (self st) with
       | None => (Raise DanglingReference, st)
       | Some base =>
           match gather (user_part st NotRankingAlg
                           (rank_call st test n m (loaded_for st base)))
                   (order (all_users test uil)) [] with
           | (Ok records, w) =>
               (Ok (from_list records),
                with_report (with_log st (loop_infos ++ w))
                  [("mode", "rank"); ("n_recs", repr_opt_int n);
                   ("methodology", repr_opt m)])
           | (Raise e, w) => (Raise e, with_log st (loop_infos ++ w))
           end
       end.
Proof.
  unfold rank. unfold bind at 1. unfold gets at 1.
  destruct (decide (size (_user_fit_dic (self st)) = 0)) as [Hz|Hnz].
  - apply map_size_empty_iff in Hz. by rewrite decide_True.
  - rewrite decide_False by (intros He; by apply Hnz, map_size_empty_iff).
    unfold load_contents, deref, bind at 1 2 3, gets at 1; simpl.
    destruct (heap st !! algorithm (self st)) as [base|]; [|done]. simpl.
    unfold bind at 1 2 3, info, modify, ret at 1; simpl.
    rewrite rank_loop_eq. simpl.
    change (user_part _ NotRankingAlg _)
      with (user_part st NotRankingAlg (rank_call st test n m (loaded_for st base))).
    destruct (gather _ _ _) as [[records|e] w]; simpl.
    + unfold bind, set_yaml_report, modify, ret, with_report, with_log; simpl.
      by rewrite <-!app_assoc.
    + unfold with_log; simpl. by rewrite <-!app_assoc.
Qed.

Lemma predict_eq order test uil m st :
  predict C order test uil m st =
  if decide (registry st = ∅) then (Raise (NotFittedAlg not_fitted_msg), st)
  else match heap st !! algorithm (self st) with
       | None => (Raise DanglingReference, st)
       | Some base =>
           match gather (user_part st NotPredictionAlg
                           (predict_call st test m (loaded_for st base)))
                   (order (all_users test uil)) [] with
           | (Ok records, w) =>
               (Ok (from_list records),
                with_report (with_log st (loop_infos ++ w))
                  [("mode", "score_prediction"); ("methodology", repr_opt m)])
           | (Raise e, w) => (Raise e, with_log st (loop_infos ++ w))
           end
       end.
Proof.
  unfold predict. unfold bind at 1. unfold gets at 1.
  destruct (decide (size (_user_fit_dic (self st)) = 0)) as [Hz|Hnz].
  - apply map_size_empty_iff in Hz. by rewrite decide_True.
  - rewrite decide_False by (intros He; by apply Hnz, map_size_empty_iff).
    unfold load_contents, deref, bind at 1 2 3, gets at 1; simpl.
    destruct (heap st !! algorithm (self st)) as [base|]; [|done]. simpl.
    unfold bind at 1 2 3, info, modify, ret at 1; simpl.
    rewrite predict_loop_eq. simpl.
    change (user_part _ NotPredictionAlg _)
      with (user_part st NotPredictionAlg (predict_call st test m (loaded_for st base))).
    destruct (gather _ _ _) as [[records|e] w]; simpl.
    + unfold bind, set_yaml_report, modify, ret, with_report, with_log; simpl.
      by rewrite <-!app_assoc.
    + unfold with_log; simpl. by rewrite <-!app_assoc.
Qed.

(** *** What the gathering loop can and cannot do *)

Lemma user_part_raise st missing call v e w :
  user_part st missing call v = (Raise e, w) →
  e = missing ∨ e = DanglingReference.
Proof.
  unfold user_part. intros H.
  destruct (dict_get _ _); [|done].
  destruct (heap st !! _); [|naive_solver].
  destruct (call _ _); naive_solver.
Qed.

Lemma gather_raise st missing call us acc e w :
  gather (user_part st missing call) us acc = (Raise e, w) →
  e = missing ∨ e = DanglingReference.
Proof.
  revert acc w. induction us as [|v us IH]; intros acc w; simpl; [done|].
  destruct (user_part st missing call v) as [[records|e'] w'] eqn:Hp.
  - destruct (gather _ us _) as [r w''] eqn:Hg. intros [= -> <-]. by eapply IH.
  - intros [= -> <-]. by eapply user_part_raise.
Qed.


(** The gathered records are the parts of the users, in order. *)
Lemma gather_parts part us acc records w :
  gather part us acc = (Ok records, w) →
  ∃ parts, Forall2 (λ v p, ∃ w', part v = (Ok p, w')) us parts ∧
           records = acc ++ concat parts.
Proof.
  revert acc w. induction us as [|v us IH]; intros acc w; simpl.
  - intros [= <- <-]. exists []. split; [constructor|]. by rewrite app_nil_r.
  - destruct (part v) as [[p|e] w'] eqn:Hp; [|done].
    destruct (gather part us (acc ++ p)) as [r w''] eqn:Hg. intros [= -> <-].
    destruct (IH _ _ Hg) as (parts & Hparts & ->).
    exists (p :: parts). split; [constructor; eauto|].
    simpl. by rewrite app_assoc.
Qed.



(** C3: [predict] and [rank] raise [NotFittedAlg] exactly when the registry
    is empty at the call; they do so before anything else happens (the state
    is the one of the call: no record, no log entry), and with a registry
    that is not empty they never raise it. *)
Theorem not_fitted_iff_registry_empty order test n uil m st :
  ((∃ msg, (rank C order test n uil m st).1 = Raise (NotFittedAlg msg))
     ↔ registry st = ∅) ∧
  ((∃ msg, (predict C order test uil m st).1 = Raise (NotFittedAlg msg))
     ↔ registry st = ∅) ∧
  (registry st = ∅ →
     rank C order test n uil m st = (Raise (NotFittedAlg not_fitted_msg), st) ∧
     predict C order test uil m st = (Raise (NotFittedAlg not_fitted_msg), st)).
Proof.
  rewrite rank_eq, predict_eq.
  destruct (decide (registry st = ∅)) as [He|Hne].
  - repeat split; eauto.
  - split_and!; [split|split|done]; try done.
    + intros [msg Hr]. destruct (heap st !! _) as [base|]; [|done].
      destruct (gather _ _ _) as [[records|e] w] eqn:Hg; [done|].
      apply gather_raise in Hg. simpl in Hr. naive_solver.
    + intros [msg Hr]. destruct (heap st !! _) as [base|]; [|done].
      destruct (gather _ _ _) as [[records|e] w] eqn:Hg; [done|].
      apply gather_raise in Hg. simpl in Hr. naive_solver.
Qed.



(** *** The sub-sequence of one user in a rank *)


Lemma user_records_app (r1 r2 : Ratings) u :
  user_records (r1 ++ r2) u = user_records r1 u ++ user_records r2 u.
Proof. apply filter_app. Qed.

Lemma user_records_own (p : list Interaction) u :
  (∀ i, i ∈ p → user_id i = u) → user_records p u = p.
Proof.
  intros Hp. unfold user_records, get_user_interactions.
  induction p as [|i p IH]; [done|].
  rewrite filter_cons, decide_True by (apply Hp; left).
  f_equal. apply IH. intros j Hj. apply Hp. by right.
Qed.

Lemma user_records_foreign (p : list Interaction) u u' :
  u ≠ u' → (∀ i, i ∈ p → user_id i = u') → user_records p u = [].
Proof.
  intros Hne Hp. unfold user_records, get_user_interactions.
  induction p as [|i p IH]; [done|].
  rewrite filter_cons, decide_False.
  - apply IH. intros j Hj. apply Hp. by right.
  - rewrite (Hp i) by left. done.
Qed.

Lemma user_records_concat_foreign (us : list pyval) (parts : list (list Interaction)) u :
  Forall2 (λ v p, ∀ i, i ∈ p → user_id i = str v) us parts →
  u ∉ str <$> us →
  user_records (concat parts) u = [].
Proof.
  induction 1 as [|v p us parts Hp _ IH]; intros Hu; [done|].
  simpl. rewrite user_records_app, IH by set_solver.
  rewrite (user_records_foreign p u (str v)); [done| |done].
  intros ->. apply Hu. left.
Qed.



End ContentBasedFacts.

(** ** ContentBasedRS: fitting *)

Section FitFacts.
Context (C : ContentBasedAlgorithm).
Import ContentBasedRS.

Implicit Types (st : state C) (v : pyval) (acc : list Interaction) (u : string).

Lemma deepcopy_eq src st a :
  heap st !! src = Some a →
  deepcopy C src st = (Ok (length (heap st)), copied st src a).
Proof.
  intros Ha. unfold deepcopy, deref, bind, gets, modify, ret. by rewrite Ha.
Qed.

Lemma mutating_call_eq target method st a :
  heap st !! target = Some a →
  mutating_call C target method st =
  (match (method a (entropy st)).2 with Some ex => Raise ex | None => Ok tt end,
   {| self := self st; heap := <[target := (method a (entropy st)).1]> (heap st);
      entropy := S (entropy st); calls := calls st; log := log st |}).
Proof.
  intros Ha. unfold mutating_call, deref, bind, gets, modify, ret, raise.
  rewrite Ha; simpl. by destruct (method a (entropy st)) as [a' [ex|]].
Qed.

(** [process_rated] then [fit] on one object. *)
Lemma fit_calls_eq u target loaded st a :
  heap st !! target = Some a →
  (call_process_rated C u target (train_of st u) loaded ;; call_fit C u target)%exec st =
  (match (fit_outcome C a (train_of st u) loaded (entropy st)).2 with
   | Some ex => Raise ex
   | None => Ok tt
   end, fit_calls_state st u target a loaded).
Proof.
  intros Ha. unfold call_process_rated, call_fit, fit_calls_state, process_ok, fit_outcome.
  unfold bind at 1 2. unfold modify at 1.
  rewrite (mutating_call_eq _ _ _ a) by done. simpl.
  destruct (process_rated C a (train_of st u) loaded (entropy st)) as [a1 [ex|]]; simpl; [done|].
  unfold bind, modify. erewrite mutating_call_eq; simpl.
  2:{ apply list_lookup_insert_eq. by eapply lookup_lt_Some. }
  rewrite list_insert_insert_eq, <-app_assoc. done.
Qed.

(** One step of the loop of [fit]. *)
Lemma fit_user_eq loaded u st b :
  heap st !! algorithm (self st) = Some b →
  fit_user C loaded tt u st =
  let l := length (heap st) in
  let st1 := fit_calls_state (copied st (algorithm (self st)) b) u l b loaded in
  match (attempt st b loaded u (entropy st)).2 with
  | None => (Ok tt, with_entry st1 u (Some l))
  | Some (UserSkipAlgFit msg) =>
      (Ok tt, with_entry (with_log st1 [fit_skip_warning msg u]) u None)
  | Some e => (Raise e, st1)
  end.
Proof.
  intros Hb. unfold fit_user, try_except.
  unfold bind at 1. unfold gets at 1.
  unfold bind at 1. unfold gets at 1.
  unfold bind at 1. rewrite (deepcopy_eq _ _ b) by done.
  rewrite bind_assoc. unfold bind at 1.
  change (get_user_interactions (train_set (self st)) u)
    with (train_of (copied st (algorithm (self st)) b) u).
  rewrite (fit_calls_eq _ _ _ _ b) by (simpl; by apply list_lookup_middle).
  unfold attempt. simpl entropy.
  change (train_of (copied st (algorithm (self st)) b) u) with (train_of st u).
  destruct (fit_outcome C b (train_of st u) loaded (entropy st)) as [a' [ex|]]; simpl.
  - by destruct ex.
  - done.
Qed.

Lemma fit_calls_copied_heap st src u b loaded :
  heap (fit_calls_state (copied st src b) u (length (heap st)) b loaded) =
  heap st ++ [(attempt st b loaded u (entropy st)).1].
Proof.
  simpl. rewrite insert_app_r_alt by done. by rewrite Nat.sub_diag.
Qed.

(** What one step of [fit] does to the state. *)
Lemma fit_user_step loaded u st b :
  heap st !! algorithm (self st) = Some b →
  ∃ r st1, fit_user C loaded tt u st = (r, st1) ∧
    algorithm (self st1) = algorithm (self st) ∧
    train_set (self st1) = train_set (self st) ∧
    items_directory (self st1) = items_directory (self st) ∧
    heap st1 = heap st ++ [(attempt st b loaded u (entropy st)).1] ∧
    entropy st < entropy st1 ∧
    (∃ w, log st1 = log st ++ w) ∧
    calls st1 = calls st ++ CallDeepcopy (algorithm (self st)) (length (heap st))
                  :: CallProcessRated u (length (heap st))
                  :: (if process_ok b (train_of st u) loaded (entropy st)
                      then [CallFit u (length (heap st))] else []) ∧
    match kind_of (attempt st b loaded u (entropy st)).2 with
    | Fitted => r = Ok tt ∧ registry st1 = <[u := Some (length (heap st))]> (registry st)
    | Skipped => r = Ok tt ∧ registry st1 = <[u := None]> (registry st)
    | Failed => (∃ e, r = Raise e) ∧ registry st1 = registry st
    end.
Proof.
  intros Hb. rewrite (fit_user_eq _ _ _ b) by done. cbv zeta.
  pose proof (fit_calls_copied_heap st (algorithm (self st)) u b loaded) as Hheap.
  set (st1 := fit_calls_state _ _ _ _ _) in *.
  assert (entropy st < entropy st1) as Hent.
  { subst st1; simpl. case_match; lia. }
  assert (calls st1 = calls st ++ CallDeepcopy (algorithm (self st)) (length (heap st))
                  :: CallProcessRated u (length (heap st))
                  :: (if process_ok b (train_of st u) loaded (entropy st)
                      then [CallFit u (length (heap st))] else [])) as Hcalls.
  { subst st1; simpl. by rewrite <-app_assoc. }
  destruct ((attempt st b loaded u (entropy st)).2) as [ex|] eqn:Hout.
  - destruct ex; simpl;
      try (eexists _, _; split; [done|]; split_and!; try done;
           [by exists []; rewrite app_nil_r | by eauto]).
    eexists _, _; split; [done|]. split_and!; try done. by eexists.
  - eexists _, _; split; [done|]. split_and!; try done.
    by exists []; rewrite app_nil_r.
Qed.

Lemma attempt_same_train st st1 b loaded u e :
  train_set (self st1) = train_set (self st) →
  attempt st1 b loaded u e = attempt st b loaded u e.
Proof. intros Ht. unfold attempt, train_of. by rewrite Ht. Qed.

Lemma extends_refl st : extends st st.
Proof.
  split_and!; try done; try by exists []; rewrite app_nil_r.
Qed.

Lemma extends_trans st1 st2 st3 : extends st1 st2 → extends st2 st3 → extends st1 st3.
Proof.
  intros (? & ? & ? & [a1 ?] & ? & [c1 ?] & [w1 ?]) (? & ? & ? & [a2 ?] & ? & [c2 ?] & [w2 ?]).
  split_and!; try congruence; try lia.
  - exists (a1 ++ a2). rewrite app_assoc. congruence.
  - exists (c1 ++ c2). rewrite app_assoc. congruence.
  - exists (w1 ++ w2). rewrite app_assoc. congruence.
Qed.

(** The loop of [fit], when no attempt fails with anything but a skip. *)
Lemma fit_loop_spec loaded b us : ∀ st,
  heap st !! algorithm (self st) = Some b →
  (∀ u e, u ∈ us → kind_of (attempt st b loaded u e).2 ≠ Failed) →
  ∃ st', for_loop (fit_user C loaded) us tt st = (Ok tt, st') ∧ extends st st' ∧
    (∀ u, u ∈ us → ∃ e, entropy st ≤ e < entropy st' ∧
                        entry_of_attempt st st' b loaded u e) ∧
    (∀ u, u ∉ us → registry st' !! u = registry st !! u) ∧
    dom (registry st') = dom (registry st) ∪ list_to_set us.
Proof.
  induction us as [|u us IH]; intros st Hb Hok.
  - exists st. split_and!; [done|apply extends_refl|by intros ? ?%elem_of_nil|done|].
    simpl. set_solver.
  - destruct (fit_user_step loaded u st b Hb)
      as (r & st1 & Hrun & Halg & Htrain & Hdir & Hheap & Hent & Hlog & Hcalls & Hkind).
    assert (heap st1 !! algorithm (self st1) = Some b) as Hb1.
    { rewrite Hheap, Halg. by apply lookup_app_l_Some. }
    destruct (IH st1 Hb1) as (st' & Hloop & Hext & Hin & Hout & Hdom).
    { intros x e Hx. rewrite (attempt_same_train st st1) by done. apply Hok. by right. }
    assert (r = Ok tt ∧ ∃ o, registry st1 = <[u := o]> (registry st) ∧
            match kind_of (attempt st b loaded u (entropy st)).2 with
            | Skipped => o = None
            | _ => o = Some (length (heap st))
            end) as [-> (o & Hreg & Ho)].
    { specialize (Hok u (entropy st) ltac:(left)).
      destruct (kind_of _); naive_solver. }
    exists st'. split_and!.
    + simpl. unfold bind. by rewrite Hrun.
    + eapply extends_trans; [|exact Hext].
      split_and!; try done; [by eexists|lia|by eexists].
    + intros x Hx. destruct (decide (x ∈ us)) as [Hxus|Hxus].
      * destruct (Hin x Hxus) as (e & He & Hentry). exists e. split; [lia|].
        unfold entry_of_attempt in *. rewrite (attempt_same_train st st1) in Hentry by done.
        revert Hentry. destruct (kind_of (attempt st b loaded x e).2); intros Hentry; [|done|].
        all: destruct Hentry as (l & ? & Hl & ?); exists l; split_and!; try done.
        all: rewrite Hheap, length_app in Hl; lia.
      * apply elem_of_cons in Hx as [->|?]; [|done].
        exists (entropy st). destruct Hext as (_ & _ & _ & [added Hadded] & ? & _).
        split; [lia|]. unfold entry_of_attempt.
        rewrite (Hout u Hxus), Hreg, lookup_insert_eq.
        revert Ho. destruct (kind_of (attempt st b loaded u (entropy st)).2); intros ->; [|done|].
        all: eexists; split_and!; [done|done|].
        all: rewrite Hadded, Hheap, <-app_assoc; by apply list_lookup_middle.
    + intros x Hx. apply not_elem_of_cons in Hx as [Hne Hx].
      rewrite (Hout x Hx), Hreg. by rewrite lookup_insert_ne.
    + rewrite Hdom. unfold registry in *. rewrite Hreg, dom_insert_L. set_solver.
Qed.

(** [fit] as a whole: load, then loop over the users of the train set. *)
Lemma fit_eq order st :
  fit C order st =
  match heap st !! algorithm (self st) with
  | None => (Raise DanglingReference, st)
  | Some b =>
      for_loop (fit_user C (loaded_for_fit st b))
        (order (user_id_column (train_set (self st)))) tt st
  end.
Proof.
  unfold fit, load_contents, deref, bind, gets, ret.
  by destruct (heap st !! algorithm (self st)).
Qed.

Lemma fit_run_spec order st b :
  heap st !! algorithm (self st) = Some b →
  set_iteration (user_id_column (train_set (self st)))
    (order (user_id_column (train_set (self st)))) →
  (∀ u e, u ∈ user_id_column (train_set (self st)) →
          kind_of (attempt st b (loaded_for_fit st b) u e).2 ≠ Failed) →
  ∃ st', fit C order st = (Ok tt, st') ∧ extends st st' ∧
    (∀ u, u ∈ user_id_column (train_set (self st)) →
          ∃ e, entropy st ≤ e < entropy st' ∧
               entry_of_attempt st st' b (loaded_for_fit st b) u e) ∧
    (∀ u, u ∉ user_id_column (train_set (self st)) →
          registry st' !! u = registry st !! u) ∧
    dom (registry st') =
      dom (registry st) ∪ list_to_set (user_id_column (train_set (self st))).
Proof.
  intros Hb [_ Hel] Hok. rewrite fit_eq, Hb.
  destruct (fit_loop_spec (loaded_for_fit st b) b
              (order (user_id_column (train_set (self st)))) st Hb)
    as (st' & Hrun & Hext & Hin & Hout & Hdom).
  { intros u e Hu. apply Hok. by apply Hel. }
  exists st'. split_and!; [done|done|..].
  - intros u Hu. apply Hin. by apply Hel.
  - intros u Hu. apply Hout. by rewrite Hel.
  - rewrite Hdom. f_equal. apply set_eq. intros u.
    by rewrite !elem_of_list_to_set, Hel.
Qed.

(** C2: when every fit attempt either succeeds or raises [UserSkipAlgFit],
    [fit] returns without raising; afterwards the registry has an entry for
    every user of the train set, [None] for a user whose attempt raised
    [UserSkipAlgFit] and otherwise a reference to a new object that holds
    the fitted copy; the entries of other keys are as before, so that a
    registry that was empty has exactly the users of the train set as keys. *)
Theorem fit_skips_do_not_abort order st b :
  heap st !! algorithm (self st) = Some b →
  set_iteration (user_id_column (train_set (self st)))
    (order (user_id_column (train_set (self st)))) →
  (∀ u e, u ∈ user_id_column (train_set (self st)) →
          kind_of (attempt st b (loaded_for_fit st b) u e).2 ≠ Failed) →
  ∃ st', fit C order st = (Ok tt, st') ∧
    (∀ u, u ∈ user_id_column (train_set (self st)) →
          ∃ e, entropy st ≤ e < entropy st' ∧
               entry_of_attempt st st' b (loaded_for_fit st b) u e) ∧
    (∀ u, u ∉ user_id_column (train_set (self st)) →
          registry st' !! u = registry st !! u) ∧
    (registry st = ∅ →
     dom (registry st') = list_to_set (user_id_column (train_set (self st)))).
Proof.
  intros Hb Hit Hok.
  destruct (fit_run_spec order st b Hb Hit Hok) as (st' & Hrun & _ & Hin & Hout & Hdom).
  exists st'. split_and!; [done|done|done|].
  intros He. rewrite Hdom, He, dom_empty_L. set_solver.
Qed.

(** C7: a second [fit] on the same train set leaves the keys of the
    registry and the set of users mapped to [None] as the first [fit] left
    them, when whether an attempt fits, skips or fails does not depend on
    the randomness drawn (and no attempt fails). *)
Theorem fit_twice_same_membership order1 order2 st b :
  heap st !! algorithm (self st) = Some b →
  set_iteration (user_id_column (train_set (self st)))
    (order1 (user_id_column (train_set (self st)))) →
  set_iteration (user_id_column (train_set (self st)))
    (order2 (user_id_column (train_set (self st)))) →
  (∀ u e, u ∈ user_id_column (train_set (self st)) →
          kind_of (attempt st b (loaded_for_fit st b) u e).2 ≠ Failed) →
  (∀ u e1 e2, u ∈ user_id_column (train_set (self st)) →
          kind_of (attempt st b (loaded_for_fit st b) u e1).2 =
          kind_of (attempt st b (loaded_for_fit st b) u e2).2) →
  ∃ st1 st2, fit C order1 st = (Ok tt, st1) ∧ fit C order2 st1 = (Ok tt, st2) ∧
    dom (registry st2) = dom (registry st1) ∧
    (∀ u, registry st2 !! u = Some None ↔ registry st1 !! u = Some None).
Proof.
  intros Hb Hit1 Hit2 Hok Hdet.
  destruct (fit_run_spec order1 st b Hb Hit1 Hok)
    as (st1 & Hrun1 & Hext & Hin1 & Hout1 & Hdom1).
  destruct Hext as (Halg & Htrain & Hdir & [added Hadded] & _).
  assert (loaded_for_fit st1 b = loaded_for_fit st b) as Hloaded.
  { unfold loaded_for_fit. by rewrite Htrain, Hdir. }
  destruct (fit_run_spec order2 st1 b) as (st2 & Hrun2 & _ & Hin2 & Hout2 & Hdom2).
  { rewrite Hadded, Halg. by apply lookup_app_l_Some. }
  { by rewrite Htrain. }
  { intros u e Hu. rewrite Hloaded, (attempt_same_train st st1) by done.
    apply Hok. by rewrite <-Htrain. }
  rewrite Htrain, Hloaded in *.
  exists st1, st2. split_and!; [done|done|..].
  - rewrite Hdom2, Hdom1. set_solver.
  - intros u. destruct (decide (u ∈ user_id_column (train_set (self st)))) as [Hu|Hu].
    + destruct (Hin1 u Hu) as (e1 & _ & He1). destruct (Hin2 u Hu) as (e2 & _ & He2).
      unfold entry_of_attempt in *.
      rewrite (attempt_same_train st st1) in He2 by done.
      rewrite (Hdet u e2 e1 Hu) in He2.
      destruct (kind_of (attempt st b (loaded_for_fit st b) u e1).2);
        [|by rewrite He1, He2|].
      all: destruct He1 as (l1 & -> & _); destruct He2 as (l2 & -> & _); done.
    + by rewrite (Hout2 u Hu).
Qed.

(** *** Which object the fit calls go to *)

Lemma is_fit_call_inj u1 l1 u2 l2 c :
  is_fit_call u1 l1 c → is_fit_call u2 l2 c → u1 = u2 ∧ l1 = l2.
Proof. intros [->| ->] [?|?]; by simplify_eq. Qed.

Lemma is_fit_call_deepcopy u l src dst : ¬ is_fit_call u l (CallDeepcopy src dst).
Proof. by intros [?|?]. Qed.

Lemma isolated_run_refl st : isolated_run st st.
Proof.
  split_and!; [done|by exists []; rewrite app_nil_r|].
  exists []. rewrite app_nil_r.
  split_and!; [done|..].
  - by intros ??? ?%elem_of_nil.
  - by intros ????? ?%elem_of_nil.
Qed.

(** A step on a fresh copy followed by an isolated run is an isolated run. *)
Lemma isolated_run_step st st1 st' u :
  copy_step st st1 u → isolated_run st1 st' → isolated_run st st'.
Proof.
  intros (Halg1 & [a Hheap1] & cs0 & Hcalls1 & Hcs0)
         (Halg & [added Hheap] & cs1 & Hcalls & Hbound & Huniq).
  rewrite Hheap1, length_app in Hbound. simpl in Hbound.
  rewrite Halg1 in Hbound.
  split_and!; [congruence|exists (a :: added); by rewrite Hheap, Hheap1, <-app_assoc|].
  exists ((CallDeepcopy (algorithm (self st)) (length (heap st)) :: cs0) ++ cs1).
  assert (length (heap st) < length (heap st')) as Hlen.
  { rewrite Hheap, Hheap1, !length_app. simpl. lia. }
  split_and!.
  - rewrite Hcalls, Hcalls1. by rewrite <-!app_assoc.
  - intros x l c Hc Hfit. apply elem_of_app in Hc as [Hc|Hc].
    + apply elem_of_cons in Hc as [->|Hc]; [by apply is_fit_call_deepcopy in Hfit|].
      destruct (is_fit_call_inj _ _ _ _ _ Hfit (Hcs0 c Hc)) as [-> ->].
      split; [lia|]. apply elem_of_app. left. left.
    + destruct (Hbound x l c Hc Hfit) as [? ?]. split; [lia|].
      apply elem_of_app. by right.
  - intros x1 x2 l c1 c2 Hc1 Hc2 Hf1 Hf2.
    apply elem_of_app in Hc1 as [Hc1|Hc1]; apply elem_of_app in Hc2 as [Hc2|Hc2].
    + apply elem_of_cons in Hc1 as [->|Hc1]; [by apply is_fit_call_deepcopy in Hf1|].
      apply elem_of_cons in Hc2 as [->|Hc2]; [by apply is_fit_call_deepcopy in Hf2|].
      destruct (is_fit_call_inj _ _ _ _ _ Hf1 (Hcs0 c1 Hc1)) as [-> _].
      by destruct (is_fit_call_inj _ _ _ _ _ Hf2 (Hcs0 c2 Hc2)) as [-> _].
    + apply elem_of_cons in Hc1 as [->|Hc1]; [by apply is_fit_call_deepcopy in Hf1|].
      destruct (is_fit_call_inj _ _ _ _ _ Hf1 (Hcs0 c1 Hc1)) as [_ ->].
      destruct (Hbound x2 _ c2 Hc2 Hf2) as [? _]. lia.
    + apply elem_of_cons in Hc2 as [->|Hc2]; [by apply is_fit_call_deepcopy in Hf2|].
      destruct (is_fit_call_inj _ _ _ _ _ Hf2 (Hcs0 c2 Hc2)) as [_ ->].
      destruct (Hbound x1 _ c1 Hc1 Hf1) as [? _]. lia.
    + exact (Huniq _ _ _ _ _ Hc1 Hc2 Hf1 Hf2).
Qed.

Lemma copy_step_isolated_run st st1 u : copy_step st st1 u → isolated_run st st1.
Proof. intros Hstep. eapply isolated_run_step; [done|apply isolated_run_refl]. Qed.

(** A loop whose every step fits on a fresh copy. *)
Lemma copy_loop {X B} (body : B → X → M (state C) B) (user : X → string) :
  (∀ k x st, is_Some (heap st !! algorithm (self st)) →
               copy_step st (body k x st).2 (user x)) →
  ∀ xs k st, is_Some (heap st !! algorithm (self st)) →
               isolated_run st (for_loop body xs k st).2.
Proof.
  intros Hbody. induction xs as [|x xs IH]; intros k st Hb; simpl.
  - apply isolated_run_refl.
  - specialize (Hbody k x st Hb). unfold bind.
    destruct (body k x st) as [[k'|e] st1]; simpl in *.
    + eapply isolated_run_step; [done|]. apply IH.
      destruct Hbody as (-> & [a ->] & _). destruct Hb as [b Hb].
      exists b. by apply lookup_app_l_Some.
    + by eapply copy_step_isolated_run.
Qed.

Lemma isolated_run_paths st st' : isolated_run st st' → fit_paths_isolated st st'.
Proof.
  intros (_ & _ & cs & Hcalls & Hbound & Huniq). exists cs. split_and!; [done| |done].
  intros u l c Hc Hfit. destruct (Hbound u l c Hc Hfit). split; [lia|done].
Qed.

(** A loop whose every step fits on the base algorithm. *)
Lemma shared_run_refl st : shared_step st st.
Proof.
  split_and!; [done|done|]. exists []. rewrite app_nil_r.
  split; [done|]. by intros ? ?%elem_of_nil.
Qed.

Lemma shared_step_trans st st1 st' :
  shared_step st st1 → shared_step st1 st' → shared_step st st'.
Proof.
  intros (Halg1 & Hlen1 & cs1 & Hcalls1 & Hcs1) (Halg & Hlen & cs & Hcalls & Hcs).
  split_and!; [congruence|congruence|].
  exists (cs1 ++ cs). split; [by rewrite Hcalls, Hcalls1, <-app_assoc|].
  intros c [Hc|Hc]%elem_of_app; [by apply Hcs1|].
  rewrite <-Halg1. by apply Hcs.
Qed.

Lemma shared_loop {X B} (body : B → X → M (state C) B) :
  (∀ k x st, is_Some (heap st !! algorithm (self st)) →
               shared_step st (body k x st).2) →
  ∀ xs k st, is_Some (heap st !! algorithm (self st)) →
               shared_step st (for_loop body xs k st).2.
Proof.
  intros Hbody. induction xs as [|x xs IH]; intros k st Hb; simpl.
  - apply shared_run_refl.
  - specialize (Hbody k x st Hb). unfold bind.
    destruct (body k x st) as [[k'|e] st1]; simpl in *; [|done].
    eapply shared_step_trans; [done|]. apply IH.
    destruct Hbody as (-> & Hlen & _).
    apply lookup_lt_is_Some. rewrite Hlen. by apply lookup_lt_is_Some.
Qed.

Lemma fit_user_copy_step loaded (k : unit) u st :
  is_Some (heap st !! algorithm (self st)) →
  copy_step st (fit_user C loaded k u st).2 u.
Proof.
  intros [b Hb]. destruct k.
  destruct (fit_user_step loaded u st b Hb)
    as (r & st1 & -> & Halg & _ & _ & Hheap & _ & _ & Hcalls & _).
  split_and!; [done|by eexists|]. eexists. split; [exact Hcalls|].
  intros c [->|Hc]%elem_of_cons; [by left|].
  destruct (process_ok _ _ _ _); [|by apply elem_of_nil in Hc].
  apply list_elem_of_singleton in Hc as ->. by right.
Qed.

(** The [try] block of [fit_predict] and [fit_rank]. *)
Lemma fit_in_loop_true_eq loaded u st b :
  heap st !! algorithm (self st) = Some b →
  fit_in_loop C true loaded u (train_of st u) st =
  let l := length (heap st) in
  let st1 := fit_calls_state (with_entry (copied st (algorithm (self st)) b) u (Some l))
               u l b loaded in
  match (attempt st b loaded u (entropy st)).2 with
  | None => (Ok (Some l), st1)
  | Some (UserSkipAlgFit msg) =>
      (Ok None, with_entry (with_log st1 [loop_skip_warning msg u]) u None)
  | Some e => (Raise e, st1)
  end.
Proof.
  intros Hb. unfold fit_in_loop, try_except.
  unfold bind at 1. unfold bind at 1. unfold gets at 1.
  unfold bind at 1. rewrite (deepcopy_eq _ _ b) by done.
  unfold bind at 1. unfold set_user_fit at 1, modify at 1. unfold ret at 1.
  change (set_self C _ (copied st (algorithm (self st)) b))
    with (with_entry (copied st (algorithm (self st)) b) u (Some (length (heap st)))).
  rewrite bind_assoc. unfold bind at 1.
  change (train_of st u)
    with (train_of (with_entry (copied st (algorithm (self st)) b) u
                      (Some (length (heap st)))) u) at 1.
  rewrite (fit_calls_eq _ _ _ _ b) by (simpl; by apply list_lookup_middle).
  unfold attempt. simpl entropy.
  change (train_of (with_entry _ _ _) u) with (train_of st u).
  destruct (fit_outcome C b (train_of st u) loaded (entropy st)) as [a' [ex|]]; simpl.
  - by destruct ex.
  - done.
Qed.

Lemma fit_in_loop_false_eq loaded u st b :
  heap st !! algorithm (self st) = Some b →
  fit_in_loop C false loaded u (train_of st u) st =
  let st1 := fit_calls_state st u (algorithm (self st)) b loaded in
  match (attempt st b loaded u (entropy st)).2 with
  | None => (Ok (Some (algorithm (self st))), st1)
  | Some (UserSkipAlgFit msg) => (Ok None, with_log st1 [loop_skip_warning msg u])
  | Some e => (Raise e, st1)
  end.
Proof.
  intros Hb. unfold fit_in_loop, try_except.
  unfold bind at 1. unfold gets at 1.
  rewrite bind_assoc. unfold bind at 1.
  rewrite (fit_calls_eq _ _ _ _ b) by done.
  unfold attempt.
  destruct (fit_outcome C b (train_of st u) loaded (entropy st)) as [a' [ex|]]; simpl.
  - by destruct ex.
  - done.
Qed.

Lemma fit_in_loop_true_copy_step loaded u st :
  is_Some (heap st !! algorithm (self st)) →
  copy_step st (fit_in_loop C true loaded u (train_of st u) st).2 u.
Proof.
  intros [b Hb]. rewrite (fit_in_loop_true_eq _ _ _ b) by done. cbv zeta.
  set (st1 := fit_calls_state _ _ _ _ _).
  assert (copy_step st st1 u) as Hstep.
  { split_and!; [done| |].
    - eexists. subst st1. simpl. rewrite insert_app_r_alt by done.
      by rewrite Nat.sub_diag.
    - eexists. subst st1. simpl. rewrite <-app_assoc. split; [done|].
      intros c [->|Hc]%elem_of_cons; [by left|].
      destruct (process_ok _ _ _ _); [|by apply elem_of_nil in Hc].
      apply list_elem_of_singleton in Hc as ->. by right. }
  destruct ((attempt st b loaded u (entropy st)).2) as [[]|]; done.
Qed.

Lemma fit_in_loop_false_shared_step loaded u st :
  is_Some (heap st !! algorithm (self st)) →
  shared_step st (fit_in_loop C false loaded u (train_of st u) st).2.
Proof.
  intros [b Hb]. rewrite (fit_in_loop_false_eq _ _ _ b) by done. cbv zeta.
  set (st1 := fit_calls_state _ _ _ _ _).
  assert (shared_step st st1) as Hstep.
  { split_and!; [done|subst st1; simpl; by rewrite length_insert|].
    eexists. split; [done|].
    intros c [->|Hc]%elem_of_cons; [exists u; by left|].
    destruct (process_ok _ _ _ _); [|by apply elem_of_nil in Hc].
    apply list_elem_of_singleton in Hc as ->. exists u. by right. }
  destruct ((attempt st b loaded u (entropy st)).2) as [[]|]; done.
Qed.

(** After its [try] block, a step of [fit_predict] or [fit_rank] only reads. *)
Lemma fit_predict_user_state test m save_fit loaded acc v st :
  (fit_predict_user C test m save_fit loaded acc v st).2 =
  (fit_in_loop C save_fit loaded (str v) (train_of st (str v)) st).2.
Proof.
  unfold fit_predict_user. unfold bind at 1. unfold gets at 1. unfold bind at 1.
  fold (train_of st (str v)).
  destruct (fit_in_loop C save_fit loaded (str v) (train_of st (str v)) st)
    as [[[alg|]|e] st1]; simpl; [|done|done].
  unfold candidate_filter, call_predict, deref, bind, gets, ret, raise.
  destruct (heap st1 !! alg); [|done]. by destruct (Algorithm.predict _ _ _ _ _).
Qed.

Lemma fit_rank_user_state test n m save_fit loaded acc v st :
  (fit_rank_user C test n m save_fit loaded acc v st).2 =
  (fit_in_loop C save_fit loaded (str v) (train_of st (str v)) st).2.
Proof.
  unfold fit_rank_user. unfold bind at 1. unfold gets at 1. unfold bind at 1.
  fold (train_of st (str v)).
  destruct (fit_in_loop C save_fit loaded (str v) (train_of st (str v)) st)
    as [[[alg|]|e] st1]; simpl; [|done|done].
  unfold candidate_filter, call_rank, deref, bind, gets, ret, raise.
  destruct (heap st1 !! alg); [|done]. by destruct (Algorithm.rank _ _ _ _ _ _).
Qed.

Lemma two_infos st i1 i2 :
  add_log C (LogInfo i2) (add_log C (LogInfo i1) st) = with_log st [LogInfo i1; LogInfo i2].
Proof. unfold add_log, with_log; simpl. by rewrite <-app_assoc. Qed.

Lemma fit_predict_eq order test uil m save_fit st b :
  heap st !! algorithm (self st) = Some b →
  fit_predict C order test uil m save_fit st =
  match for_loop (fit_predict_user C test m save_fit (loaded_for st b))
          (order (all_users test uil)) [] (with_log st loop_infos) with
  | (Ok records, stL) =>
      (Ok (from_list records),
       with_report stL [("mode", "score_prediction"); ("methodology", repr_opt m)])
  | (Raise e, stL) => (Raise e, stL)
  end.
Proof.
  intros Hb. unfold fit_predict, load_contents, deref, info, set_yaml_report.
  unfold bind, gets, modify, ret. cbv beta. rewrite Hb. cbv beta iota.
  rewrite two_infos. fold loop_infos. fold (loaded_for st b).
  by destruct (for_loop _ _ _ _) as [[records|e] stL].
Qed.

Lemma fit_rank_eq order test n uil m save_fit st b :
  heap st !! algorithm (self st) = Some b →
  fit_rank C order test n uil m save_fit st =
  match for_loop (fit_rank_user C test n m save_fit (loaded_for st b))
          (order (all_users test uil)) [] (with_log st loop_infos) with
  | (Ok records, stL) =>
      (Ok (from_list records),
       with_report stL [("mode", "rank"); ("n_recs", repr_opt_int n);
                        ("methodology", repr_opt m)])
  | (Raise e, stL) => (Raise e, stL)
  end.
Proof.
  intros Hb. unfold fit_rank, load_contents, deref, info, set_yaml_report.
  unfold bind, gets, modify, ret. cbv beta. rewrite Hb. cbv beta iota.
  rewrite two_infos. fold loop_infos. fold (loaded_for st b).
  by destruct (for_loop _ _ _ _) as [[records|e] stL].
Qed.

Lemma fit_predict_final order test uil m save_fit st b :
  heap st !! algorithm (self st) = Some b →
  let stL := (for_loop (fit_predict_user C test m save_fit (loaded_for st b))
                (order (all_users test uil)) [] (with_log st loop_infos)).2 in
  calls (fit_predict C order test uil m save_fit st).2 = calls stL ∧
  heap (fit_predict C order test uil m save_fit st).2 = heap stL.
Proof.
  intros Hb. rewrite (fit_predict_eq _ _ _ _ _ _ b) by done.
  by destruct (for_loop _ _ _ _) as [[records|e] stL].
Qed.

Lemma fit_rank_final order test n uil m save_fit st b :
  heap st !! algorithm (self st) = Some b →
  let stL := (for_loop (fit_rank_user C test n m save_fit (loaded_for st b))
                (order (all_users test uil)) [] (with_log st loop_infos)).2 in
  calls (fit_rank C order test n uil m save_fit st).2 = calls stL ∧
  heap (fit_rank C order test n uil m save_fit st).2 = heap stL.
Proof.
  intros Hb. rewrite (fit_rank_eq _ _ _ _ _ _ _ b) by done.
  by destruct (for_loop _ _ _ _) as [[records|e] stL].
Qed.

Lemma fused_dangling order test n uil m save_fit st :
  heap st !! algorithm (self st) = None →
  (fit_predict C order test uil m save_fit st).2 = st ∧
  (fit_rank C order test n uil m save_fit st).2 = st.
Proof.
  intros Hb. unfold fit_predict, fit_rank, load_contents, deref.
  unfold bind, gets. cbv beta. by rewrite Hb.
Qed.

Lemma fit_paths_isolated_refl st : fit_paths_isolated st st.
Proof. apply isolated_run_paths, isolated_run_refl. Qed.

Lemma fit_paths_shared_refl st : fit_paths_shared st st.
Proof. destruct (shared_run_refl st) as (_ & ? & ?). by split. Qed.

Lemma fit_isolated order st : fit_paths_isolated st (fit C order st).2.
Proof.
  rewrite fit_eq. destruct (heap st !! algorithm (self st)) as [b|] eqn:Hb.
  - apply isolated_run_paths, (copy_loop _ id); [|by eexists].
    intros k u st1 Hb1. by apply fit_user_copy_step.
  - apply fit_paths_isolated_refl.
Qed.

Lemma fit_predict_isolated order test uil m st :
  fit_paths_isolated st (fit_predict C order test uil m true st).2.
Proof.
  destruct (heap st !! algorithm (self st)) as [b|] eqn:Hb.
  - destruct (fit_predict_final order test uil m true st b Hb) as [Hcalls Hheap].
    pose proof (copy_loop (fit_predict_user C test m true (loaded_for st b)) str) as Hloop.
    specialize (Hloop (λ acc v st1 Hb1, eq_ind_r (λ s, copy_step st1 s (str v))
                  (fit_in_loop_true_copy_step _ (str v) st1 Hb1)
                  (fit_predict_user_state test m true _ acc v st1))).
    specialize (Hloop (order (all_users test uil)) [] (with_log st loop_infos)
                  (ex_intro _ b Hb)).
    apply isolated_run_paths in Hloop as (cs & Hcs & ? & ?).
    exists cs. by rewrite Hcalls.
  - rewrite (proj1 (fused_dangling order test None uil m true st Hb)).
    apply fit_paths_isolated_refl.
Qed.

Lemma fit_rank_isolated order test n uil m st :
  fit_paths_isolated st (fit_rank C order test n uil m true st).2.
Proof.
  destruct (heap st !! algorithm (self st)) as [b|] eqn:Hb.
  - destruct (fit_rank_final order test n uil m true st b Hb) as [Hcalls Hheap].
    pose proof (copy_loop (fit_rank_user C test n m true (loaded_for st b)) str) as Hloop.
    specialize (Hloop (λ acc v st1 Hb1, eq_ind_r (λ s, copy_step st1 s (str v))
                  (fit_in_loop_true_copy_step _ (str v) st1 Hb1)
                  (fit_rank_user_state test n m true _ acc v st1))).
    specialize (Hloop (order (all_users test uil)) [] (with_log st loop_infos)
                  (ex_intro _ b Hb)).
    apply isolated_run_paths in Hloop as (cs & Hcs & ? & ?).
    exists cs. by rewrite Hcalls.
  - rewrite (proj2 (fused_dangling order test n uil m true st Hb)).
    apply fit_paths_isolated_refl.
Qed.

Lemma fit_predict_shared order test uil m st :
  fit_paths_shared st (fit_predict C order test uil m false st).2.
Proof.
  destruct (heap st !! algorithm (self st)) as [b|] eqn:Hb.
  - destruct (fit_predict_final order test uil m false st b Hb) as [Hcalls Hheap].
    pose proof (shared_loop (fit_predict_user C test m false (loaded_for st b))) as Hloop.
    specialize (Hloop (λ acc v st1 Hb1, eq_ind_r (λ s, shared_step st1 s)
                  (fit_in_loop_false_shared_step _ (str v) st1 Hb1)
                  (fit_predict_user_state test m false _ acc v st1))).
    specialize (Hloop (order (all_users test uil)) [] (with_log st loop_infos)
                  (ex_intro _ b Hb)).
    destruct Hloop as (_ & Hlen & cs & Hcs & ?).
    split; [by rewrite Hheap|]. exists cs. by rewrite Hcalls.
  - rewrite (proj1 (fused_dangling order test None uil m false st Hb)).
    apply fit_paths_shared_refl.
Qed.

Lemma fit_rank_shared order test n uil m st :
  fit_paths_shared st (fit_rank C order test n uil m false st).2.
Proof.
  destruct (heap st !! algorithm (self st)) as [b|] eqn:Hb.
  - destruct (fit_rank_final order test n uil m false st b Hb) as [Hcalls Hheap].
    pose proof (shared_loop (fit_rank_user C test n m false (loaded_for st b))) as Hloop.
    specialize (Hloop (λ acc v st1 Hb1, eq_ind_r (λ s, shared_step st1 s)
                  (fit_in_loop_false_shared_step _ (str v) st1 Hb1)
                  (fit_rank_user_state test n m false _ acc v st1))).
    specialize (Hloop (order (all_users test uil)) [] (with_log st loop_infos)
                  (ex_intro _ b Hb)).
    destruct Hloop as (_ & Hlen & cs & Hcs & ?).
    split; [by rewrite Hheap|]. exists cs. by rewrite Hcalls.
  - rewrite (proj2 (fused_dangling order test n uil m false st Hb)).
    apply fit_paths_shared_refl.
Qed.

(** C1 (amended): [fit], and [fit_predict] and [fit_rank] when [save_fit] is
    set, call [process_rated] and [fit] only on objects made during the run by
    a [deepcopy] of the base algorithm, one per user processed; without
    [save_fit], [fit_predict] and [fit_rank] make no copy and call
    [process_rated] and [fit] on the base algorithm itself for every user. *)
Theorem fit_calls_go_to_fresh_copies order order' test n uil m st :
  fit_paths_isolated st (fit C order st).2 ∧
  fit_paths_isolated st (fit_predict C order' test uil m true st).2 ∧
  fit_paths_isolated st (fit_rank C order' test n uil m true st).2 ∧
  fit_paths_shared st (fit_predict C order' test uil m false st).2 ∧
  fit_paths_shared st (fit_rank C order' test n uil m false st).2.
Proof.
  split_and!.
  - apply fit_isolated.
  - apply fit_predict_isolated.
  - apply fit_rank_isolated.
  - apply fit_predict_shared.
  - apply fit_rank_shared.
Qed.

End FitFacts.

(** ** ContentBasedRS: identifiers *)

Section IdentifierFacts.
Context (C : ContentBasedAlgorithm).
Import ContentBasedRS.

Implicit Types (st : state C) (v : pyval) (acc : list Interaction).

(** Every loop body sees an identifier through its string form only. *)
Lemma bodies_as_str test n m save_fit loaded acc v st :
  rank_user C test n m loaded acc (as_str v) st = rank_user C test n m loaded acc v st ∧
  predict_user C test m loaded acc (as_str v) st = predict_user C test m loaded acc v st ∧
  fit_predict_user C test m save_fit loaded acc (as_str v) st
    = fit_predict_user C test m save_fit loaded acc v st ∧
  fit_rank_user C test n m save_fit loaded acc (as_str v) st
    = fit_rank_user C test n m save_fit loaded acc v st.
Proof. done. Qed.


Lemma fused_dangling_eq order test n uil m save_fit st :
  heap st !! algorithm (self st) = None →
  fit_predict C order test uil m save_fit st = (Raise DanglingReference, st) ∧
  fit_rank C order test n uil m save_fit st = (Raise DanglingReference, st).
Proof.
  intros Hb. unfold fit_predict, fit_rank, load_contents, deref.
  unfold bind, gets. cbv beta. by rewrite Hb.
Qed.



End IdentifierFacts.

(** ** GraphBasedRS *)

Section GraphFacts.
Context (G : GraphAlgorithm.GraphBasedAlgorithm).
Import GraphBasedRS.

Implicit Types (st : state G).

Lemma size_list_to_set_PStr (l : list string) :
  size (list_to_set (PStr <$> l) : gset pyval) = size (list_to_set l : gset string).
Proof.
  induction l as [|x l IH]; [done|].
  rewrite fmap_cons, !list_to_set_cons.
  destruct (decide (x ∈ l)) as [Hx|Hx].
  - rewrite !subseteq_union_1_L; [done|..].
    + apply singleton_subseteq_l, elem_of_list_to_set. exact Hx.
    + apply singleton_subseteq_l, elem_of_list_to_set. by apply list_elem_of_fmap_2.
  - rewrite !size_union, !size_singleton, IH; [done|..].
    + apply disjoint_singleton_l. by rewrite elem_of_list_to_set.
    + apply disjoint_singleton_l. rewrite elem_of_list_to_set.
      intros (y & [= ->] & Hy)%list_elem_of_fmap. done.
Qed.

(** [rank] as a whole. *)
Lemma graph_rank_eq test n uil m st :
  rank G test n uil m st =
  let users := all_users test uil in
  let g := self_graph (self st) in
  let filter_dict :=
    match m with
    | None => None
    | Some m => Some (GraphAlgorithm.filter_all G m (GraphAlgorithm.to_ratings G g) test)
    end in
  let report := [("graph", GraphAlgorithm.graph_repr G g); ("mode", "rank");
                 ("n_recs", repr_opt_int n); ("methodology", repr_opt m)] in
  match GraphAlgorithm.rank G users g n filter_dict with
  | Raise e => (Raise e, st)
  | Ok records =>
      (Ok (from_list records),
       {| self := {| self_graph := g; _yaml_report := Some report |};
          log := log st ++
                 (if decide (length records = 0) then [LogWarning none_ranked_msg]
                  else if decide (size (list_to_set (user_id_column records) : gset string)
                                  ≠ size users)
                       then [LogWarning (dropped_msg (users ∖ covered records))]
                       else []) |})
  end.
Proof.
  unfold rank, batched_filter, call, warning, set_yaml_report, bind, gets, modify, ret.
  cbv beta zeta.
  destruct (GraphAlgorithm.rank G _ _ _ _) as [records|e]; [|done].
  unfold from_list. repeat case_decide; simpl; by rewrite ?app_nil_r.
Qed.

(** [rank] does what C5 asks of both methods: when the algorithm returns,
    [rank] returns the records; a warning is logged when they cover no user,
    and a warning that names the users left out when they cover some but not
    all of the users asked for. *)
Lemma graph_rank_warns test n uil m st records :
  GraphAlgorithm.rank G (all_users test uil) (self_graph (self st)) n
    (match m with
     | None => None
     | Some m => Some (GraphAlgorithm.filter_all G m
                         (GraphAlgorithm.to_ratings G (self_graph (self st))) test)
     end) = Ok records →
  ∃ st', rank G test n uil m st = (Ok records, st') ∧
    (covered records = ∅ → records = [] ∧ log st' = log st ++ [LogWarning none_ranked_msg]) ∧
    (covered records ≠ ∅ → covered records ⊂ all_users test uil →
       log st' = log st ++
         [LogWarning (dropped_msg (all_users test uil ∖ covered records))] ∧
       all_users test uil ∖ covered records ≠ ∅).
Proof.
  intros Hcall. rewrite graph_rank_eq. cbv zeta. rewrite Hcall.
  eexists. split; [done|]. simpl. split.
  - intros Hcov. assert (records = []) as ->.
    { destruct records as [|i records]; [done|].
      unfold covered, user_id_column in Hcov. rewrite !fmap_cons, list_to_set_cons in Hcov.
      set_solver. }
    by rewrite decide_True.
  - intros Hcov Hsub. rewrite decide_False.
    2:{ intros Hlen. apply Hcov. by destruct records. }
    rewrite decide_True.
    2:{ apply subset_size in Hsub. unfold covered in Hsub.
        rewrite size_list_to_set_PStr in Hsub. lia. }
    split; [done|]. intros Hempty.
    destruct Hsub as [Hsub Hnsub]. apply Hnsub. intros x Hx.
    destruct (decide (x ∈ covered records)) as [|Hnc]; [done|].
    assert (x ∈ all_users test uil ∖ covered records) as Hd
      by (apply elem_of_difference; done).
    rewrite Hempty in Hd. by apply not_elem_of_empty in Hd.
Qed.

(** C5: [predict] returns what the algorithm returns and logs nothing,
    whatever users the records cover; it has none of the warnings that
    [rank] emits (failing input: an algorithm that yields no record). *)
Theorem graph_predict_logs_nothing test uil m st :
  log (predict G test uil m st).2 = log st ∧
  (∀ records,
     GraphAlgorithm.predict G (all_users test uil) (self_graph (self st))
       (match m with
        | None => None
        | Some m => Some (GraphAlgorithm.filter_all G m
                            (GraphAlgorithm.to_ratings G (self_graph (self st))) test)
        end) = Ok records →
     (predict G test uil m st).1 = Ok records).
Proof.
  unfold predict, batched_filter, call, set_yaml_report, bind, gets, modify, ret.
  cbv beta zeta.
  destruct (GraphAlgorithm.predict G _ _ _) as [records|e]; simpl; [|done].
  split; [done|]. by intros ? [= ->].
Qed.

End GraphFacts.

(** ** EvalModel *)

Section EvalModelFacts.
Context {Metric : Type}.
Import EvalModel.

(** C8: the constructor raises a [ValueError] exactly when the two lists
    differ in length or are both empty, and raises nothing else; for two
    lists of the same length that are not empty it returns an object that
    holds the lists as given. *)
Theorem EvalModel_init_value_error (p t : list (list Interaction)) (ms : list Metric) :
  ((∃ msg, __init__ p t ms = Raise (ValueError msg))
     ↔ (length p ≠ length t ∨ (p = [] ∧ t = []))) ∧
  (∀ e, __init__ p t ms = Raise e → ∃ msg, e = ValueError msg) ∧
  (length p = length t → p ≠ [] →
     ∃ em, __init__ p t ms = Ok em ∧
           pred_list em = p ∧ truth_list em = t ∧ metric_list em = ms).
Proof.
  unfold __init__. split_and!.
  - split.
    + intros [msg H]. repeat case_decide; try done.
      * right. destruct p, t; naive_solver.
      * by left.
    + intros [Hne|[-> ->]].
      * case_decide; [by eexists|]. rewrite decide_True by done. by eexists.
      * rewrite decide_True by done. by eexists.
  - intros e. repeat case_decide; intros [= <-]; by eexists.
  - intros Hlen Hp. rewrite decide_False.
    2:{ intros [Hz _]. by apply nil_length_inv in Hz. }
    rewrite decide_False by (by intros ?). by eexists.
Qed.

End EvalModelFacts.

(** ** MetricEvaluator *)

Section EvaluationFacts.
Context (P : MetricEvaluator.ResultFrames).
Import MetricEvaluator.

Implicit Types (st : state) (sp : Split) (s : list Split).

Lemma query_idem ids (f : list row) :
  query_from_id_in ids (query_from_id_in ids f) = query_from_id_in ids f.
Proof.
  unfold query_from_id_in. induction f as [|r f IH]; [done|].
  rewrite filter_cons. case_decide as Hr; [|done].
  by rewrite filter_cons, decide_True, IH.
Qed.

Lemma filtered_idem sp : filtered (filtered sp) = filtered sp.
Proof.
  unfold filtered.
  destruct (negb (is_empty (pred sp)) && negb (is_empty (truth sp))) eqn:Hne; simpl.
  - destruct (negb (is_empty (pred sp)) &&
              negb (is_empty (query_from_id_in (from_id <$> pred sp) (truth sp))));
      [|done].
    by rewrite query_idem.
  - by rewrite Hne.
Qed.

Lemma touched_refl s : touched s s [].
Proof. intros l. rewrite decide_False; [done|apply not_elem_of_nil]. Qed.

Lemma touched_trans s1 s2 s3 ls1 ls2 :
  touched s1 s2 ls1 → touched s2 s3 ls2 → touched s1 s3 (ls1 ++ ls2).
Proof.
  intros H12 H23 l. rewrite (H23 l), (H12 l).
  destruct (decide (l ∈ ls2)), (decide (l ∈ ls1)), (decide (l ∈ ls1 ++ ls2)) as [Hin|Hout];
    try done; try (exfalso; apply Hout; set_solver); try (exfalso; set_solver).
  destruct (s1 !! l) as [sp|]; [|done]. simpl. by rewrite filtered_idem.
Qed.

(** One split: the truth is reassigned in the store, then the metric runs. *)
Lemma eval_split_eq metric results split st :
  eval_split P metric results split st =
  match store st !! split with
  | None => (Raise DanglingReference, st)
  | Some sp =>
      let st1 := set_store (λ s, <[split := filtered sp]> s) st in
      if negb (is_empty (pred sp)) && negb (is_empty (truth sp)) then
        match perform P metric (filtered sp) with
        | Ok metric_result => (Ok (results ++ [metric_result]), st1)
        | Raise e => (Raise e, st1)
        end
      else (Ok results, st1)
  end.
Proof.
  unfold eval_split, deref, set_truth, call, bind, modify, ret. cbv beta.
  destruct (store st !! split) as [sp|] eqn:Hsp; [|done]. cbv zeta.
  unfold filtered.
  destruct (negb (is_empty (pred sp)) && negb (is_empty (truth sp))) eqn:Hne.
  - unfold set_store. simpl. rewrite !Hsp. simpl.
    rewrite list_lookup_insert_eq by (by eapply lookup_lt_Some).
    by destruct (perform P metric _).
  - unfold set_store. destruct st; simpl in *. by rewrite list_insert_id.
Qed.

Lemma touched_step s split sp :
  s !! split = Some sp → touched s (<[split := filtered sp]> s) [split].
Proof.
  intros Hsp l. destruct (decide (l = split)) as [->|Hne].
  - rewrite decide_True by left. rewrite Hsp.
    by rewrite list_lookup_insert_eq by (by eapply lookup_lt_Some).
  - rewrite decide_False by (by intros ->%list_elem_of_singleton).
    by rewrite list_lookup_insert_ne.
Qed.

Lemma eval_split_loop metric ls : ∀ results st r st',
  for_loop (eval_split P metric) ls results st = (Ok r, st') →
  _split_list st' = _split_list st ∧ touched (store st) (store st') ls.
Proof.
  induction ls as [|split ls IH]; intros results st r st'; simpl.
  - intros [= _ <-]. split; [done|apply touched_refl].
  - unfold bind. rewrite eval_split_eq.
    destruct (store st !! split) as [sp|] eqn:Hsp; [|done]. cbv zeta.
    set (st1 := set_store _ st).
    assert (touched (store st) (store st1) [split]) as Hstep by by apply touched_step.
    destruct (negb (is_empty (pred sp)) && negb (is_empty (truth sp))).
    + destruct (perform P metric (filtered sp)) as [mr|e]; [|done].
      intros [Hsl Ht]%IH. split; [done|].
      by apply (touched_trans _ (store st1) _ [split] ls).
    + intros [Hsl Ht]%IH. split; [done|].
      by apply (touched_trans _ (store st1) _ [split] ls).
Qed.

Lemma eval_metric_run frames metric st r st' :
  eval_metric P frames metric st = (Ok r, st') →
  _split_list st' = _split_list st ∧
  touched (store st) (store st') (split_list_of st metric).
Proof.
  unfold eval_metric, call, bind, gets, ret. cbv beta.
  destruct (for_loop _ _ _ _) as [[results|e] st1] eqn:Hloop; [|done].
  apply eval_split_loop in Hloop as [Hsl Ht].
  destruct (pd_concat P 0 results) as [total|e]; [|done].
  destruct (negb (table_empty P total)); intros [= <- <-]; done.
Qed.

Lemma eval_metric_loop ms : ∀ frames st r st',
  for_loop (eval_metric P) ms frames st = (Ok r, st') →
  _split_list st' = _split_list st ∧
  touched (store st) (store st') (evaluated st ms) ∧
  (ms = [] → r = frames).
Proof.
  induction ms as [|metric ms IH]; intros frames st r st'; simpl.
  - intros [= <- <-]. split_and!; [done|apply touched_refl|done].
  - unfold bind.
    destruct (eval_metric P frames metric st) as [[frames1|e] st1] eqn:Hm; [|done].
    apply eval_metric_run in Hm as (Hsl1 & Ht1).
    intros (Hsl & Ht & _)%IH. split_and!; [congruence| |done].
    unfold evaluated in *. rewrite ?bind_cons. simpl.
    apply (touched_trans _ (store st1)); [done|].
    replace (ms ≫= split_list_of st) with (ms ≫= split_list_of st1); [done|].
    unfold split_list_of. by rewrite Hsl1.
Qed.

Lemma eval_metrics_run ms st r st' :
  eval_metrics P ms st = (Ok r, st') →
  ms ≠ [] ∧ _split_list st' = _split_list st ∧
  touched (store st) (store st') (evaluated st ms).
Proof.
  unfold eval_metrics, info, call, bind, modify, ret. cbv beta.
  destruct (for_loop _ _ _ _) as [[frames|e] st1] eqn:Hloop; [|done].
  apply eval_metric_loop in Hloop as (Hsl & Ht & Hnil). simpl in *.
  destruct (pd_concat P 1 frames) as [final|e] eqn:Hconcat; [|done].
  destruct (loc_sys P final); [|done]. destruct (drop_sys P final); [|done].
  intros [= _ <-]. split_and!; [|done|done].
  intros ->. by rewrite (Hnil eq_refl) in Hconcat.
Qed.

(** C10: when [eval_metrics] returns, every split it evaluated that had
    predictions and truth holds, in the store the caller shares, its truth cut
    down to the rows whose [from_id] is among those of its predictions; with
    a split list given at construction, these are all its splits. Splits
    that were not evaluated, or that lacked predictions or truth, are as
    before. *)
Theorem eval_metrics_filters_truth_in_place ms st r st' :
  eval_metrics P ms st = (Ok r, st') →
  (∀ l sp, l ∈ evaluated st ms → store st !! l = Some sp →
           pred sp ≠ [] → truth sp ≠ [] →
           store st' !! l =
             Some {| pred := pred sp;
                     truth := filter (λ row, from_id row ∈ from_id <$> pred sp) (truth sp) |}) ∧
  (∀ ls l, _split_list st = Some ls → l ∈ ls → l ∈ evaluated st ms) ∧
  (∀ l sp, store st !! l = Some sp →
           l ∉ evaluated st ms ∨ pred sp = [] ∨ truth sp = [] →
           store st' !! l = Some sp).
Proof.
  intros (Hms & _ & Ht)%eval_metrics_run. split_and!.
  - intros l sp Hl Hsp Hp Htr. rewrite (Ht l), decide_True, Hsp by done. simpl.
    unfold filtered. by destruct (pred sp), (truth sp).
  - intros ls l Hls Hl. destruct ms as [|metric ms]; [done|].
    unfold evaluated. rewrite bind_cons. apply elem_of_app. left.
    unfold split_list_of. by rewrite Hls.
  - intros l sp Hsp Hcase. rewrite (Ht l), Hsp. case_decide; [|done]. simpl.
    destruct Hcase as [?|[Hp|Htr]]; [done|..]; unfold filtered.
    + by rewrite Hp.
    + rewrite Htr. by rewrite andb_false_r.
Qed.

End EvaluationFacts.

(** ** The concrete instances *)

Lemma toy_never_fails a user_train loaded e :
  kind_of (fit_outcome Toy.alg a user_train loaded e).2 ≠ Failed.
Proof.
  unfold fit_outcome; simpl. unfold Toy.toy_process_rated, Toy.toy_fit; simpl.
  destruct user_train; [done|]. by destruct (existsb _ _).
Qed.

Lemma toy_kind_deterministic a user_train loaded e1 e2 :
  kind_of (fit_outcome Toy.alg a user_train loaded e1).2 =
  kind_of (fit_outcome Toy.alg a user_train loaded e2).2.
Proof.
  unfold fit_outcome; simpl. unfold Toy.toy_process_rated, Toy.toy_fit; simpl.
  destruct user_train; [done|]. by destruct (existsb _ _).
Qed.

Lemma str_inj_on_strings (l : list string) (x y : pyval) :
  x ∈ PStr <$> l → y ∈ PStr <$> l → str x = str y → x = y.
Proof.
  intros (a & -> & _)%list_elem_of_fmap (b & -> & _)%list_elem_of_fmap. simpl. congruence.
Qed.

Lemma run_result {S R} (x : result R * S) (r : R) : x.1 = Ok r → x = (Ok r, x.2).
Proof. destruct x as [r' s]. simpl. by intros ->. Qed.

(** The claims C3 and C4 at work: before [fit] the registry is empty and
    [predict] raises at once; after [fit], user 3 (skipped, entry [None]) and
    user 9 (never seen, no entry) both add nothing, user 1 adds its records. *)
Lemma predict_guard_and_skips_example :
  (ContentBasedRS.predict Toy.alg pyset Toy.test None None Toy.fresh).1
    = Raise (NotFittedAlg ContentBasedRS.not_fitted_msg) ∧
  registry Toy.after_fit !! "3" = Some None ∧
  registry Toy.after_fit !! "9" = None ∧
  (ContentBasedRS.predict Toy.alg pyset Toy.test (Some [PStr "3"; PStr "9"])
     (Some TestRatingsMethodology) Toy.after_fit).1 = Ok [] ∧
  (ContentBasedRS.predict Toy.alg pyset Toy.test (Some [PStr "3"; PStr "1"; PStr "9"])
     (Some TestRatingsMethodology) Toy.after_fit).1
    = (ContentBasedRS.predict Toy.alg pyset Toy.test (Some [PStr "1"])
         (Some TestRatingsMethodology) Toy.after_fit).1 ∧
  filter (λ r, r ∈ [skip_warning (PStr "3"); skip_warning (PStr "9")])
    (ContentBasedRS.log
       (ContentBasedRS.predict Toy.alg pyset Toy.test (Some [PStr "3"; PStr "9"])
          (Some TestRatingsMethodology) Toy.after_fit).2)
    = [skip_warning (PStr "3"); skip_warning (PStr "9")].
Proof. split_and!; by vm_compute. Qed.

Ltac each_member H :=
  repeat (apply elem_of_cons in H as [->|H]); [..|by apply elem_of_nil in H].

(** C2 at work: three users, of whom user 3 has no positive rating. *)
Lemma fit_skips_do_not_abort_witness :
  ∃ st', ContentBasedRS.fit Toy.alg pyset Toy.fresh = (Ok tt, st') ∧
    (∀ u, u ∈ user_id_column Toy.train →
          ∃ e, ContentBasedRS.entropy Toy.fresh ≤ e < ContentBasedRS.entropy st' ∧
               entry_of_attempt Toy.fresh st' Toy.base
                 (loaded_for_fit Toy.fresh Toy.base) u e) ∧
    (∀ u, u ∉ user_id_column Toy.train →
          registry st' !! u = registry Toy.fresh !! u) ∧
    (registry Toy.fresh = ∅ →
     dom (registry st') = list_to_set (user_id_column Toy.train)).
Proof.
  apply (fit_skips_do_not_abort Toy.alg pyset Toy.fresh Toy.base).
  - reflexivity.
  - apply pyset_set_order.
  - intros u e _. apply toy_never_fails.
Defined.

(** C7 at work. *)
Lemma fit_twice_same_membership_witness :
  ∃ st1 st2, ContentBasedRS.fit Toy.alg pyset Toy.fresh = (Ok tt, st1) ∧
    ContentBasedRS.fit Toy.alg pyset st1 = (Ok tt, st2) ∧
    dom (registry st2) = dom (registry st1) ∧
    (∀ u, registry st2 !! u = Some None ↔ registry st1 !! u = Some None).
Proof.
  apply (fit_twice_same_membership Toy.alg pyset pyset Toy.fresh Toy.base).
  - reflexivity.
  - apply pyset_set_order.
  - apply pyset_set_order.
  - intros u e _. apply toy_never_fails.
  - intros u e1 e2 _. apply toy_kind_deterministic.
Defined.




(** C10 at work: split 0 is listed twice and loses the truth row of user 3;
    split 1 has no predictions and is left alone. *)
Lemma eval_metrics_filters_truth_in_place_witness :
  MetricEvaluator.store
    (MetricEvaluator.eval_metrics Toy.frames [Toy.count_metric] Toy.splits).2 !! 0
  = Some {| MetricEvaluator.pred := [Toy.frow "1" "i3" 4; Toy.frow "2" "i5" 3];
            MetricEvaluator.truth := [Toy.frow "1" "i3" 3; Toy.frow "2" "i5" 4] |}.
Proof.
  destruct (MetricEvaluator.eval_metrics Toy.frames [Toy.count_metric] Toy.splits)
    as [r st'] eqn:Hrun.
  assert (∃ t, r = Ok t) as [t ->].
  { apply (f_equal fst) in Hrun. vm_compute in Hrun. subst r. by eexists. }
  destruct (eval_metrics_filters_truth_in_place Toy.frames [Toy.count_metric] Toy.splits
              t st' Hrun) as (Hfiltered & _ & _).
  apply (Hfiltered 0 {| MetricEvaluator.pred := [Toy.frow "1" "i3" 4; Toy.frow "2" "i5" 3];
                        MetricEvaluator.truth := [Toy.frow "1" "i3" 3; Toy.frow "3" "i1" 4;
                                                  Toy.frow "2" "i5" 4] |}).
  - vm_compute. left.
  - reflexivity.
  - done.
  - done.
Defined.

(** ** Where the claims as stated fail *)

(** C1, as stated, fails: [fit_predict] without [save_fit] calls
    [process_rated] and [fit] for users 1 and 2 on object 0, the base
    algorithm, which is no fresh copy and is shared by the two users. *)
Lemma fit_predict_shares_the_base_algorithm :
  let st' := (ContentBasedRS.fit_predict Toy.alg pyset Toy.test None
                (Some TestRatingsMethodology) false Toy.fresh).2 in
  ContentBasedRS.algorithm (ContentBasedRS.self Toy.fresh) = 0 ∧
  length (ContentBasedRS.heap st') = length (ContentBasedRS.heap Toy.fresh) ∧
  ContentBasedRS.CallProcessRated "1" 0 ∈ ContentBasedRS.calls st' ∧
  ContentBasedRS.CallFit "1" 0 ∈ ContentBasedRS.calls st' ∧
  ContentBasedRS.CallProcessRated "2" 0 ∈ ContentBasedRS.calls st' ∧
  ContentBasedRS.CallFit "2" 0 ∈ ContentBasedRS.calls st' ∧
  ¬ fit_paths_isolated Toy.fresh st'.
Proof.
  cbv zeta. split_and!; try (vm_compute; reflexivity).
  - vm_compute. set_solver.
  - vm_compute. set_solver.
  - vm_compute. set_solver.
  - vm_compute. set_solver.
  - intros (cs & Hcalls & Hfresh & _).
    vm_compute in Hcalls. subst cs.
    destruct (Hfresh "1" 0 (ContentBasedRS.CallProcessRated "1" 0)) as [Hlen _].
    + left.
    + by left.
    + simpl in Hlen. lia.
Qed.



(** C5 at the failing input: the algorithm finds none of the users asked
    for; [predict] returns the empty container and the log stays empty, where
    [rank] logs its warning. *)
Lemma graph_predict_no_warning_example :
  let st := Toy.graph_state Toy.train in
  (GraphBasedRS.predict Toy.graph_alg Toy.test (Some [PStr "7"]) None st).1 = Ok [] ∧
  GraphBasedRS.log (GraphBasedRS.predict Toy.graph_alg Toy.test (Some [PStr "7"]) None st).2
    = [] ∧
  (GraphBasedRS.rank Toy.graph_alg Toy.test None (Some [PStr "7"]) None st).1 = Ok [] ∧
  GraphBasedRS.log (GraphBasedRS.rank Toy.graph_alg Toy.test None (Some [PStr "7"]) None st).2
    = [LogWarning GraphBasedRS.none_ranked_msg].
Proof. cbv zeta. split_and!; by vm_compute. Qed.

Import MoreVocabulary.

(** * Further properties *)

(** ** Loops, whatever their outcome *)

Section LoopInvariants.
Context {S X B : Type}.

(** A relation between the state before and after that every step keeps is
    kept by the loop, also when it stops on a raise. *)
Lemma for_loop_rel (I : S → Prop) (R : S → S → Prop) (body : B → X → M S B) :
  (∀ s, R s s) →
  (∀ s1 s2 s3, R s1 s2 → R s2 s3 → R s1 s3) →
  (∀ k x s, I s → R s (body k x s).2 ∧ I (body k x s).2) →
  ∀ xs k s, I s → R s (for_loop body xs k s).2.
Proof.
  intros Hrefl Htrans Hstep. induction xs as [|x xs IH]; intros k s Hs; simpl.
  - apply Hrefl.
  - destruct (Hstep k x s Hs) as [HR HI]. unfold bind.
    destruct (body k x s) as [[k'|e] s1]; simpl in *; [|done].
    eapply Htrans; [exact HR|]. by apply IH.
Qed.

(** What a loop raises, one of its steps raised. *)
Lemma for_loop_raise (I : S → Prop) (Q : exn → Prop) (body : B → X → M S B) :
  (∀ k x s, I s → I (body k x s).2) →
  (∀ k x s e, I s → (body k x s).1 = Raise e → Q e) →
  ∀ xs k s e, I s → (for_loop body xs k s).1 = Raise e → Q e.
Proof.
  intros HI Hraise. induction xs as [|x xs IH]; intros k s e Hs; simpl; [done|].
  unfold bind. pose proof (HI k x s Hs) as HI1. pose proof (Hraise k x s) as Hr.
  destruct (body k x s) as [[k'|e'] s1]; simpl in *.
  - by apply IH.
  - intros [= <-]. by apply Hr.
Qed.


End LoopInvariants.

Section MoreContentBased.
Context (C : ContentBasedAlgorithm).
Import ContentBasedRS.

Implicit Types (st : state C) (v : pyval) (acc : list Interaction) (u : string).

(** *** What [rank] and [predict] leave alone *)

Lemma same_but_log_and_report_with_log st w : same_but_log_and_report st (with_log st w).
Proof. split_and!; try done. by exists w. Qed.

Lemma same_but_log_and_report_refl st : same_but_log_and_report st st.
Proof. split_and!; try done. exists []. by rewrite app_nil_r. Qed.

(** X1: [rank] and [predict] read the registry and the fitted objects and
    change neither, whatever their outcome; nor do they touch the train set
    or call [process_rated] or [fit]. Only the log grows, and the report is
    set when they return and left as it was when they raise. *)
Theorem rank_predict_change_only_log_and_report order test n uil m st :
  same_but_log_and_report st (rank C order test n uil m st).2 ∧
  same_but_log_and_report st (predict C order test uil m st).2 ∧
  (∀ e, (rank C order test n uil m st).1 = Raise e →
        _yaml_report (self (rank C order test n uil m st).2) = _yaml_report (self st)) ∧
  (∀ e, (predict C order test uil m st).1 = Raise e →
        _yaml_report (self (predict C order test uil m st).2) = _yaml_report (self st)) ∧
  (∀ r, (rank C order test n uil m st).1 = Ok r →
        _yaml_report (self (rank C order test n uil m st).2)
          = Some [("mode", "rank"); ("n_recs", repr_opt_int n);
                  ("methodology", repr_opt m)]) ∧
  (∀ r, (predict C order test uil m st).1 = Ok r →
        _yaml_report (self (predict C order test uil m st).2)
          = Some [("mode", "score_prediction"); ("methodology", repr_opt m)]).
Proof.
  rewrite (rank_eq C), (predict_eq C).
  destruct (decide (registry st = ∅)).
  { split_and!; try done; apply same_but_log_and_report_refl. }
  destruct (heap st !! algorithm (self st)) as [base|].
  2:{ split_and!; try done; apply same_but_log_and_report_refl. }
  destruct (gather (user_part st NotRankingAlg _) _ _) as [[r1|e1] w1];
    destruct (gather (user_part st NotPredictionAlg _) _ _) as [[r2|e2] w2]; simpl.
  all: split_and!; try done.
  all: try (split_and!; try done; by eexists).
Qed.

(** *** The fused loops: registry, objects, exceptions *)

Lemma live_base_copy_step st st1 u :
  is_Some (heap st !! algorithm (self st)) → copy_step st st1 u →
  is_Some (heap st1 !! algorithm (self st1)).
Proof.
  intros [b Hb] (-> & [a ->] & _). exists b. by apply lookup_app_l_Some.
Qed.

Lemma live_base_shared_step st st1 :
  is_Some (heap st !! algorithm (self st)) → shared_step st st1 →
  is_Some (heap st1 !! algorithm (self st1)).
Proof.
  intros Hb (-> & Hlen & _). apply lookup_lt_is_Some. rewrite Hlen.
  by apply lookup_lt_is_Some.
Qed.

Lemma fit_in_loop_live save_fit loaded u st :
  is_Some (heap st !! algorithm (self st)) →
  is_Some (heap (fit_in_loop C save_fit loaded u (train_of st u) st).2
             !! algorithm (self (fit_in_loop C save_fit loaded u (train_of st u) st).2)).
Proof.
  intros Hb. destruct save_fit.
  - eapply live_base_copy_step; [done|]. by apply fit_in_loop_true_copy_step.
  - eapply live_base_shared_step; [done|]. by apply fit_in_loop_false_shared_step.
Qed.

(** Without [save_fit] the recommender itself is not written to. *)
Lemma fit_in_loop_false_self loaded u st :
  is_Some (heap st !! algorithm (self st)) →
  self (fit_in_loop C false loaded u (train_of st u) st).2 = self st.
Proof.
  intros [b Hb]. rewrite (fit_in_loop_false_eq C _ _ _ b) by done. cbv zeta.
  by destruct ((attempt st b loaded u (entropy st)).2) as [[]|].
Qed.

Lemma fit_in_loop_false_objects loaded u st :
  is_Some (heap st !! algorithm (self st)) →
  ∀ l, l ≠ algorithm (self st) →
       heap (fit_in_loop C false loaded u (train_of st u) st).2 !! l = heap st !! l.
Proof.
  intros [b Hb] l Hl. rewrite (fit_in_loop_false_eq C _ _ _ b) by done. cbv zeta.
  destruct ((attempt st b loaded u (entropy st)).2) as [[]|]; simpl;
    by rewrite list_lookup_insert_ne.
Qed.

Lemma fused_body_live test n m save_fit loaded acc v st :
  is_Some (heap st !! algorithm (self st)) →
  is_Some (heap (fit_predict_user C test m save_fit loaded acc v st).2
             !! algorithm (self (fit_predict_user C test m save_fit loaded acc v st).2)) ∧
  is_Some (heap (fit_rank_user C test n m save_fit loaded acc v st).2
             !! algorithm (self (fit_rank_user C test n m save_fit loaded acc v st).2)).
Proof.
  intros Hb. rewrite fit_predict_user_state, fit_rank_user_state.
  split; by apply fit_in_loop_live.
Qed.

Lemma unsaved_run_refl st : unsaved_run st st.
Proof. by split_and!. Qed.

Lemma unsaved_run_trans st1 st2 st3 :
  unsaved_run st1 st2 → unsaved_run st2 st3 → unsaved_run st1 st3.
Proof.
  intros (Ha & Hr & Hl & Ho) (Ha' & Hr' & Hl' & Ho'). split_and!; try congruence.
  intros l Hl1. rewrite Ho' by congruence. by apply Ho.
Qed.

Lemma unsaved_step loaded u st :
  is_Some (heap st !! algorithm (self st)) →
  unsaved_run st (fit_in_loop C false loaded u (train_of st u) st).2.
Proof.
  intros Hb. pose proof (fit_in_loop_false_self loaded u st Hb) as Hself.
  destruct (fit_in_loop_false_shared_step C loaded u st Hb) as (_ & Hlen & _).
  split_and!; [by rewrite Hself|unfold registry; by rewrite Hself|done|].
  by apply fit_in_loop_false_objects.
Qed.

Lemma unsaved_loops test n m loaded us acc st :
  is_Some (heap st !! algorithm (self st)) →
  unsaved_run st (for_loop (fit_predict_user C test m false loaded) us acc st).2 ∧
  unsaved_run st (for_loop (fit_rank_user C test n m false loaded) us acc st).2.
Proof.
  intros Hb. split.
  - apply (for_loop_rel (λ s, is_Some (heap s !! algorithm (self s))) unsaved_run);
      [apply unsaved_run_refl|apply unsaved_run_trans| |done].
    intros k x s Hs.
    split; [|exact (proj1 (fused_body_live test n m false loaded k x s Hs))].
    rewrite fit_predict_user_state. by apply unsaved_step.
  - apply (for_loop_rel (λ s, is_Some (heap s !! algorithm (self s))) unsaved_run);
      [apply unsaved_run_refl|apply unsaved_run_trans| |done].
    intros k x s Hs.
    split; [|exact (proj2 (fused_body_live test n m false loaded k x s Hs))].
    rewrite fit_rank_user_state. by apply unsaved_step.
Qed.

Lemma unsaved_fused order test n uil m st :
  unsaved_run st (fit_predict C order test uil m false st).2 ∧
  unsaved_run st (fit_rank C order test n uil m false st).2.
Proof.
  destruct (heap st !! algorithm (self st)) as [b|] eqn:Hb.
  2:{ destruct (fused_dangling C order test n uil m false st Hb) as [-> ->].
      split; apply unsaved_run_refl. }
  rewrite (fit_predict_eq C _ _ _ _ _ _ b), (fit_rank_eq C _ _ _ _ _ _ _ b) by done.
  assert (is_Some (heap (with_log st loop_infos)
                     !! algorithm (self (with_log st loop_infos)))) as Hb' by (by exists b).
  destruct (unsaved_loops test n m (loaded_for st b) (order (all_users test uil)) []
              _ Hb') as [Hp Hr].
  split.
  - destruct (for_loop (fit_predict_user _ _ _ _ _) _ _ _) as [[r|e] stL]; exact Hp.
  - destruct (for_loop (fit_rank_user _ _ _ _ _ _) _ _ _) as [[r|e] stL]; exact Hr.
Qed.

Lemma predict_guard order test uil m st :
  registry st = ∅ → (predict C order test uil m st).1 = Raise (NotFittedAlg not_fitted_msg).
Proof. intros He. rewrite (predict_eq C). by rewrite decide_True. Qed.

Lemma rank_guard order test n uil m st :
  registry st = ∅ → (rank C order test n uil m st).1 = Raise (NotFittedAlg not_fitted_msg).
Proof. intros He. rewrite (rank_eq C). by rewrite decide_True. Qed.

Lemma predict_past_guard order test uil m st msg :
  registry st ≠ ∅ → (predict C order test uil m st).1 ≠ Raise (NotFittedAlg msg).
Proof.
  intros Hne. rewrite (predict_eq C). rewrite decide_False by done.
  destruct (heap st !! _) as [base|]; [|done].
  destruct (gather _ _ _) as [[records|e] w] eqn:Hg; [done|].
  apply gather_raise in Hg. simpl. naive_solver.
Qed.

Lemma rank_past_guard order test n uil m st msg :
  registry st ≠ ∅ → (rank C order test n uil m st).1 ≠ Raise (NotFittedAlg msg).
Proof.
  intros Hne. rewrite (rank_eq C). rewrite decide_False by done.
  destruct (heap st !! _) as [base|]; [|done].
  destruct (gather _ _ _) as [[records|e] w] eqn:Hg; [done|].
  apply gather_raise in Hg. simpl. naive_solver.
Qed.

(** X2: [fit_predict] and [fit_rank] called with [save_fit=False] leave the
    registry as it was, whatever their outcome; a recommender that was not
    fitted is not fitted afterwards, and a [predict] or [rank] that follows
    raises [NotFittedAlg]. *)
Theorem unsaved_fit_leaves_registry order order' test test' n n' uil uil' m m' st :
  registry (fit_predict C order test uil m false st).2 = registry st ∧
  registry (fit_rank C order test n uil m false st).2 = registry st ∧
  (registry st = ∅ →
   (predict C order' test' uil' m' (fit_predict C order test uil m false st).2).1
     = Raise (NotFittedAlg not_fitted_msg) ∧
   (rank C order' test' n' uil' m' (fit_rank C order test n uil m false st).2).1
     = Raise (NotFittedAlg not_fitted_msg)).
Proof.
  destruct (unsaved_fused order test n uil m st) as [(_ & Hp & _) (_ & Hr & _)].
  split_and!; [done|done|]. intros He.
  split; [apply predict_guard|apply rank_guard]; congruence.
Qed.

(** X3: fitting never removes or changes an object that exists: [fit], and
    [fit_predict] and [fit_rank] with [save_fit=True], only add objects, so
    the base algorithm and the models of earlier fits stay as they are;
    with [save_fit=False] no object is added and the only object that can
    change is the base algorithm. *)
Theorem fitting_keeps_existing_objects order order' test n uil m st :
  (∃ added, heap (fit C order st).2 = heap st ++ added) ∧
  (∃ added, heap (fit_predict C order' test uil m true st).2 = heap st ++ added) ∧
  (∃ added, heap (fit_rank C order' test n uil m true st).2 = heap st ++ added) ∧
  (length (heap (fit_predict C order' test uil m false st).2) = length (heap st) ∧
   ∀ l, l ≠ algorithm (self st) →
        heap (fit_predict C order' test uil m false st).2 !! l = heap st !! l) ∧
  (length (heap (fit_rank C order' test n uil m false st).2) = length (heap st) ∧
   ∀ l, l ≠ algorithm (self st) →
        heap (fit_rank C order' test n uil m false st).2 !! l = heap st !! l).
Proof.
  destruct (unsaved_fused order' test n uil m st) as [(_ & _ & Hp) (_ & _ & Hr)].
  split; [|split; [|split; [|split; [exact Hp|exact Hr]]]].
  - rewrite (fit_eq C). destruct (heap st !! algorithm (self st)) as [b|] eqn:Hb.
    2:{ exists []. by rewrite app_nil_r. }
    refine (proj1 (proj2 (copy_loop C _ id _ _ tt st _))); [|by exists b].
    intros k x s Hs. destruct k. by apply fit_user_copy_step.
  - destruct (heap st !! algorithm (self st)) as [b|] eqn:Hb.
    2:{ destruct (fused_dangling C order' test n uil m true st Hb) as [-> _].
        exists []. by rewrite app_nil_r. }
    destruct (fit_predict_final C order' test uil m true st b Hb) as [_ ->].
    refine (proj1 (proj2 (copy_loop C _ str _ _ [] (with_log st loop_infos) _)));
      [|by exists b].
    intros k x s Hs. rewrite fit_predict_user_state. by apply fit_in_loop_true_copy_step.
  - destruct (heap st !! algorithm (self st)) as [b|] eqn:Hb.
    2:{ destruct (fused_dangling C order' test n uil m true st Hb) as [_ ->].
        exists []. by rewrite app_nil_r. }
    destruct (fit_rank_final C order' test n uil m true st b Hb) as [_ ->].
    refine (proj1 (proj2 (copy_loop C _ str _ _ [] (with_log st loop_infos) _)));
      [|by exists b].
    intros k x s Hs. rewrite fit_rank_user_state. by apply fit_in_loop_true_copy_step.
Qed.

End MoreContentBased.

(** ** ContentBasedRS: what fitting writes to the registry *)

Section RegistryWrites.
Context (C : ContentBasedAlgorithm).
Import ContentBasedRS.

Implicit Types (st : state C) (v : pyval) (u : string).

Lemma writes_only_refl us st : writes_only us st st.
Proof. by split. Qed.

Lemma writes_only_trans us1 us2 st1 st2 st3 :
  writes_only us1 st1 st2 → writes_only us2 st2 st3 → writes_only (us1 ++ us2) st1 st3.
Proof.
  intros [Hd1 Hk1] [Hd2 Hk2]. split; [set_solver|].
  intros u Hu. rewrite Hk2, Hk1; [done|set_solver..].
Qed.

Lemma writes_only_insert st st' u o :
  registry st' = <[u := o]> (registry st) → writes_only [u] st st'.
Proof.
  intros Hr. split; rewrite Hr; [set_solver|].
  intros u' Hu'. apply lookup_insert_ne. set_solver.
Qed.

Lemma writes_only_same us st st' : registry st' = registry st → writes_only us st st'.
Proof. intros Hr. by split; rewrite Hr. Qed.

(** One step of [fit]. *)
Lemma fit_user_writes loaded (k : unit) u st :
  live st → writes_only [u] st (fit_user C loaded k u st).2.
Proof.
  intros [b Hb]. destruct k.
  destruct (fit_user_step C loaded u st b Hb)
    as (r & st1 & -> & _ & _ & _ & _ & _ & _ & _ & Hkind).
  destruct (kind_of _); destruct Hkind as [_ Hreg]; simpl.
  - by eapply writes_only_insert.
  - by eapply writes_only_insert.
  - by apply writes_only_same.
Qed.

Lemma fit_user_extends loaded (k : unit) u st :
  live st → extends st (fit_user C loaded k u st).2.
Proof.
  intros [b Hb]. destruct k.
  destruct (fit_user_step C loaded u st b Hb)
    as (r & st1 & -> & ? & ? & ? & ? & ? & ? & ? & _).
  split_and!; try done; try by eexists. simpl. lia.
Qed.

(** One step of [fit_predict] or [fit_rank] with [save_fit=True]. *)
Lemma fit_in_loop_true_registry loaded u st b :
  heap st !! algorithm (self st) = Some b →
  registry (fit_in_loop C true loaded u (train_of st u) st).2 =
  <[u := match (attempt st b loaded u (entropy st)).2 with
         | Some (UserSkipAlgFit _) => None
         | _ => Some (length (heap st))
         end]> (registry st).
Proof.
  intros Hb. rewrite (fit_in_loop_true_eq C _ _ _ b) by done. cbv zeta.
  destruct ((attempt st b loaded u (entropy st)).2) as [[]|]; try done.
  unfold registry; simpl. by rewrite insert_insert_eq.
Qed.

Lemma fit_in_loop_true_heap loaded u st b :
  heap st !! algorithm (self st) = Some b →
  heap (fit_in_loop C true loaded u (train_of st u) st).2 =
  heap st ++ [(attempt st b loaded u (entropy st)).1].
Proof.
  intros Hb. rewrite (fit_in_loop_true_eq C _ _ _ b) by done. cbv zeta.
  assert (∀ (h : list (instance C)) a a', <[length h := a']> (h ++ [a]) = h ++ [a']) as Hins.
  { intros h a a'. rewrite insert_app_r_alt by done. by rewrite Nat.sub_diag. }
  destruct ((attempt st b loaded u (entropy st)).2) as [[]|]; simpl; apply Hins.
Qed.

Lemma fit_in_loop_true_extends loaded u st :
  live st → extends st (fit_in_loop C true loaded u (train_of st u) st).2.
Proof.
  intros [b Hb]. pose proof (fit_in_loop_true_heap loaded u st b Hb) as Hheap.
  revert Hheap. rewrite (fit_in_loop_true_eq C _ _ _ b) by done. cbv zeta.
  destruct ((attempt st b loaded u (entropy st)).2) as [[]|]; simpl; intros Hheap.
  all: split_and!; try done; try (by eexists); simpl;
    try (case_match; lia); try (by exists []; rewrite app_nil_r);
    try (rewrite <-app_assoc; by eexists).
Qed.

Lemma fit_in_loop_true_writes loaded u st :
  live st → writes_only [u] st (fit_in_loop C true loaded u (train_of st u) st).2.
Proof.
  intros [b Hb]. eapply writes_only_insert. by apply fit_in_loop_true_registry.
Qed.

Lemma fit_in_loop_writes save_fit loaded u st :
  live st → writes_only [u] st (fit_in_loop C save_fit loaded u (train_of st u) st).2.
Proof.
  intros Hb. destruct save_fit; [by apply fit_in_loop_true_writes|].
  apply writes_only_same. unfold registry. by rewrite fit_in_loop_false_self.
Qed.

(** The loops. *)
Lemma writes_loop {X B} (body : B → X → M (state C) B) (user : X → string) :
  (∀ k x st, live st → writes_only [user x] st (body k x st).2 ∧ live (body k x st).2) →
  ∀ xs k st, live st → writes_only (user <$> xs) st (for_loop body xs k st).2.
Proof.
  intros Hstep. induction xs as [|x xs IH]; intros k st Hb; simpl.
  - apply writes_only_refl.
  - destruct (Hstep k x st Hb) as [Hw Hl]. unfold bind.
    destruct (body k x st) as [[k'|e] st1]; simpl in *.
    + apply (writes_only_trans [user x] (user <$> xs) st st1); [exact Hw|]. by apply IH.
    + destruct Hw as [Hd Hk]. split; [done|]. intros u Hu. apply Hk. set_solver.
Qed.

Lemma extends_loop {X B} (body : B → X → M (state C) B) :
  (∀ k x st, live st → extends st (body k x st).2 ∧ live (body k x st).2) →
  ∀ xs k st, live st → extends st (for_loop body xs k st).2.
Proof.
  intros Hstep.
  apply (for_loop_rel live extends); [apply extends_refl|apply extends_trans|done].
Qed.

Lemma fit_user_live loaded (k : unit) u st : live st → live (fit_user C loaded k u st).2.
Proof.
  intros Hb. eapply live_base_copy_step; [done|]. by apply fit_user_copy_step.
Qed.


Lemma fused_true_step test n m loaded acc v st :
  live st →
  (writes_only [str v] st (fit_predict_user C test m true loaded acc v st).2 ∧
   live (fit_predict_user C test m true loaded acc v st).2 ∧
   extends st (fit_predict_user C test m true loaded acc v st).2) ∧
  (writes_only [str v] st (fit_rank_user C test n m true loaded acc v st).2 ∧
   live (fit_rank_user C test n m true loaded acc v st).2 ∧
   extends st (fit_rank_user C test n m true loaded acc v st).2).
Proof.
  intros Hb. rewrite fit_predict_user_state, fit_rank_user_state.
  pose proof (fit_in_loop_true_writes loaded (str v) st Hb).
  pose proof (fit_in_loop_live C true loaded (str v) st Hb).
  pose proof (fit_in_loop_true_extends loaded (str v) st Hb). done.
Qed.

Lemma fused_step_writes test n m save_fit loaded acc v st :
  live st →
  (writes_only [str v] st (fit_predict_user C test m save_fit loaded acc v st).2 ∧
   live (fit_predict_user C test m save_fit loaded acc v st).2) ∧
  (writes_only [str v] st (fit_rank_user C test n m save_fit loaded acc v st).2 ∧
   live (fit_rank_user C test n m save_fit loaded acc v st).2).
Proof.
  intros Hb. rewrite fit_predict_user_state, fit_rank_user_state.
  pose proof (fit_in_loop_writes save_fit loaded (str v) st Hb).
  pose proof (fit_in_loop_live C save_fit loaded (str v) st Hb). done.
Qed.

Lemma writes_only_with_log us st st' w :
  writes_only us (with_log st w) st' → writes_only us st st'.
Proof. done. Qed.

Lemma writes_only_with_report us st st' r :
  writes_only us st st' → writes_only us st (with_report st' r).
Proof. done. Qed.

(** X4: fitting removes no key from the registry and writes only the keys
    of the users it iterates over, whatever its outcome: [fit] those of the
    train set, [fit_predict] and [fit_rank] the string forms of the evaluated
    users. The entry of every other user is the one from before the call. *)
Theorem fitting_writes_only_its_users order order' test n uil m save_fit st :
  writes_only (order (user_id_column (train_set (self st)))) st (fit C order st).2 ∧
  writes_only (str <$> order' (all_users test uil)) st
    (fit_predict C order' test uil m save_fit st).2 ∧
  writes_only (str <$> order' (all_users test uil)) st
    (fit_rank C order' test n uil m save_fit st).2.
Proof.
  destruct (heap st !! algorithm (self st)) as [b|] eqn:Hb.
  2:{ rewrite (fit_eq C), Hb.
      destruct (fused_dangling C order' test n uil m save_fit st Hb) as [-> ->].
      split_and!; apply writes_only_refl. }
  assert (live st) as Hlive by (by exists b).
  split_and!.
  - rewrite (fit_eq C), Hb.
    rewrite <-(list_fmap_id (order _)) at 1.
    apply (writes_loop _ id); [|done].
    intros k x s Hs. split; [by apply fit_user_writes|by apply fit_user_live].
  - rewrite (fit_predict_eq C _ _ _ _ _ _ b) by done.
    pose proof (writes_loop (fit_predict_user C test m save_fit (loaded_for st b)) str
                  (λ k x s Hs, proj1 (fused_step_writes test n m save_fit _ k x s Hs))
                  (order' (all_users test uil)) [] (with_log st loop_infos) Hlive) as Hw.
    destruct (for_loop _ _ _ _) as [[r|e] stL]; exact Hw.
  - rewrite (fit_rank_eq C _ _ _ _ _ _ _ b) by done.
    pose proof (writes_loop (fit_rank_user C test n m save_fit (loaded_for st b)) str
                  (λ k x s Hs, proj2 (fused_step_writes test n m save_fit _ k x s Hs))
                  (order' (all_users test uil)) [] (with_log st loop_infos) Hlive) as Hw.
    destruct (for_loop _ _ _ _) as [[r|e] stL]; exact Hw.
Qed.

(** *** What escapes the [try] blocks *)

Lemma fit_user_raise loaded (k : unit) u st e :
  live st → (fit_user C loaded k u st).1 = Raise e → ∀ msg, e ≠ UserSkipAlgFit msg.
Proof.
  intros [b Hb]. destruct k. rewrite (fit_user_eq C _ _ _ b) by done. cbv zeta.
  destruct ((attempt st b loaded u (entropy st)).2) as [[]|]; simpl; by intros [= <-].
Qed.

Lemma fit_in_loop_raise save_fit loaded u st e :
  live st → (fit_in_loop C save_fit loaded u (train_of st u) st).1 = Raise e →
  ∀ msg, e ≠ UserSkipAlgFit msg.
Proof.
  intros [b Hb]. destruct save_fit.
  - rewrite (fit_in_loop_true_eq C _ _ _ b) by done. cbv zeta.
    destruct ((attempt st b loaded u (entropy st)).2) as [[]|]; simpl; by intros [= <-].
  - rewrite (fit_in_loop_false_eq C _ _ _ b) by done. cbv zeta.
    destruct ((attempt st b loaded u (entropy st)).2) as [[]|]; simpl; by intros [= <-].
Qed.

(** What a step of [fit_predict] raises was raised by the [try] block or
    by the call to [predict] that follows it. *)
Lemma fit_predict_user_raise test m save_fit loaded acc v st e :
  (fit_predict_user C test m save_fit loaded acc v st).1 = Raise e →
  (fit_in_loop C save_fit loaded (str v) (train_of st (str v)) st).1 = Raise e ∨
  (∃ alg, (fit_in_loop C save_fit loaded (str v) (train_of st (str v)) st).1 = Ok (Some alg) ∧
          (e = NotPredictionAlg ∨
           e = DanglingReference ∧
           heap (fit_in_loop C save_fit loaded (str v) (train_of st (str v)) st).2 !! alg
             = None)).
Proof.
  unfold fit_predict_user. unfold bind at 1. unfold gets at 1. unfold bind at 1.
  fold (train_of st (str v)).
  destruct (fit_in_loop C save_fit loaded (str v) (train_of st (str v)) st)
    as [[[alg|]|e'] st1]; simpl; [|by unfold ret|intros [= ->]; by left].
  unfold candidate_filter, call_predict, deref, bind, gets, ret, raise.
  intros He. right. exists alg. split; [done|].
  destruct (heap st1 !! alg); simpl in He; [|right; by simplify_eq].
  destruct (Algorithm.predict _ _ _ _ _); simpl in He; [done|left; by simplify_eq].
Qed.

Lemma fit_rank_user_raise test n m save_fit loaded acc v st e :
  (fit_rank_user C test n m save_fit loaded acc v st).1 = Raise e →
  (fit_in_loop C save_fit loaded (str v) (train_of st (str v)) st).1 = Raise e ∨
  (∃ alg, (fit_in_loop C save_fit loaded (str v) (train_of st (str v)) st).1 = Ok (Some alg) ∧
          (e = NotRankingAlg ∨
           e = DanglingReference ∧
           heap (fit_in_loop C save_fit loaded (str v) (train_of st (str v)) st).2 !! alg
             = None)).
Proof.
  unfold fit_rank_user. unfold bind at 1. unfold gets at 1. unfold bind at 1.
  fold (train_of st (str v)).
  destruct (fit_in_loop C save_fit loaded (str v) (train_of st (str v)) st)
    as [[[alg|]|e'] st1]; simpl; [|by unfold ret|intros [= ->]; by left].
  unfold candidate_filter, call_rank, deref, bind, gets, ret, raise.
  intros He. right. exists alg. split; [done|].
  destruct (heap st1 !! alg); simpl in He; [|right; by simplify_eq].
  destruct (Algorithm.rank _ _ _ _ _ _); simpl in He; [done|left; by simplify_eq].
Qed.

(** X5: a [UserSkipAlgFit] raised by [process_rated] or [fit] for a user
    never reaches the caller of [fit], [fit_predict] or [fit_rank]: the
    [except] clause of the loop takes it, for every user and with or
    without [save_fit]. *)
Theorem skip_never_escapes order order' test n uil m save_fit st msg :
  (fit C order st).1 ≠ Raise (UserSkipAlgFit msg) ∧
  (fit_predict C order' test uil m save_fit st).1 ≠ Raise (UserSkipAlgFit msg) ∧
  (fit_rank C order' test n uil m save_fit st).1 ≠ Raise (UserSkipAlgFit msg).
Proof.
  destruct (heap st !! algorithm (self st)) as [b|] eqn:Hb.
  2:{ rewrite (fit_eq C), Hb.
      destruct (fused_dangling_eq C order' test n uil m save_fit st Hb) as [-> ->]. done. }
  assert (live st) as Hlive by (by exists b).
  split_and!.
  - rewrite (fit_eq C), Hb. intros Hr.
    eapply (for_loop_raise live (λ e, ∀ msg, e ≠ UserSkipAlgFit msg)); [| |exact Hlive|exact Hr|done].
    + intros. by apply fit_user_live.
    + intros k x s e Hs. by apply fit_user_raise.
  - rewrite (fit_predict_eq C _ _ _ _ _ _ b) by done.
    destruct (for_loop _ _ _ _) as [[r|e] stL] eqn:Hloop; [done|]. simpl. intros [= ->].
    eapply (for_loop_raise live (λ e, ∀ msg, e ≠ UserSkipAlgFit msg)
              (fit_predict_user C test m save_fit (loaded_for st b)));
      [| | |by rewrite Hloop|done]; [| |exact Hlive].
    + intros k x s Hs.
      exact (proj2 (proj1 (fused_step_writes test n m save_fit _ k x s Hs))).
    + intros k x s e Hs [He|(alg & _ & [->| [-> _]])]%fit_predict_user_raise; try done.
      by eapply fit_in_loop_raise.
  - rewrite (fit_rank_eq C _ _ _ _ _ _ _ b) by done.
    destruct (for_loop _ _ _ _) as [[r|e] stL] eqn:Hloop; [done|]. simpl. intros [= ->].
    eapply (for_loop_raise live (λ e, ∀ msg, e ≠ UserSkipAlgFit msg)
              (fit_rank_user C test n m save_fit (loaded_for st b)));
      [| | |by rewrite Hloop|done]; [| |exact Hlive].
    + intros k x s Hs.
      exact (proj2 (proj2 (fused_step_writes test n m save_fit _ k x s Hs))).
    + intros k x s e Hs [He|(alg & _ & [->| [-> _]])]%fit_rank_user_raise; try done.
      by eapply fit_in_loop_raise.
Qed.

End RegistryWrites.

(** ** ContentBasedRS: fitting, then recommending *)

Section FitThenRecommend.
Context (C : ContentBasedAlgorithm).
Import ContentBasedRS.

Implicit Types (st : state C) (v : pyval) (u : string).

Lemma extends_length st st' : extends st st' → length (heap st) ≤ length (heap st').
Proof. intros (_ & _ & _ & [added ->] & _). rewrite length_app. lia. Qed.

Lemma registered_new_mono st0 st st' st1 u :
  registered_new st st' u → extends st0 st → extends st' st1 →
  registry st1 !! u = registry st' !! u → registered_new st0 st1 u.
Proof.
  intros (o & Ho & Hl) H0%extends_length H1%extends_length Hreg.
  exists o. split; [congruence|]. intros l Hol. specialize (Hl l Hol). lia.
Qed.

(** A loop whose steps register their user has registered every user it
    ran over when it returns. *)
Lemma keys_loop {X B} (body : B → X → M (state C) B) (user : X → string) :
  (∀ k x st, live st →
     writes_only [user x] st (body k x st).2 ∧ live (body k x st).2 ∧
     extends st (body k x st).2 ∧
     (∀ r, (body k x st).1 = Ok r → registered_new st (body k x st).2 (user x))) →
  ∀ xs k st r st', live st → for_loop body xs k st = (Ok r, st') →
    ∀ x, x ∈ xs → registered_new st st' (user x).
Proof.
  intros Hstep. induction xs as [|x xs IH]; intros k st r st' Hb; simpl.
  { intros _ y Hy. by apply elem_of_nil in Hy. }
  unfold bind. destruct (Hstep k x st Hb) as (Hw & Hl & He & Hreg).
  destruct (body k x st) as [[k'|e] st1] eqn:Hbody; [|done]. simpl in *.
  intros Hloop y Hy.
  assert (extends st1 st') as Hext.
  { replace st' with (for_loop body xs k' st1).2 by (by rewrite Hloop).
    apply extends_loop; [|done]. intros k0 x0 s0 Hs0.
    destruct (Hstep k0 x0 s0 Hs0) as (_ & ? & ? & _). done. }
  destruct (decide (user y ∈ user <$> xs)) as [Hin|Hout].
  - apply list_elem_of_fmap in Hin as (y' & Heq & Hy'). rewrite Heq.
    eapply (registered_new_mono st st1 st' st'); [by eapply IH|done|apply extends_refl|done].
  - assert (y = x) as ->.
    { apply elem_of_cons in Hy as [->|Hy]; [done|].
      destruct Hout. apply list_elem_of_fmap. eauto. }
    eapply (registered_new_mono st st st1 st'); [by eapply Hreg|apply extends_refl|done|].
    assert (writes_only (user <$> xs) st1 (for_loop body xs k' st1).2) as [_ Hk].
    { apply writes_loop; [|done]. intros k0 x0 s0 Hs0.
      destruct (Hstep k0 x0 s0 Hs0) as (? & ? & _). done. }
    rewrite Hloop in Hk. by apply Hk.
Qed.

Lemma fit_user_registers loaded (k : unit) u st r :
  live st → (fit_user C loaded k u st).1 = Ok r →
  registered_new st (fit_user C loaded k u st).2 u.
Proof.
  intros [b Hb]. destruct k. rewrite (fit_user_eq C _ _ _ b) by done. cbv zeta.
  destruct ((attempt st b loaded u (entropy st)).2) as [[]|]; simpl; try done; intros _.
  - exists None. split; [apply lookup_insert_eq|done].
  - exists (Some (length (heap st))). split; [apply lookup_insert_eq|].
    intros l [= <-].
    change (heap (with_entry ?s _ _)) with (heap s).
    rewrite (fit_calls_copied_heap C), length_app. simpl. lia.
Qed.

Lemma fit_in_loop_true_registers loaded u st :
  live st → registered_new st (fit_in_loop C true loaded u (train_of st u) st).2 u.
Proof.
  intros [b Hb]. unfold registered_new.
  rewrite (fit_in_loop_true_registry C loaded u st b Hb).
  rewrite (fit_in_loop_true_heap C loaded u st b Hb).
  eexists. split; [apply lookup_insert_eq|].
  intros l Hl. rewrite length_app. simpl.
  destruct ((attempt st b loaded u (entropy st)).2) as [[]|]; simplify_eq; lia.
Qed.

Lemma fit_loop_registers loaded us (k : unit) st r st' :
  live st → for_loop (fit_user C loaded) us k st = (Ok r, st') →
  ∀ u, u ∈ us → registered_new st st' u.
Proof.
  intros Hb Hloop u Hu.
  apply (keys_loop (fit_user C loaded) id) with (xs := us) (k := k) (r := r); try done.
  intros k0 x s Hs. split_and!.
  - by apply fit_user_writes.
  - by apply fit_user_live.
  - by apply fit_user_extends.
  - intros r0. by apply fit_user_registers.
Qed.

Lemma fused_true_loops_register test n m loaded us acc st r st' :
  live st →
  (for_loop (fit_predict_user C test m true loaded) us acc st = (Ok r, st') →
   ∀ v, v ∈ us → registered_new st st' (str v)) ∧
  (for_loop (fit_rank_user C test n m true loaded) us acc st = (Ok r, st') →
   ∀ v, v ∈ us → registered_new st st' (str v)).
Proof.
  intros Hb. split; intros Hloop v Hv.
  - apply (keys_loop (fit_predict_user C test m true loaded) str)
      with (xs := us) (k := acc) (r := r); try done.
    intros k0 x s Hs.
    destruct (fused_true_step C test n m loaded k0 x s Hs) as [(? & ? & ?) _].
    split_and!; try done. intros _ _. rewrite fit_predict_user_state.
    by apply fit_in_loop_true_registers.
  - apply (keys_loop (fit_rank_user C test n m true loaded) str)
      with (xs := us) (k := acc) (r := r); try done.
    intros k0 x s Hs.
    destruct (fused_true_step C test n m loaded k0 x s Hs) as [_ (? & ? & ?)].
    split_and!; try done. intros _ _. rewrite fit_rank_user_state.
    by apply fit_in_loop_true_registers.
Qed.

Lemma registered_new_nonempty st st' u : registered_new st st' u → registry st' ≠ ∅.
Proof. intros (o & Ho & _) He. rewrite He in Ho. by rewrite lookup_empty in Ho. Qed.

Lemma set_iteration_nil {X} (l us : list X) : l = [] → set_iteration l us → us = [].
Proof.
  intros -> [_ Hel]. destruct us as [|x us]; [done|].
  exfalso. eapply not_elem_of_nil, Hel. left.
Qed.

(** After a [fit] that returned, the registry is empty only if it was
    empty and there was no one to fit. *)
Lemma fit_returned_registry order st :
  set_iteration (user_id_column (train_set (self st)))
    (order (user_id_column (train_set (self st)))) →
  (fit C order st).1 = Ok tt →
  registry (fit C order st).2 = ∅ ↔ registry st = ∅ ∧ train_set (self st) = [].
Proof.
  intros Hset. rewrite (fit_eq C).
  destruct (heap st !! algorithm (self st)) as [b|] eqn:Hb; [|done].
  assert (live st) as Hlive by (by exists b).
  intros Hok%run_result.
  destruct (writes_loop C (fit_user C (loaded_for_fit st b)) id
              (λ k x s Hs, conj (fit_user_writes C _ k x s Hs) (fit_user_live C _ k x s Hs))
              (order (user_id_column (train_set (self st)))) tt st Hlive) as [Hdom Hkeep].
  rewrite list_fmap_id in Hkeep. split.
  - intros He. rewrite He, dom_empty_L in Hdom. split.
    + apply dom_empty_iff_L. set_solver.
    + destruct (train_set (self st)) as [|i t] eqn:Ht; [done|]. exfalso.
      assert (user_id i ∈ order (user_id_column (i :: t))) as Hi.
      { apply Hset. left. }
      eapply (registered_new_nonempty st); [|exact He].
      eapply fit_loop_registers; [exact Hlive|exact Hok|exact Hi].
  - intros [He Ht].
    assert (order (user_id_column (train_set (self st))) = []) as Hnil.
    { eapply set_iteration_nil; [|exact Hset]. by rewrite Ht. }
    apply map_eq. intros u. rewrite Hkeep; [by rewrite He|].
    rewrite Hnil. apply not_elem_of_nil.
Qed.

(** X6: after a [fit] that returned, [predict] and [rank] raise
    [NotFittedAlg] only in one case: the registry was empty before [fit] and
    the train set has no interaction. With an interaction in the train set,
    a [fit] that returns makes the recommender fitted. *)
Theorem fit_returns_then_fitted order order' test n uil m st :
  set_iteration (user_id_column (train_set (self st)))
    (order (user_id_column (train_set (self st)))) →
  (fit C order st).1 = Ok tt →
  ((∃ msg, (predict C order' test uil m (fit C order st).2).1 = Raise (NotFittedAlg msg))
     ↔ registry st = ∅ ∧ train_set (self st) = []) ∧
  ((∃ msg, (rank C order' test n uil m (fit C order st).2).1 = Raise (NotFittedAlg msg))
     ↔ registry st = ∅ ∧ train_set (self st) = []).
Proof.
  intros Hset Hok. rewrite <-(fit_returned_registry order st Hset Hok).
  split; split.
  - intros [msg Hr]. destruct (decide (registry (fit C order st).2 = ∅)) as [|Hne]; [done|].
    by apply (predict_past_guard C order' test uil m _ msg) in Hne.
  - intros He. eexists. by apply predict_guard.
  - intros [msg Hr]. destruct (decide (registry (fit C order st).2 = ∅)) as [|Hne]; [done|].
    by apply (rank_past_guard C order' test n uil m _ msg) in Hne.
  - intros He. eexists. by apply rank_guard.
Qed.

(** X7: [fit_predict] and [fit_rank] called with [save_fit=True] that
    return leave an entry for every user they ran over: [None], or a
    reference to an object made during the call. If they ran over a user at
    all, a [predict] or [rank] that follows does not raise [NotFittedAlg]. *)
Theorem saved_fit_registers_every_user order order' test test' n n' uil uil' m m' st :
  (∀ r, (fit_predict C order test uil m true st).1 = Ok r →
     (∀ v, v ∈ order (all_users test uil) →
           registered_new st (fit_predict C order test uil m true st).2 (str v)) ∧
     (order (all_users test uil) ≠ [] →
      ∀ msg, (predict C order' test' uil' m' (fit_predict C order test uil m true st).2).1
               ≠ Raise (NotFittedAlg msg))) ∧
  (∀ r, (fit_rank C order test n uil m true st).1 = Ok r →
     (∀ v, v ∈ order (all_users test uil) →
           registered_new st (fit_rank C order test n uil m true st).2 (str v)) ∧
     (order (all_users test uil) ≠ [] →
      ∀ msg, (rank C order' test' n' uil' m' (fit_rank C order test n uil m true st).2).1
               ≠ Raise (NotFittedAlg msg))).
Proof.
  destruct (heap st !! algorithm (self st)) as [b|] eqn:Hb.
  2:{ destruct (fused_dangling_eq C order test n uil m true st Hb) as [-> ->]. done. }
  assert (live (with_log st loop_infos)) as Hlive by (by exists b).
  split; intros r Hok.
  - assert (∀ v, v ∈ order (all_users test uil) →
              registered_new st (fit_predict C order test uil m true st).2 (str v)) as Hreg.
    { revert Hok. rewrite (fit_predict_eq C _ _ _ _ _ _ b) by done.
      destruct (for_loop _ _ _ _) as [[r'|e] stL] eqn:Hloop; [|done]. intros _ v Hv.
      by apply (proj1 (fused_true_loops_register test n m _ _ _ _ _ _ Hlive) Hloop v Hv). }
    split; [done|]. intros Hne msg.
    destruct (order (all_users test uil)) as [|v us] eqn:Hus; [done|].
    apply predict_past_guard. eapply registered_new_nonempty, (Hreg v). left.
  - assert (∀ v, v ∈ order (all_users test uil) →
              registered_new st (fit_rank C order test n uil m true st).2 (str v)) as Hreg.
    { revert Hok. rewrite (fit_rank_eq C _ _ _ _ _ _ _ b) by done.
      destruct (for_loop _ _ _ _) as [[r'|e] stL] eqn:Hloop; [|done]. intros _ v Hv.
      by apply (proj2 (fused_true_loops_register test n m _ _ _ _ _ _ Hlive) Hloop v Hv). }
    split; [done|]. intros Hne msg.
    destruct (order (all_users test uil)) as [|v us] eqn:Hus; [done|].
    apply rank_past_guard. eapply registered_new_nonempty, (Hreg v). left.
Qed.

End FitThenRecommend.

(** ** ContentBasedRS: a user whose fit fails *)

Section FailedFit.
Context (C : ContentBasedAlgorithm).
Import ContentBasedRS.

Implicit Types (st : state C) (v : pyval) (u : string).





End FailedFit.

(** ** ContentBasedRS: the records of a result *)

Section ResultRecords.
Context (C : ContentBasedAlgorithm).
Import ContentBasedRS.

Implicit Types (st : state C) (v : pyval) (u : string).

(** In the concatenation of the parts of users with different string
    forms, the records of a user are its part. *)
Lemma user_records_concat_at (us : list pyval) (parts : list (list Interaction)) :
  Forall2 (λ v p, ∀ i, i ∈ p → user_id i = str v) us parts →
  NoDup (str <$> us) →
  ∀ k v p, us !! k = Some v → parts !! k = Some p →
           user_records (concat parts) (str v) = p.
Proof.
  induction 1 as [|v0 p0 us parts Hown Hrest IH]; intros Hnd k v p Hv Hp; [done|].
  rewrite fmap_cons in Hnd. apply NoDup_cons in Hnd as [Hv0 Hnd].
  simpl. rewrite user_records_app. destruct k as [|k]; simpl in *.
  - simplify_eq. rewrite (user_records_own p) by done.
    rewrite (user_records_concat_foreign us parts); [by rewrite app_nil_r|done|done].
  - rewrite (user_records_foreign p0 (str v) (str v0)); [by eapply IH| |done].
    intros Heq. apply Hv0. rewrite <-Heq. apply list_elem_of_fmap_2.
    by eapply list_elem_of_lookup_2.
Qed.

Lemma predict_part_tags st test m base v p w :
  heap st !! algorithm (self st) = Some base →
  predict_call_tags_user st test m v →
  user_part st NotPredictionAlg (predict_call st test m (loaded_for st base)) v = (Ok p, w) →
  ∀ i, i ∈ p → user_id i = str v.
Proof.
  intros Hbase Htags. unfold user_part.
  destruct (dict_get _ _) as [alg|] eqn:Halg.
  2:{ intros [= <- _] i Hi. by apply elem_of_nil in Hi. }
  destruct (heap st !! alg) as [a|] eqn:Ha; [|done].
  destruct (predict_call _ _ _ _ _ _) as [p'|] eqn:Hcall; [|done].
  intros [= <- _]. by eapply Htags.
Qed.

(** X9: a container returned by [predict] holds, for every evaluated
    user, exactly the records that the call on the user's model returned, in
    the order returned (none for a user without a model), and no record of
    anyone else, provided the models tag their records with the user and no
    two evaluated identifiers have the same string form. *)
Theorem predict_gives_each_user_its_records order test uil m st records st' :
  set_iteration (all_users test uil) (order (all_users test uil)) →
  (∀ x y, x ∈ all_users test uil → y ∈ all_users test uil → str x = str y → x = y) →
  (∀ v, v ∈ all_users test uil → predict_call_tags_user st test m v) →
  predict C order test uil m st = (Ok records, st') →
  ∃ base, heap st !! algorithm (self st) = Some base ∧
    (∀ v, v ∈ all_users test uil →
          predicted_for st test m base v = Ok (user_records records (str v))) ∧
    (∀ u, u ∉ str <$> all_users test uil → user_records records u = []).
Proof.
  intros [Hnd Hel] Hinj Htags. rewrite (predict_eq C).
  case_decide; [done|].
  destruct (heap st !! algorithm (self st)) as [base|] eqn:Hbase; [|done].
  destruct (gather _ _ _) as [[rs|e] w] eqn:Hg; [|done].
  intros [= <- <-]. apply gather_parts in Hg as (parts & Hparts & ->).
  exists base. split; [done|]. simpl. unfold from_list.
  assert (Forall2 (λ v p, ∀ i, i ∈ p → user_id i = str v)
            (order (all_users test uil)) parts) as Hown.
  { eapply Forall2_impl_elem; [exact Hparts|].
    intros v p Hv (w' & Hp). eapply predict_part_tags; [done| |done].
    by apply Htags, Hel. }
  assert (NoDup (str <$> order (all_users test uil))) as Hnds.
  { apply NoDup_fmap_2_strong; [|done]. intros x y Hx Hy. apply Hinj; by apply Hel. }
  split.
  - intros v Hv%Hel. apply list_elem_of_lookup in Hv as [k Hk].
    destruct (Forall2_lookup_l _ _ _ _ _ Hparts Hk) as (p & Hp & w' & Hpart).
    unfold predicted_for. rewrite Hpart. simpl. f_equal. symmetry.
    by eapply user_records_concat_at.
  - intros u Hu. apply (user_records_concat_foreign (order (all_users test uil))); [done|].
    intros (v & -> & Hv)%list_elem_of_fmap. apply Hu, list_elem_of_fmap_2. by apply Hel.
Qed.

(** X10: with no user to run over, [fit_predict] and [fit_rank] return
    an empty container, set the report, and fit nothing: no call is made and
    the registry and the objects stay as they were. [predict] and [rank] do
    the same, but only past their guard: on an empty registry they raise
    [NotFittedAlg] even then. *)
Theorem no_users_no_records order test n uil m save_fit st b :
  heap st !! algorithm (self st) = Some b →
  set_iteration (all_users test uil) (order (all_users test uil)) →
  all_users test uil = [] →
  fit_predict C order test uil m save_fit st
    = (Ok [], with_report (with_log st loop_infos)
                [("mode", "score_prediction"); ("methodology", repr_opt m)]) ∧
  fit_rank C order test n uil m save_fit st
    = (Ok [], with_report (with_log st loop_infos)
                [("mode", "rank"); ("n_recs", repr_opt_int n);
                 ("methodology", repr_opt m)]) ∧
  predict C order test uil m st
    = (if decide (registry st = ∅) then (Raise (NotFittedAlg not_fitted_msg), st)
       else (Ok [], with_report (with_log st loop_infos)
                      [("mode", "score_prediction"); ("methodology", repr_opt m)])) ∧
  rank C order test n uil m st
    = (if decide (registry st = ∅) then (Raise (NotFittedAlg not_fitted_msg), st)
       else (Ok [], with_report (with_log st loop_infos)
                      [("mode", "rank"); ("n_recs", repr_opt_int n);
                       ("methodology", repr_opt m)])).
Proof.
  intros Hb Hset Hnil. apply (set_iteration_nil _ _ Hnil) in Hset.
  rewrite (fit_predict_eq C _ _ _ _ _ _ b), (fit_rank_eq C _ _ _ _ _ _ _ b) by done.
  rewrite (predict_eq C), (rank_eq C), Hb, Hset. simpl.
  split_and!; try done; case_decide; try done; by rewrite app_nil_r.
Qed.

End ResultRecords.

(** ** GraphBasedRS: errors and the warning of [rank] *)

Section MoreGraphFacts.
Context (G : GraphAlgorithm.GraphBasedAlgorithm).
Import GraphBasedRS.

Implicit Types (st : state G).

Lemma graph_predict_eq test uil m st :
  predict G test uil m st =
  let users := all_users test uil in
  let g := self_graph (self st) in
  let filter_dict :=
    match m with
    | None => None
    | Some m => Some (GraphAlgorithm.filter_all G m (GraphAlgorithm.to_ratings G g) test)
    end in
  match GraphAlgorithm.predict G users g filter_dict with
  | Raise e => (Raise e, st)
  | Ok records =>
      (Ok (from_list records),
       {| self := {| self_graph := g;
                     _yaml_report := Some [("graph", GraphAlgorithm.graph_repr G g);
                                           ("mode", "score_prediction");
                                           ("methodology", repr_opt m)] |};
          log := log st |})
  end.
Proof.
  unfold predict, batched_filter, call, set_yaml_report, bind, gets, modify, ret.
  cbv beta zeta. by destruct (GraphAlgorithm.predict G _ _ _).
Qed.

(** X11: [predict] and [rank] raise exactly what the algorithm raises, and
    then leave the recommender as it was: no report is written and nothing
    is logged. *)
Theorem graph_errors_pass_through test n uil m st e :
  ((predict G test uil m st).1 = Raise e ↔
   GraphAlgorithm.predict G (all_users test uil) (self_graph (self st))
     (match m with
      | None => None
      | Some m => Some (GraphAlgorithm.filter_all G m
                          (GraphAlgorithm.to_ratings G (self_graph (self st))) test)
      end) = Raise e) ∧
  ((rank G test n uil m st).1 = Raise e ↔
   GraphAlgorithm.rank G (all_users test uil) (self_graph (self st)) n
     (match m with
      | None => None
      | Some m => Some (GraphAlgorithm.filter_all G m
                          (GraphAlgorithm.to_ratings G (self_graph (self st))) test)
      end) = Raise e) ∧
  ((predict G test uil m st).1 = Raise e → (predict G test uil m st).2 = st) ∧
  ((rank G test n uil m st).1 = Raise e → (rank G test n uil m st).2 = st).
Proof.
  rewrite graph_predict_eq, graph_rank_eq. cbv zeta.
  destruct (GraphAlgorithm.predict G _ _ _) as [r1|e1];
    destruct (GraphAlgorithm.rank G _ _ _ _) as [r2|e2]; simpl; naive_solver.
Qed.

(** X12: the warning of [rank] goes by counts. When [rank] returns, it
    has logged at most one warning and kept the graph, and it has logged
    none exactly when the records are not empty and cover as many users as
    were asked for; which users they cover is not compared. *)
Theorem graph_rank_warning_is_by_count test n uil m st records st' :
  rank G test n uil m st = (Ok records, st') →
  self_graph (self st') = self_graph (self st) ∧
  (log st' = log st ∨ ∃ msg, log st' = log st ++ [LogWarning msg]) ∧
  (log st' = log st ↔
   records ≠ [] ∧ size (covered records) = size (all_users test uil)).
Proof.
  rewrite graph_rank_eq. cbv zeta.
  destruct (GraphAlgorithm.rank G _ _ _ _) as [rs|e]; [|done].
  intros [= <- <-]. simpl. unfold covered. rewrite size_list_to_set_PStr.
  assert (∀ x, log st ++ [x] ≠ log st) as Hne.
  { intros x Heq. apply (f_equal length) in Heq. rewrite length_app in Heq. simpl in Heq. lia. }
  unfold from_list. split; [done|].
  destruct (decide (length rs = 0)) as [Hz|Hnz].
  - split; [right; by eexists|]. split; [by intros ?%Hne|].
    intros [Hrs _]. by destruct rs.
  - assert (rs ≠ []) by (by intros ->).
    case_decide as Hsz.
    + split; [right; by eexists|]. split; [by intros ?%Hne|]. by intros [_ ?].
    + rewrite app_nil_r. split; [by left|]. split; [|done]. intros _. by split.
Qed.

End MoreGraphFacts.

(** ** MetricEvaluator: errors, and what a run leaves behind *)

Section MoreEvaluationFacts.
Context (P : MetricEvaluator.ResultFrames).
Import MetricEvaluator.

Implicit Types (st : state) (sp : Split) (s : list Split).

Lemma touched_some_refl s ls : touched_some s s ls.
Proof. intros l. by left. Qed.

Lemma touched_some_trans s1 s2 s3 ls1 ls2 :
  touched_some s1 s2 ls1 → touched_some s2 s3 ls2 → touched_some s1 s3 (ls1 ++ ls2).
Proof.
  intros H12 H23 l. destruct (H23 l) as [->|[Hl ->]], (H12 l) as [->|[Hl' ->]].
  - by left.
  - right. split; [set_solver|done].
  - right. split; [set_solver|done].
  - right. split; [set_solver|]. destruct (s1 !! l); [|done]. simpl.
    by rewrite filtered_idem.
Qed.

Lemma touched_some_weaken s s' ls ls' :
  (∀ l, l ∈ ls → l ∈ ls') → touched_some s s' ls → touched_some s s' ls'.
Proof. intros Hsub Ht l. destruct (Ht l) as [?|[? ?]]; [by left|right; auto]. Qed.

Lemma touched_touched_some s s' ls : touched s s' [ls] → touched_some s s' [ls].
Proof.
  intros Ht l. rewrite (Ht l). case_decide; [right|left]; done.
Qed.

(** One split, whatever the outcome. *)
Lemma eval_split_any metric results split st :
  _split_list (eval_split P metric results split st).2 = _split_list st ∧
  log (eval_split P metric results split st).2 = log st ∧
  touched_some (store st) (store (eval_split P metric results split st).2) [split].
Proof.
  rewrite eval_split_eq. destruct (store st !! split) as [sp|] eqn:Hsp.
  2:{ split_and!; try done. apply touched_some_refl. }
  cbv zeta.
  assert (touched_some (store st) (<[split := filtered sp]> (store st)) [split]) as Ht.
  { by apply touched_touched_some, touched_step. }
  destruct (negb (is_empty (pred sp)) && negb (is_empty (truth sp))); [|done].
  by destruct (perform P metric (filtered sp)).
Qed.

Lemma eval_split_loop_any metric ls : ∀ results st,
  _split_list (for_loop (eval_split P metric) ls results st).2 = _split_list st ∧
  log (for_loop (eval_split P metric) ls results st).2 = log st ∧
  touched_some (store st) (store (for_loop (eval_split P metric) ls results st).2) ls.
Proof.
  induction ls as [|split ls IH]; intros results st; simpl.
  { split_and!; try done. apply touched_some_refl. }
  unfold bind. destruct (eval_split_any metric results split st) as (Hsl & Hlog & Ht).
  destruct (eval_split P metric results split st) as [[results1|e] st1]; simpl in *.
  - destruct (IH results1 st1) as (Hsl' & Hlog' & Ht').
    split_and!; [congruence|congruence|].
    by apply (touched_some_trans _ (store st1) _ [split] ls).
  - split_and!; try done. eapply touched_some_weaken; [|exact Ht]. set_solver.
Qed.

Lemma eval_metric_any frames metric st :
  _split_list (eval_metric P frames metric st).2 = _split_list st ∧
  log (eval_metric P frames metric st).2 = log st ∧
  touched_some (store st) (store (eval_metric P frames metric st).2)
    (split_list_of st metric).
Proof.
  unfold eval_metric, call, bind, gets, ret. cbv beta.
  pose proof (eval_split_loop_any metric (split_list_of st metric) [] st) as Hloop.
  destruct (for_loop _ _ _ _) as [[results|e] st1]; [|done]. simpl in Hloop.
  destruct (pd_concat P 0 results) as [total|e]; [|done].
  by destruct (negb (table_empty P total)).
Qed.

Lemma eval_metric_loop_any ms : ∀ frames st,
  _split_list (for_loop (eval_metric P) ms frames st).2 = _split_list st ∧
  log (for_loop (eval_metric P) ms frames st).2 = log st ∧
  touched_some (store st) (store (for_loop (eval_metric P) ms frames st).2)
    (evaluated st ms).
Proof.
  induction ms as [|metric ms IH]; intros frames st; simpl.
  { split_and!; try done. apply touched_some_refl. }
  unfold bind. destruct (eval_metric_any frames metric st) as (Hsl & Hlog & Ht).
  unfold evaluated in *. rewrite ?bind_cons.
  change ((metric :: ms) ≫= split_list_of st)
    with (split_list_of st metric ++ (ms ≫= split_list_of st)).
  destruct (eval_metric P frames metric st) as [[frames1|e] st1]; simpl in *.
  - destruct (IH frames1 st1) as (Hsl' & Hlog' & Ht').
    split_and!; [congruence|congruence|].
    apply (touched_some_trans _ (store st1)); [done|].
    replace (ms ≫= split_list_of st) with (ms ≫= split_list_of st1); [done|].
    unfold split_list_of. by rewrite Hsl.
  - split_and!; try done. eapply touched_some_weaken; [|exact Ht]. set_solver.
Qed.

Lemma eval_metrics_any ms st :
  _split_list (eval_metrics P ms st).2 = _split_list st ∧
  log (eval_metrics P ms st).2 = log st ++ [LogInfo "Performing metrics chosen"] ∧
  touched_some (store st) (store (eval_metrics P ms st).2) (evaluated st ms).
Proof.
  unfold eval_metrics, info, call, bind, modify, ret. cbv beta.
  set (st0 := {| _split_list := _split_list st; store := store st;
                 log := log st ++ [LogInfo "Performing metrics chosen"] |}).
  pose proof (eval_metric_loop_any ms [] st0) as Hloop.
  destruct (for_loop _ _ _ _) as [[frames|e] st1]; [|done]. simpl in Hloop.
  destruct (pd_concat P 1 frames) as [final|e]; [|done].
  destruct (loc_sys P final); [|done]. by destruct (drop_sys P final).
Qed.

(** X13: whatever the outcome of [eval_metrics], also when a metric or
    pandas raises on the way, the store holds the same splits in the same
    places, each as it was or with its truth filtered by its predictions;
    splits that no metric of the list names are as they were, predictions
    never change, and the split list of the evaluator is not reassigned. *)
Theorem eval_metrics_touches_only_truth ms st :
  _split_list (eval_metrics P ms st).2 = _split_list st ∧
  length (store (eval_metrics P ms st).2) = length (store st) ∧
  (∀ l, l ∉ evaluated st ms → store (eval_metrics P ms st).2 !! l = store st !! l) ∧
  (∀ l sp', store (eval_metrics P ms st).2 !! l = Some sp' →
     ∃ sp, store st !! l = Some sp ∧ pred sp' = pred sp ∧
           (sp' = sp ∨ sp' = filtered sp) ∧ truth sp' `sublist_of` truth sp).
Proof.
  destruct (eval_metrics_any ms st) as (Hsl & _ & Ht).
  assert (∀ l sp', store (eval_metrics P ms st).2 !! l = Some sp' →
            ∃ sp, store st !! l = Some sp ∧ (sp' = sp ∨ sp' = filtered sp)) as Hcases.
  { intros l sp' Hl. destruct (Ht l) as [Heq|[_ Heq]]; rewrite Heq in Hl.
    - eauto.
    - destruct (store st !! l) as [sp|]; [|done]. simpl in Hl. simplify_eq. eauto. }
  split_and!; [done| | |].
  - apply Nat.le_antisymm.
    + destruct (decide (length (store (eval_metrics P ms st).2) ≤ length (store st)))
        as [|Hgt]; [done|]. exfalso.
      destruct (lookup_lt_is_Some_2 (store (eval_metrics P ms st).2) (length (store st)))
        as [sp' Hsp']; [lia|].
      destruct (Hcases _ _ Hsp') as (sp & Hsp & _).
      apply lookup_lt_Some in Hsp. lia.
    + destruct (decide (length (store st) ≤ length (store (eval_metrics P ms st).2)))
        as [|Hgt]; [done|]. exfalso.
      destruct (lookup_lt_is_Some_2 (store st) (length (store (eval_metrics P ms st).2)))
        as [sp Hsp]; [lia|].
      destruct (Ht (length (store (eval_metrics P ms st).2))) as [Heq|[_ Heq]];
        rewrite Hsp in Heq; apply lookup_lt_Some in Heq; lia.
  - intros l Hl. destruct (Ht l) as [Heq|[? _]]; done.
  - intros l sp' Hl. destruct (Hcases l sp' Hl) as (sp & Hsp & [->| ->]).
    + exists sp. split_and!; auto.
    + exists sp. split_and!; auto; unfold filtered;
        destruct (negb (is_empty (pred sp)) && negb (is_empty (truth sp))); simpl; try done.
      apply sublist_filter.
Qed.

(** X14: evaluating again changes no split: after a run of [eval_metrics]
    that returned, a second run over the same metrics, whatever its outcome,
    leaves every split as the first run left it. *)
Theorem eval_metrics_again_same_store ms st r st1 :
  eval_metrics P ms st = (Ok r, st1) →
  store (eval_metrics P ms st1).2 = store st1.
Proof.
  intros (_ & Hsl & Ht)%eval_metrics_run.
  destruct (eval_metrics_any ms st1) as (_ & _ & Ht2).
  apply list_eq. intros l. destruct (Ht2 l) as [Heq|[Hl Heq]]; [done|].
  rewrite Heq, (Ht l). unfold evaluated, split_list_of in *. rewrite Hsl in Hl.
  rewrite decide_True by done. destruct (store st !! l); [|done]. simpl.
  by rewrite filtered_idem.
Qed.

Lemma not_is_empty (f : list row) : f = [] → is_empty f = true.
Proof. by intros ->. Qed.

(** A metric whose splits all lack predictions or truth collects no result. *)
Lemma eval_split_loop_nothing metric ls : ∀ results st,
  (∀ l, l ∈ ls → nothing_to_evaluate st l) →
  for_loop (eval_split P metric) ls results st = (Ok results, st).
Proof.
  induction ls as [|split ls IH]; intros results st Hls; [done|].
  simpl. unfold bind. rewrite eval_split_eq.
  destruct (Hls split) as (sp & Hsp & Hempty); [left|]. rewrite Hsp. cbv zeta.
  assert (filtered sp = sp ∧
          negb (is_empty (pred sp)) && negb (is_empty (truth sp)) = false) as [Hf ->].
  { unfold filtered.
    destruct Hempty as [->%not_is_empty| ->%not_is_empty]; by rewrite ?andb_false_r. }
  rewrite Hf.
  assert (set_store (λ s, <[split := sp]> s) st = st) as ->.
  { unfold set_store. destruct st; simpl in *. by rewrite list_insert_id. }
  apply IH. intros l Hl. apply Hls. by right.
Qed.

(** X15: [eval_metrics] raises the [ValueError] of [pd.concat] when it
    has nothing to concatenate: for an empty list of metrics, and when every
    split of its first metric lacks predictions or truth. The splits are
    then as they were; only the log entry was written. *)
Theorem eval_metrics_nothing_to_concatenate metric ms st :
  eval_metrics P [] st
    = (Raise (ValueError "No objects to concatenate"),
       {| _split_list := _split_list st; store := store st;
          log := log st ++ [LogInfo "Performing metrics chosen"] |}) ∧
  ((∀ l, l ∈ split_list_of st metric → nothing_to_evaluate st l) →
   eval_metrics P (metric :: ms) st
     = (Raise (ValueError "No objects to concatenate"),
        {| _split_list := _split_list st; store := store st;
           log := log st ++ [LogInfo "Performing metrics chosen"] |})).
Proof.
  split; [done|]. intros Hnone.
  unfold eval_metrics, info, call, bind, modify, ret. cbv beta. simpl.
  unfold bind. unfold eval_metric at 1. unfold bind, gets, call. cbv beta.
  set (st0 := {| _split_list := _split_list st; store := store st;
                 log := log st ++ [LogInfo "Performing metrics chosen"] |}).
  change (split_list_of st0 metric) with (split_list_of st metric).
  rewrite eval_split_loop_nothing; [done|].
  intros l Hl. by apply Hnone.
Qed.

End MoreEvaluationFacts.

(** ** The [Split] container *)

Section SplitFacts.
Context {V : Type}.
Import SplitObject.

Implicit Types (sp : Split V) (ops : list (string * V)).

Lemma assign_snoc sp ops n x :
  assign sp (ops ++ [(n, x)]) = __setattr__ (assign sp ops) n x.
Proof. unfold assign. by rewrite foldl_app. Qed.

Lemma last_write_snoc names ops n (x d : V) :
  last_write names (ops ++ [(n, x)]) d
  = if decide (n ∈ names) then x else last_write names ops d.
Proof. unfold last_write. by rewrite foldl_app. Qed.

Lemma names_disjoint n : n ∈ first_names → n ∉ second_names.
Proof.
  unfold first_names, second_names. intros Hn Hn'.
  repeat (apply elem_of_cons in Hn as [->|Hn]);
    try (by apply elem_of_nil in Hn);
    repeat (apply elem_of_cons in Hn' as [?|Hn']); try done;
    by apply elem_of_nil in Hn'.
Qed.

(** What a sequence of assignments makes of a new object. *)
Lemma assign_spec (a b : V) ops :
  assign (__init__ a b) ops =
  {| first := last_write first_names ops a; second := last_write second_names ops b;
     _valid_first_name := first_names; _valid_second_name := second_names |}.
Proof.
  induction ops as [|[n x] ops IH] using rev_ind; [done|].
  rewrite assign_snoc, !last_write_snoc, IH. unfold __setattr__. simpl.
  destruct (decide (n ∈ first_names)) as [H1|H1].
  - by rewrite (decide_False (P := n ∈ second_names)) by by apply names_disjoint.
  - by destruct (decide (n ∈ second_names)).
Qed.

(** X16: the three names of a slot are one slot. After any sequence of
    assignments to an object made by [__init__], reading any of [train],
    [pred], [first] gives the value last assigned under any of the three
    (the first constructor argument if there was none), and likewise
    [test], [truth], [second] for the second slot; the two slots do not
    interfere. *)
Theorem Split_last_write_wins (a b : V) ops n :
  (n ∈ first_names →
   __getattr__ (assign (__init__ a b) ops) n = Some (last_write first_names ops a)) ∧
  (n ∈ second_names →
   __getattr__ (assign (__init__ a b) ops) n = Some (last_write second_names ops b)) ∧
  first (assign (__init__ a b) ops) = last_write first_names ops a ∧
  second (assign (__init__ a b) ops) = last_write second_names ops b.
Proof.
  rewrite assign_spec. unfold __getattr__. simpl. split_and!; try done.
  - intros Hn. by rewrite decide_True.
  - intros Hn. rewrite decide_False, decide_True; [done|done|].
    intros Hn'. by apply names_disjoint in Hn'.
Qed.

(** X17: names outside the six are dropped without an error. On an
    object made by [__init__] and assigned to in any way, an assignment
    under another name changes nothing, so the two lists of valid names
    cannot be reassigned, and reading another name that the object does not
    have gives [None] instead of raising [AttributeError]. *)
Theorem Split_other_names_are_ignored (a b : V) ops n x :
  n ∉ first_names ++ second_names →
  __setattr__ (assign (__init__ a b) ops) n x = assign (__init__ a b) ops ∧
  __getattr__ (assign (__init__ a b) ops) n = None ∧
  _valid_first_name (assign (__init__ a b) ops) = ["train"; "pred"; "first"] ∧
  _valid_second_name (assign (__init__ a b) ops) = ["test"; "truth"; "second"].
Proof.
  intros Hn. rewrite assign_spec. unfold __setattr__, __getattr__. simpl.
  rewrite !decide_False by set_solver. done.
Qed.

End SplitFacts.

(** ** [item_field] of the content-based algorithms *)

Section ItemFieldFacts.
Import OrangeContentBased.

Implicit Types (d : list (string * representations)) (k : string) (v : representations).

Lemma dict_getitem_app_r d1 d2 k :
  k ∉ d1.*1 → dict_getitem (d1 ++ d2) k = dict_getitem d2 k.
Proof.
  induction d1 as [|[k' v'] d1 IH]; [done|]. simpl. intros Hk.
  rewrite decide_False by set_solver. apply IH. set_solver.
Qed.

Lemma dict_setitem_app_r d1 d2 k v :
  k ∉ d1.*1 → dict_setitem (d1 ++ d2) k v = d1 ++ dict_setitem d2 k v.
Proof.
  induction d1 as [|[k' v'] d1 IH]; [done|]. simpl. intros Hk.
  rewrite decide_False by set_solver. f_equal. apply IH. set_solver.
Qed.

Lemma bracket_all_keys d : (bracket_all d).*1 = d.*1.
Proof. unfold bracket_all. rewrite <-list_fmap_compose. done. Qed.

Lemma bracket_all_idem d : bracket_all (bracket_all d) = bracket_all d.
Proof. unfold bracket_all. rewrite <-list_fmap_compose. done. Qed.

(** The loop of [_bracket_representation], with the fields of [d1] done and
    those of [d2] to do. *)
Lemma bracket_loop d2 : ∀ d1,
  NoDup (d1 ++ d2).*1 →
  for_loop (λ (_ : unit) field,
     let* item_field := gets id in
     let* v := getitem item_field field in
     match v with
     | Str s => modify (λ item_field : list (string * representations),
                          dict_setitem item_field field (Reps [s]))
     | Reps _ => ret tt
     end)%exec d2.*1 tt (bracket_all d1 ++ d2)
  = (Ok tt, bracket_all (d1 ++ d2)).
Proof.
  induction d2 as [|[k v] d2 IH]; intros d1 Hnd.
  { by rewrite !app_nil_r. }
  assert (k ∉ d1.*1) as Hk.
  { rewrite fmap_app in Hnd. apply NoDup_app in Hnd as (_ & Hnd & _).
    intros Hin. apply (Hnd k Hin). left. }
  rewrite fmap_cons. simpl. unfold bind at 1. unfold bind at 1, gets at 1, id at 1.
  unfold bind at 1, getitem.
  rewrite dict_getitem_app_r by (by rewrite bracket_all_keys). simpl.
  rewrite decide_True by done.
  replace (d1 ++ (k, v) :: d2) with ((d1 ++ [(k, v)]) ++ d2) in * by (by rewrite <-app_assoc).
  rewrite <-IH by done.
  unfold bracket_all at 2. rewrite fmap_app. fold (bracket_all d1). simpl.
  destruct v as [s|l]; simpl.
  - unfold modify. rewrite dict_setitem_app_r by (by rewrite bracket_all_keys). simpl.
    rewrite decide_True by done. by rewrite <-app_assoc.
  - unfold ret. by rewrite <-app_assoc.
Qed.

Lemma bracket_run d :
  NoDup d.*1 → _bracket_representation d = (Ok (bracket_all d), bracket_all d).
Proof.
  intros Hnd. pose proof (bracket_loop d [] Hnd) as Hloop.
  change (bracket_all [] ++ d) with d in Hloop. change ([] ++ d) with d in Hloop.
  unfold _bracket_representation. unfold bind at 1, gets at 1.
  unfold bind at 1. by rewrite Hloop.
Qed.

(** X18: [_bracket_representation] never raises; it updates the dict it
    is given in place and returns it with the same fields in the same order,
    every value a list: a string has become the list of that one string,
    a list is as it was. Bracketing what is already bracketed changes
    nothing. *)
Theorem bracket_representation_brackets_in_place d :
  NoDup d.*1 →
  _bracket_representation d = (Ok (bracket_all d), bracket_all d) ∧
  (bracket_all d).*1 = d.*1 ∧
  (∀ k v, dict_getitem d k = Some v → dict_getitem (bracket_all d) k = Some (Reps (ids v))) ∧
  _bracket_representation (bracket_all d) = (Ok (bracket_all d), bracket_all d).
Proof.
  intros Hnd. split_and!.
  - by apply bracket_run.
  - apply bracket_all_keys.
  - intros k v. clear Hnd. induction d as [|[k' v'] d IH]; [done|]. simpl.
    case_decide; [by intros [= ->]|done].
  - rewrite bracket_run by (by rewrite bracket_all_keys). by rewrite bracket_all_idem.
Qed.

End ItemFieldFacts.

Section ExtractFacts.
Import OrangeContentBased.
Context {Content V : Type}.
Context (get_value : Content → string → string → result V).

Implicit Types (d : list (string * representations)) (k : string) (bag : list V).

(** The loop over the representations of one field. *)
Lemma representations_loop item k (val : string → V) rs : ∀ bag,
  (∀ r, r ∈ rs → get_value item k r = Ok (val r)) →
  for_loop (λ (_ : unit) representation,
     let* value := (λ bag, (get_value item k representation, bag)) in
     modify (λ item_bag_list : list V, item_bag_list ++ [value]))%exec rs tt bag
  = (Ok tt, bag ++ (val <$> rs)).
Proof.
  induction rs as [|r rs IH]; intros bag Hval; simpl.
  { by rewrite app_nil_r. }
  unfold bind at 1. unfold bind at 1. rewrite Hval by left. unfold modify.
  rewrite IH by (intros r' Hr'; apply Hval; by right).
  by rewrite <-app_assoc.
Qed.

(** The loop over the fields, with those of [d1] done and those of [d2] to
    do. *)
Lemma fields_loop item (val : string → string → V) d2 : ∀ d1 bag,
  NoDup (d1 ++ d2).*1 →
  (∀ k v r, (k, v) ∈ d2 → r ∈ ids v → get_value item k r = Ok (val k r)) →
  for_loop (λ (_ : unit) field,
     let* field_representations := getitem (bracket_all (d1 ++ d2)) field in
     for_loop (λ (_ : unit) representation,
       let* value := (λ bag, (get_value item field representation, bag)) in
       modify (λ item_bag_list : list V, item_bag_list ++ [value]))
       (iterate field_representations) tt)%exec (bracket_all d2).*1 tt bag
  = (Ok tt, bag ++ (d2 ≫= λ kv, val kv.1 <$> ids kv.2)).
Proof.
  induction d2 as [|[k v] d2 IH]; intros d1 bag Hnd Hval.
  { simpl. by rewrite app_nil_r. }
  assert (k ∉ d1.*1) as Hk.
  { rewrite fmap_app in Hnd. apply NoDup_app in Hnd as (_ & Hnd & _).
    intros Hin. apply (Hnd k Hin). left. }
  assert (dict_getitem (bracket_all (d1 ++ (k, v) :: d2)) k = Some (Reps (ids v))) as Hget.
  { replace (bracket_all (d1 ++ (k, v) :: d2))
      with (bracket_all d1 ++ bracket_all ((k, v) :: d2))
      by (unfold bracket_all; by rewrite fmap_app).
    rewrite dict_getitem_app_r by (by rewrite bracket_all_keys).
    simpl. by rewrite decide_True. }
  change (bracket_all ((k, v) :: d2)).*1 with (k :: (bracket_all d2).*1).
  cbn [for_loop]. unfold bind at 1. unfold bind at 1, getitem at 1.
  rewrite Hget. unfold ret at 1. cbn [iterate].
  rewrite (representations_loop item k (val k)) by (intros r Hr; eapply Hval; [left|done]).
  specialize (IH (d1 ++ [(k, v)]) (bag ++ (val k <$> ids v))).
  rewrite <-app_assoc in IH. cbn [app] in IH. rewrite IH.
  - rewrite bind_cons. by rewrite <-app_assoc.
  - done.
  - intros k' v' r Hin Hr. eapply Hval; [by right|done].
Qed.

(** X19: [extract_features_item] returns the empty list for no item. For
    an item of which every chosen representation can be read, and with
    [item_field] as the constructor leaves it, it returns one value for
    every chosen representation: field after field in the order of
    [item_field], and within a field in the order of its list. A
    representation that was given as a string counts as one. *)
Theorem extract_features_in_field_order d item (val : string → string → V) :
  NoDup d.*1 →
  (∀ k v r, (k, v) ∈ d → r ∈ ids v → get_value item k r = Ok (val k r)) →
  extract_features_item get_value (bracket_all d) (Some item)
    = Ok (d ≫= λ kv, val kv.1 <$> ids kv.2) ∧
  extract_features_item get_value (bracket_all d) None = Ok [] ∧
  length (d ≫= λ kv, val kv.1 <$> ids kv.2) = sum_list ((λ kv, length (ids kv.2)) <$> d).
Proof.
  intros Hnd Hval. split_and!.
  - unfold extract_features_item. unfold bind at 1.
    pose proof (fields_loop item val d [] [] Hnd Hval) as Hloop.
    cbn [app] in Hloop. unfold getitem in *. by rewrite Hloop.
  - done.
  - clear. induction d as [|[k v] d IH]; [done|].
    rewrite bind_cons, length_app, length_fmap, fmap_cons, IH. done.
Qed.

End ExtractFacts.

(** ** The AMAR networks: how many sources of features *)

Section AmarFacts.
Import Amar.
Context {tensor parameter device weights : Type}.
Context (to_parameter : tensor → device → bool → parameter).

Implicit Types (items users : list tensor) (dev : device) (g : bool) (cw : option weights).

Lemma length_one {A} (l : list A) : length l = 1 → ∃ x, l = [x].
Proof. destruct l as [|x [|y l]]; try done. by exists x. Qed.

Lemma length_two {A} (l : list A) : length l = 2 → ∃ x y, l = [x; y].
Proof. destruct l as [|x [|y [|z l]]]; try done. by exists x, y. Qed.

(** X20: [SingleSourceAmarNetwork] is built exactly for one source of
    users features and one of items features, [DoubleSourceAmarNetwork]
    exactly for two of each, so no pair of feature lists builds both. What
    they raise otherwise is a [ValueError] that reports the number of users
    features when that is wrong, whatever the number of items features, and
    the number of items features only when the users features are right.
    The parameters of a network that was built are made from the sources in
    the order given. *)
Theorem amar_source_counts items users dev g cw :
  ((∃ net, SingleSource__init__ to_parameter items users dev g cw = Ok net)
     ↔ length users = 1 ∧ length items = 1) ∧
  ((∃ net, DoubleSource__init__ to_parameter items users dev g cw = Ok net)
     ↔ length users = 2 ∧ length items = 2) ∧
  (length users ≠ 1 →
   SingleSource__init__ to_parameter items users dev g cw
     = Raise (ValueError (single_users_msg (length users)))) ∧
  (length users = 1 → length items ≠ 1 →
   SingleSource__init__ to_parameter items users dev g cw
     = Raise (ValueError (single_items_msg (length items)))) ∧
  (length users ≠ 2 →
   DoubleSource__init__ to_parameter items users dev g cw
     = Raise (ValueError (double_users_msg (length users)))) ∧
  (length users = 2 → length items ≠ 2 →
   DoubleSource__init__ to_parameter items users dev g cw
     = Raise (ValueError (double_items_msg (length items)))) ∧
  (∀ net, SingleSource__init__ to_parameter items users dev g cw = Ok net →
     ∃ u i, users = [u] ∧ items = [i] ∧
       single_users_features net = to_parameter u dev g ∧
       single_items_features net = to_parameter i dev g) ∧
  (∀ net, DoubleSource__init__ to_parameter items users dev g cw = Ok net →
     ∃ u0 u1 i0 i1, users = [u0; u1] ∧ items = [i0; i1] ∧
       first_users_features net = to_parameter u0 dev g ∧
       second_users_features net = to_parameter u1 dev g ∧
       first_items_features net = to_parameter i0 dev g ∧
       second_items_features net = to_parameter i1 dev g).
Proof.
  unfold SingleSource__init__, DoubleSource__init__.
  destruct (decide (length users ≠ 1)) as [Hu1|Hu1];
    destruct (decide (length users ≠ 2)) as [Hu2|Hu2];
    destruct (decide (length items ≠ 1)) as [Hi1|Hi1];
    destruct (decide (length items ≠ 2)) as [Hi2|Hi2].
  all: try apply dec_stable in Hu1; try apply dec_stable in Hu2;
    try apply dec_stable in Hi1; try apply dec_stable in Hi2.
  all: try lia.
  all: try (destruct (length_one _ Hu1) as (u & ->));
    try (destruct (length_two _ Hu2) as (u0 & u1 & ->));
    try (destruct (length_one _ Hi1) as (i & ->));
    try (destruct (length_two _ Hi2) as (i0 & i1 & ->)).
  all: simpl in *; split_and!; try done; try lia; try naive_solver.
Qed.

End AmarFacts.

(** ** The further properties at work *)

(** X6 at work: the toy recommender, fitted on its train set of three
    users. *)
Lemma fit_returns_then_fitted_witness :
  ((∃ msg, (ContentBasedRS.predict Toy.alg pyset Toy.test None None
              (ContentBasedRS.fit Toy.alg pyset Toy.fresh).2).1 = Raise (NotFittedAlg msg))
     ↔ registry Toy.fresh = ∅ ∧
       ContentBasedRS.train_set (ContentBasedRS.self Toy.fresh) = []) ∧
  ((∃ msg, (ContentBasedRS.rank Toy.alg pyset Toy.test None None None
              (ContentBasedRS.fit Toy.alg pyset Toy.fresh).2).1 = Raise (NotFittedAlg msg))
     ↔ registry Toy.fresh = ∅ ∧
       ContentBasedRS.train_set (ContentBasedRS.self Toy.fresh) = []).
Proof.
  apply (fit_returns_then_fitted Toy.alg pyset pyset Toy.test None None None Toy.fresh).
  - apply pyset_set_order.
  - by vm_compute.
Defined.


Lemma toy_predict_tags_after_fit (v : pyval) :
  v ∈ ContentBasedRS.all_users Toy.test None →
  predict_call_tags_user Toy.after_fit Toy.test None v.
Proof.
  intros Hv base alg a records Hbase Halg Ha Hcall.
  vm_compute in Hbase. simplify_eq.
  vm_compute in Hv. each_member Hv.
  all: vm_compute in Halg; simplify_eq.
  all: vm_compute in Ha; simplify_eq.
  all: vm_compute in Hcall; simplify_eq.
  all: intros i Hi; each_member Hi; done.
Qed.

(** X9 at work: the predictions for the users of the test set. *)
Lemma predict_gives_each_user_its_records_witness :
  ∃ records base,
    (ContentBasedRS.predict Toy.alg pyset Toy.test None None Toy.after_fit).1 = Ok records ∧
    ContentBasedRS.heap Toy.after_fit
      !! ContentBasedRS.algorithm (ContentBasedRS.self Toy.after_fit) = Some base ∧
    (∀ v, v ∈ ContentBasedRS.all_users Toy.test None →
          predicted_for Toy.after_fit Toy.test None base v
            = Ok (user_records records (str v))) ∧
    (∀ u, u ∉ str <$> ContentBasedRS.all_users Toy.test None → user_records records u = []).
Proof.
  destruct (ContentBasedRS.predict Toy.alg pyset Toy.test None None Toy.after_fit)
    as [r st'] eqn:Hrun.
  assert (∃ t, r = Ok t) as [t ->].
  { apply (f_equal fst) in Hrun. vm_compute in Hrun. subst r. by eexists. }
  destruct (predict_gives_each_user_its_records Toy.alg pyset Toy.test None None
              Toy.after_fit t st') as (base & Hbase & Hown & Hnone).
  - apply pyset_set_order.
  - apply str_inj_on_strings.
  - apply toy_predict_tags_after_fit.
  - exact Hrun.
  - exists t, base. by split_and!.
Defined.

(** X10 at work: an empty [user_id_list]. *)
Lemma no_users_no_records_witness :
  (ContentBasedRS.fit_predict Toy.alg pyset Toy.test (Some []) None false Toy.fresh).1
    = Ok [] ∧
  (ContentBasedRS.predict Toy.alg pyset Toy.test (Some []) None Toy.fresh).1
    = Raise (NotFittedAlg ContentBasedRS.not_fitted_msg).
Proof.
  destruct (no_users_no_records Toy.alg pyset Toy.test None (Some []) None false
              Toy.fresh Toy.base)
    as (Hfp & _ & Hp & _).
  - reflexivity.
  - apply pyset_set_order.
  - reflexivity.
  - split; [by rewrite Hfp|]. rewrite Hp. by rewrite decide_True.
Defined.

(** X12 at work: a rank for the users of the test set, all of whom the
    graph knows. *)
Lemma graph_rank_warning_is_by_count_witness :
  ∃ records st',
    GraphBasedRS.rank Toy.graph_alg Toy.test None None None (Toy.graph_state Toy.train)
      = (Ok records, st') ∧
    (GraphBasedRS.log st' = GraphBasedRS.log (Toy.graph_state Toy.train) ↔
     records ≠ [] ∧
     size (GraphBasedRS.covered records) = size (GraphBasedRS.all_users Toy.test None)).
Proof.
  destruct (GraphBasedRS.rank Toy.graph_alg Toy.test None None None
              (Toy.graph_state Toy.train)) as [r st'] eqn:Hrun.
  assert (∃ t, r = Ok t) as [t ->].
  { apply (f_equal fst) in Hrun. vm_compute in Hrun. subst r. by eexists. }
  exists t, st'. split; [done|].
  apply (graph_rank_warning_is_by_count Toy.graph_alg Toy.test None None None
           (Toy.graph_state Toy.train) t st' Hrun).
Defined.

(** X14 at work: the splits of the toy evaluator, evaluated twice. *)
Lemma eval_metrics_again_same_store_witness :
  MetricEvaluator.store
    (MetricEvaluator.eval_metrics Toy.frames [Toy.count_metric]
       (MetricEvaluator.eval_metrics Toy.frames [Toy.count_metric] Toy.splits).2).2
  = MetricEvaluator.store
      (MetricEvaluator.eval_metrics Toy.frames [Toy.count_metric] Toy.splits).2.
Proof.
  destruct (MetricEvaluator.eval_metrics Toy.frames [Toy.count_metric] Toy.splits)
    as [r st'] eqn:Hrun.
  assert (∃ t, r = Ok t) as [t ->].
  { apply (f_equal fst) in Hrun. vm_compute in Hrun. subst r. by eexists. }
  apply (eval_metrics_again_same_store Toy.frames [Toy.count_metric] Toy.splits t st' Hrun).
Defined.

(** X17 at work: a misspelt name. *)
Lemma Split_other_names_are_ignored_witness :
  SplitObject.__setattr__
    (assign (SplitObject.__init__ 1 2) [("pred", 3)]) "prediction" 9
  = assign (SplitObject.__init__ 1 2) [("pred", 3)] ∧
  SplitObject.__getattr__ (assign (SplitObject.__init__ 1 2) [("pred", 3)]) "prediction"
  = None.
Proof.
  destruct (Split_other_names_are_ignored 1 2 [("pred", 3)] "prediction" 9)
    as (Hset & Hget & _).
  - apply (bool_decide_unpack _). by vm_compute.
  - by split.
Defined.

(** X18 at work: the example of the docstring. *)
Lemma bracket_representation_brackets_in_place_witness :
  (OrangeContentBased._bracket_representation
     [("Plot", OrangeContentBased.Str "0");
      ("Genre", OrangeContentBased.Reps ["0"; "1"])]).1
  = Ok [("Plot", OrangeContentBased.Reps ["0"]);
        ("Genre", OrangeContentBased.Reps ["0"; "1"])].
Proof.
  destruct (bracket_representation_brackets_in_place
              [("Plot", OrangeContentBased.Str "0");
               ("Genre", OrangeContentBased.Reps ["0"; "1"])]) as (Hrun & _).
  - apply (bool_decide_unpack _). by vm_compute.
  - by rewrite Hrun.
Defined.

(** X19 at work: an item whose values name their place; the
    representation of the plot was given as the string ["10"], which is one
    representation, not two. *)
Lemma extract_features_in_field_order_witness :
  OrangeContentBased.extract_features_item
    (λ (item : string → string → string * string) field representation,
       Ok (item field representation))
    (bracket_all [("Plot", OrangeContentBased.Str "10");
                  ("Genre", OrangeContentBased.Reps ["0"; "1"])])
    (Some (λ field representation, (field, representation)))
  = Ok [("Plot", "10"); ("Genre", "0"); ("Genre", "1")].
Proof.
  destruct (extract_features_in_field_order
              (λ (item : string → string → string * string) field representation,
                 Ok (item field representation))
              [("Plot", OrangeContentBased.Str "10");
               ("Genre", OrangeContentBased.Reps ["0"; "1"])]
              (λ field representation, (field, representation))
              (λ field representation, (field, representation)))
    as (Hrun & _).
  - apply (bool_decide_unpack _). by vm_compute.
  - done.
  - by rewrite Hrun.
Defined.
